(** * fastcgi4j: the bind wrapper (bindwrap.c) and the JNI socket bridge (native.c)

    A shallow embedding of the two C translation units and the properties
    of their specification.

    - C strings are [string]s; a pointer that runs off the end of the
      [string] reads the terminating NUL, and a NUL character inside a
      [string] terminates it as it would in memory.
    - Character buffers ([char buf[N]]) are [list ascii] of length [N].
    - [int], [pid_t], [ssize_t] and [jint] values are [Z].
    - System calls are answered by an oracle: the list of the replies the
      operating system gives, in the order the calls are made.  Each call is
      recorded, with its reply, in a trace.  A call for which no reply is
      left does not return: this is the read that blocks for good and the
      [execve] that succeeds.
    - [assert] is the one of a build without [NDEBUG]: a failed assertion
      aborts the process.
    - Constants of the headers ([SIGCHLD], [EINTR], [sizeof sun_path], the
      encoding of wait statuses) are those of Linux with glibc. *)

From Stdlib Require Import ZArith List String Ascii Bool Arith Lia.
Import ListNotations.
Local Open Scope string_scope.
Local Open Scope list_scope.
Local Open Scope Z_scope.

(** ** C strings *)

Module CString.

Definition NUL : ascii := Ascii.zero.

Definition is_nul (c : ascii) : bool := Ascii.eqb c NUL.

(** [strlen]: the number of characters before the terminator. *)
Fixpoint strlen (s : string) : nat :=
  match s with
  | EmptyString => 0%nat
  | String c s' => if is_nul c then 0%nat else S (strlen s')
  end.

(** The characters a C function sees when given [s]: everything before
    the first NUL. *)
Fixpoint cstr (s : string) : string :=
  match s with
  | EmptyString => EmptyString
  | String c s' => if is_nul c then EmptyString else String c (cstr s')
  end.

(** [strncpy(dest, src, lim)]: the [lim] characters left in [dest].
    Characters are copied up to the terminator of [src] and the rest of
    [dest] is filled with NUL; when [src] has [lim] or more characters no
    NUL is written. *)
Fixpoint strncpy (src : string) (lim : nat) : list ascii :=
  match lim with
  | O => []
  | S n =>
      match src with
      | EmptyString => NUL :: strncpy EmptyString n
      | String c s' =>
          if is_nul c then NUL :: strncpy EmptyString n
          else c :: strncpy s' n
      end
  end.

(** Reading the C string that starts at the beginning of a buffer.  A
    buffer without a NUL would be read past its end; every buffer read
    below is NUL-terminated. *)
Fixpoint string_of_buf (buf : list ascii) : string :=
  match buf with
  | [] => EmptyString
  | c :: r => if is_nul c then EmptyString else String c (string_of_buf r)
  end.

(** [strrchr(buf, ch)] for [ch <> NUL]: the offset of the last [ch]
    before the terminator, [None] for a null pointer.  [i] is the offset
    of the head of [buf], [last] the last match seen so far. *)
Fixpoint strrchr_from (buf : list ascii) (ch : ascii) (i : nat)
         (last : option nat) : option nat :=
  match buf with
  | [] => last
  | c :: r =>
      if is_nul c then last
      else strrchr_from r ch (S i) (if Ascii.eqb c ch then Some i else last)
  end.

Definition strrchr (buf : list ascii) (ch : ascii) : option nat :=
  strrchr_from buf ch 0 None.

(** [buf[i] = c]. *)
Fixpoint store (buf : list ascii) (i : nat) (c : ascii) : list ascii :=
  match buf, i with
  | [], _ => []
  | _ :: r, O => c :: r
  | x :: r, S j => x :: store r j c
  end.

End CString.
Import CString.

(** ** bindwrap.c *)

Module Bindwrap.

Definition UNIX_BIND_VAR : string := "FASTCGI4J_UNIX_BIND".
Definition INET_BIND_VAR : string := "FASTCGI4J_INET_BIND".
Definition UNIX_PEER_VAR : string := "FASTCGI4J_WEB_SERVER_ADDRS".

(** [match_var(vname, envp)].  Both pointers advance while the
    characters agree and neither string has ended nor has [envp] reached
    its ['=']; the result is whether [envp] stopped on ['=']. *)
Fixpoint match_var (vname envp : string) : bool :=
  match vname, envp with
  | String a v', String b e' =>
      if Ascii.eqb a b && negb (is_nul a) && negb (is_nul b)
         && negb (Ascii.eqb b "=")
      then match_var v' e'
      else Ascii.eqb b "="
  | EmptyString, String b _ => Ascii.eqb b "="
  | _, EmptyString => false
  end.

(** [trunc_strncpy(dest, src, lim)]: the buffer left in [dest] and the
    returned flag, [dest[lim - 1] != '\0']. *)
Definition trunc_strncpy (src : string) (lim : nat) : list ascii * bool :=
  let dest := strncpy src lim in
  (dest, negb (is_nul (nth (lim - 1) dest NUL))).

(** The environment copy of [main]: every entry of [environ] except
    those [match_var] reports for the two bind variables, in order. *)
Fixpoint copy_env (environ : list string) : list string :=
  match environ with
  | [] => []
  | ptr :: rest =>
      if match_var UNIX_BIND_VAR ptr then copy_env rest
      else if match_var INET_BIND_VAR ptr then copy_env rest
      else ptr :: copy_env rest
  end.

(** *** Platform constants (Linux, glibc) *)

Definition EXIT_FAILURE : Z := 1.
Definition PF_UNIX : Z := 1.
Definition PF_INET : Z := 2.
Definition EINTR : Z := 4.
Definition SIGHUP : Z := 1.
Definition SIGINT : Z := 2.
Definition SIGTERM : Z := 15.
Definition SIGCHLD : Z := 17.
Definition WNOHANG : Z := 1.
Definition MODE_RWX_ALL : Z := 511.

(** [sizeof addr.un.sun_path], [sizeof buf] for the endpoint buffer and
    [sizeof (struct signalfd_siginfo)]. *)
Definition SUN_PATH_SIZE : nat := 108.
Definition INET_BUF_SIZE : nat := 256.
Definition SIGINFO_SIZE : Z := 128.

(** Wait statuses as glibc encodes them: the exit code in bits 8-15, the
    terminating signal in bits 0-6, bit 7 for a core dump. *)
Definition W_EXITCODE (code sig : Z) : Z := Z.lor (Z.shiftl code 8) sig.
Definition W_SIGNALED (sig : Z) (core : bool) : Z :=
  Z.lor sig (if core then 128 else 0).
Definition WEXITSTATUS (stat : Z) : Z := Z.shiftr (Z.land stat 65280) 8.

(** [sa_family_t fam = ptr->ai_family]: an unsigned 16-bit value. *)
Definition to_sa_family (v : Z) : Z := v mod 65536.

(** *** The operating system as seen by [main] *)

Record addrinfo := { ai_family : Z; ai_addr : string }.

Inductive call :=
| Socket (domain : Z)
| BindUn (fd : Z) (sun_path : list ascii)
| BindIn (fd : Z) (addr : string)
| Chmod (path : string) (mode : Z)
| Getaddrinfo (node : option string) (service : string)
| Close (fd : Z)
| Listen (fd backlog : Z)
| Dup2 (oldfd newfd : Z)
| Sigprocmask (set : list Z)
| Signalfd (set : list Z)
| Fork
| ReadSig (fd : Z)
| Kill (pid sig : Z)
| Waitpid (pid options : Z)
| Remove (path : string)
| Execve (path : option string) (argv envp : list string).

(** What a call gives back: its return value, the value it leaves in
    [errno] (the current value again when the call leaves it alone), and
    what it stores through its pointer arguments: [ssi_signo] for a
    signal read, the status for [waitpid], the result list for
    [getaddrinfo]. *)
Record reply := {
  rv : Z;
  rerrno : Z;
  ssi_signo : Z;
  wstat : Z;
  addrs : list addrinfo
}.

(** The text written to [stderr], one constructor per [fprintf] of
    [main], with the arguments that follow [argv[0]]. *)
Inductive diag :=
| D_unix_socket (ec : Z)
| D_path_too_long (path : string)
| D_bind_un (ec : Z) (path : string)
| D_addr_too_long (addr : string)
| D_port_required (addr : string)
| D_gai (hrc : Z) (addr : string)
| D_unknown_address (addr : string)
| D_inet_socket (family : string) (ec : Z)
| D_bind_in (ec : Z) (addr : string)
| D_must_specify
| D_listen (ec : Z)
| D_dup2 (ec : Z)
| D_sigprocmask (ec : Z)
| D_signalfd (ec : Z)
| D_fork (ec : Z)
| D_read_signal (ec : Z)
| D_waitpid (ec : Z)
| D_exec (ec : Z) (argv : list string).

Inductive event :=
| Ev (c : call) (r : reply)
| Out (d : diag).

(** How a run ends: [main] returns, an assertion fails or [abort] is
    reached, a call never returns (a read that blocks for good, a
    successful [execve]), or the model's loop bound is used up. *)
Inductive outcome :=
| Exit (status : Z)
| Abort
| NoReturn (c : call)
| OutOfFuel.

Record sys := {
  oracle : list reply;
  errno : Z;
  trace : list event
}.

Inductive res (A : Type) :=
| Val (a : A)
| Halt (o : outcome).
Arguments Val {A} a.
Arguments Halt {A} o.

Definition M (A : Type) : Type := sys -> res A * sys.

Definition ret {A} (a : A) : M A := fun s => (Val a, s).

Definition bind {A B} (m : M A) (k : A -> M B) : M B :=
  fun s => match m s with
           | (Val a, s') => k a s'
           | (Halt o, s') => (Halt o, s')
           end.

Notation "x <- m ;; k" := (bind m (fun x => k))
  (at level 61, m at next level, right associativity).
Notation "m ;;; k" := (bind m (fun _ => k))
  (at level 61, right associativity).

Definition halt {A} (o : outcome) : M A := fun s => (Halt o, s).

Definition exit_with {A} (status : Z) : M A := halt (Exit status).

Definition syscall (c : call) : M reply :=
  fun s => match oracle s with
           | [] => (Halt (NoReturn c), s)
           | r :: o =>
               (Val r, {| oracle := o;
                          errno := rerrno r;
                          trace := trace s ++ [Ev c r] |})
           end.

Definition fprintf (d : diag) : M unit :=
  fun s => (Val tt, {| oracle := oracle s;
                       errno := errno s;
                       trace := trace s ++ [Out d] |}).

Definition get_errno : M Z := fun s => (Val (errno s), s).

Definition set_errno (e : Z) : M unit :=
  fun s => (Val tt, {| oracle := oracle s; errno := e; trace := trace s |}).

Definition assert (b : bool) : M unit :=
  if b then ret tt else halt Abort.

(** The replies still to come bound the iterations of a loop that makes
    a call on every pass. *)
Definition loop_bound : M nat := fun s => (Val (S (List.length (oracle s))), s).

(** [getenv] of the C library: the value of the first entry that reads
    [name=value]. *)
Fixpoint after_name (name entry : string) : option string :=
  match name, entry with
  | EmptyString, String c v => if Ascii.eqb c "=" then Some v else None
  | String a n', String b e' =>
      if Ascii.eqb a b then after_name n' e' else None
  | _, EmptyString => None
  end.

Fixpoint getenv (name : string) (environ : list string) : option string :=
  match environ with
  | [] => None
  | e :: rest =>
      match after_name name e with
      | Some v => Some v
      | None => getenv name rest
      end
  end.

(** *** [main], part by part *)

(** Lines 98-131: the socket for [FASTCGI4J_UNIX_BIND]. *)
Definition unix_socket (baddr_un : string) (environ : list string) : M Z :=
  r <- syscall (Socket PF_UNIX) ;;
  let sock := rv r in
  if sock <? 0 then
    ec <- get_errno ;;
    fprintf (D_unix_socket ec) ;;;
    exit_with EXIT_FAILURE
  else
    let '(sun_path, truncated) := trunc_strncpy baddr_un SUN_PATH_SIZE in
    if truncated then
      fprintf (D_path_too_long baddr_un) ;;;
      exit_with EXIT_FAILURE
    else
      assert (is_nul (nth (SUN_PATH_SIZE - 1) sun_path NUL)) ;;;
      rb <- syscall (BindUn sock sun_path) ;;
      if rv rb <? 0 then
        ec <- get_errno ;;
        fprintf (D_bind_un ec baddr_un) ;;;
        exit_with EXIT_FAILURE
      else
        match getenv UNIX_PEER_VAR environ with
        | Some _ =>
            syscall (Chmod (string_of_buf sun_path) MODE_RWX_ALL) ;;;
            ret sock
        | None => ret sock
        end.

(** Lines 139-154: the split of the endpoint held in [buf] into [node]
    and [service]; [None] is the "port required" exit. *)
Definition split_endpoint (buf : list ascii)
  : option (option string * string) :=
  let col := strrchr buf ":" in
  let brac := strrchr buf "]" in
  let unsplit :=
    match brac with
    | Some _ =>
        if Ascii.eqb (nth 0 buf NUL) "[" then None
        else Some (None, string_of_buf buf)
    | None => Some (None, string_of_buf buf)
    end in
  match col with
  | None => unsplit
  | Some c =>
      if match brac with
         | Some b => (c <? b)%nat
         | None => false
         end
      then unsplit
      else
        let buf' := store buf c NUL in
        Some (Some (string_of_buf buf'), string_of_buf (skipn (S c) buf'))
  end.

(** Lines 177-192: the loop over the resolver's results.  The state is
    the three variables [sock], [mom] and [fam]. *)
Fixpoint try_candidates (ptr : list addrinfo) (sock mom fam : Z)
  : M (Z * Z * Z) :=
  match ptr with
  | [] => ret (sock, mom, fam)
  | ai :: ai_next =>
      let fam := to_sa_family (ai_family ai) in
      r <- syscall (Socket (ai_family ai)) ;;
      let sock := rv r in
      if sock <? 0 then
        try_candidates ai_next sock 1 fam
      else
        rb <- syscall (BindIn sock (ai_addr ai)) ;;
        if rv rb <? 0 then
          ec <- get_errno ;;
          syscall (Close sock) ;;;
          set_errno ec ;;;
          try_candidates ai_next (-1) 2 fam
        else
          ret (sock, mom, fam)
  end.

(** Lines 132-207: the socket for [FASTCGI4J_INET_BIND]. *)
Definition inet_socket (baddr_in : string) : M Z :=
  let '(buf, truncated) := trunc_strncpy baddr_in INET_BUF_SIZE in
  if truncated then
    fprintf (D_addr_too_long baddr_in) ;;;
    exit_with EXIT_FAILURE
  else
    match split_endpoint buf with
    | None =>
        fprintf (D_port_required baddr_in) ;;;
        exit_with EXIT_FAILURE
    | Some (node, service) =>
        r <- syscall (Getaddrinfo node service) ;;
        let hrc := rv r in
        let res := addrs r in
        if negb (hrc =? 0) then
          fprintf (D_gai hrc baddr_in) ;;;
          exit_with EXIT_FAILURE
        else
          match res with
          | [] =>
              fprintf (D_unknown_address baddr_in) ;;;
              exit_with EXIT_FAILURE
          | _ :: _ =>
              st <- try_candidates res (-1) 0 0 ;;
              let '(sock, mom, fam) := st in
              if sock <? 0 then
                ec <- get_errno ;;
                assert (negb (mom =? 0)) ;;;
                (if mom =? 1 then
                   fprintf (D_inet_socket
                              (if fam =? PF_INET then "PF_INET"
                               else "PF_INET6") ec)
                 else if mom =? 2 then
                   fprintf (D_bind_in ec baddr_in)
                 else ret tt) ;;;
                exit_with EXIT_FAILURE
              else ret sock
          end
    end.

(** Lines 292-304: the wait for the child after [SIGCHLD]. *)
Fixpoint reap (fuel : nat) (chid : Z) (baddr_un : string) : M Empty_set :=
  match fuel with
  | O => halt OutOfFuel
  | S fuel' =>
      r <- syscall (Waitpid chid WNOHANG) ;;
      let rc := rv r in
      if rc <? 0 then
        ec <- get_errno ;;
        if ec =? EINTR then reap fuel' chid baddr_un
        else
          fprintf (D_waitpid ec) ;;;
          exit_with EXIT_FAILURE
      else
        assert (rc =? chid) ;;;
        syscall (Remove baddr_un) ;;;
        exit_with (WEXITSTATUS (wstat r))
  end.

(** Lines 271-306: the parent's loop over the signal descriptor. *)
Fixpoint parent_loop (fuel : nat) (sigfd chid : Z) (baddr_un : string)
  : M Empty_set :=
  match fuel with
  | O => halt OutOfFuel
  | S fuel' =>
      r <- syscall (ReadSig sigfd) ;;
      let rc := rv r in
      if rc <? 0 then
        ec <- get_errno ;;
        fprintf (D_read_signal ec) ;;;
        syscall (Kill chid SIGTERM) ;;;
        exit_with EXIT_FAILURE
      else
        assert (rc =? SIGINFO_SIZE) ;;;
        let signo := ssi_signo r in
        if signo =? SIGTERM then
          syscall (Kill chid signo) ;;;
          parent_loop fuel' sigfd chid baddr_un
        else if (signo =? SIGINT) || (signo =? SIGHUP) then
          parent_loop fuel' sigfd chid baddr_un
        else if signo =? SIGCHLD then
          reap fuel' chid baddr_un
        else
          parent_loop fuel' sigfd chid baddr_un
  end.

Definition interest : list Z := [SIGINT; SIGTERM; SIGHUP; SIGCHLD].

(** Lines 233-308: in the parent this never falls through; the child
    ([fork] returned 0) goes on to the launch. *)
Definition supervise (baddr_un : string) (sock : Z) : M unit :=
  r <- syscall (Sigprocmask interest) ;;
  if rv r <? 0 then
    ec <- get_errno ;;
    fprintf (D_sigprocmask ec) ;;;
    exit_with EXIT_FAILURE
  else
    r <- syscall (Signalfd interest) ;;
    let sigfd := rv r in
    if sigfd <? 0 then
      ec <- get_errno ;;
      fprintf (D_signalfd ec) ;;;
      exit_with EXIT_FAILURE
    else
      r <- syscall Fork ;;
      let chid := rv r in
      if chid <? 0 then
        ec <- get_errno ;;
        fprintf (D_fork ec) ;;;
        exit_with EXIT_FAILURE
      else if negb (chid =? 0) then
        syscall (Close sock) ;;;
        fuel <- loop_bound ;;
        e <- parent_loop fuel sigfd chid baddr_un ;;
        match e : Empty_set with end
      else ret tt.

(** Lines 310-337: the filtered environment and [execve]. *)
Definition launch (argv environ : list string) : M Empty_set :=
  let envp := copy_env environ in
  r <- syscall (Execve (nth_error argv 1) (tl argv) envp) ;;
  if rv r <? 0 then
    ec <- get_errno ;;
    fprintf (D_exec ec (tl argv)) ;;;
    exit_with EXIT_FAILURE
  else halt Abort.

Definition main (argv environ : list string) : M Empty_set :=
  let baddr_un := getenv UNIX_BIND_VAR environ in
  let baddr_in := getenv INET_BIND_VAR environ in
  sock <- match baddr_un with
          | Some un => unix_socket un environ
          | None =>
              match baddr_in with
              | Some inet => inet_socket inet
              | None =>
                  fprintf D_must_specify ;;;
                  exit_with EXIT_FAILURE
              end
          end ;;
  r <- syscall (Listen sock 5) ;;
  if rv r <? 0 then
    ec <- get_errno ;;
    fprintf (D_listen ec) ;;;
    exit_with EXIT_FAILURE
  else
    sock <- (if negb (sock =? 0) then
               r <- syscall (Dup2 sock 0) ;;
               if rv r <? 0 then
                 ec <- get_errno ;;
                 fprintf (D_dup2 ec) ;;;
                 exit_with EXIT_FAILURE
               else
                 syscall (Close sock) ;;;
                 ret 0
             else ret sock) ;;
    match baddr_un with
    | Some un => supervise un sock
    | None => ret tt
    end ;;;
    launch argv environ.

(** A run of [main] against the replies in [o]. *)
Definition start (o : list reply) : sys :=
  {| oracle := o; errno := 0; trace := [] |}.

Definition run_main (argv environ : list string) (o : list reply)
  : outcome * list event :=
  match main argv environ (start o) with
  | (Halt out, s) => (out, trace s)
  | (Val e, _) => match e : Empty_set with end
  end.

(** A reply that carries only a return value and an [errno]. *)
Definition answer (v e : Z) : reply :=
  {| rv := v; rerrno := e; ssi_signo := 0; wstat := 0; addrs := [] |}.

Definition signal_read (signo : Z) : reply :=
  {| rv := SIGINFO_SIZE; rerrno := 0; ssi_signo := signo; wstat := 0;
     addrs := [] |}.

Definition waited (pid stat : Z) : reply :=
  {| rv := pid; rerrno := 0; ssi_signo := 0; wstat := stat; addrs := [] |}.

Definition resolved (res : list addrinfo) : reply :=
  {| rv := 0; rerrno := 0; ssi_signo := 0; wstat := 0; addrs := res |}.

(** *** Vocabulary of the statements *)

(** [lacks ch s]: the character [ch] does not occur in [s]. *)
Fixpoint lacks (ch : ascii) (s : string) : bool :=
  match s with
  | EmptyString => true
  | String c s' => negb (Ascii.eqb c ch) && lacks ch s'
  end.

(** An environment entry for the variable [name]. *)
Definition entry (name value : string) : string :=
  (name ++ String "=" value)%string.

(** The removal of a path, and a wait that reported the process it was
    asked about. *)
Definition is_remove (e : event) : bool :=
  match e with
  | Ev (Remove _) _ => true
  | _ => false
  end.

Definition is_reaped (e : event) : bool :=
  match e with
  | Ev (Waitpid pid _) r => (0 <=? rv r) && (rv r =? pid)
  | _ => false
  end.

Definition quiet (e : event) : bool :=
  negb (is_remove e) && negb (is_reaped e).

Definition count (p : event -> bool) (t : list event) : nat :=
  List.length (filter p t).

(** The shapes a trace, or a stretch of one, may have: no reap and no
    removal; or these followed by the one wait that reported the child; or
    that wait followed at once by the one removal. *)
Inductive reap_shape : list event -> Prop :=
| shape_waiting q :
    Forall (fun e => quiet e = true) q ->
    reap_shape q
| shape_reaped q chid rw :
    Forall (fun e => quiet e = true) q ->
    rv rw = chid -> 0 <= rv rw ->
    reap_shape (q ++ [Ev (Waitpid chid WNOHANG) rw])
| shape_removed q chid rw path rr :
    Forall (fun e => quiet e = true) q ->
    rv rw = chid -> 0 <= rv rw ->
    reap_shape (q ++ [Ev (Waitpid chid WNOHANG) rw; Ev (Remove path) rr]).

(** A computation is orderly when what it adds to the trace is free of
    reaps and removals as long as it goes on, and has one of the three
    shapes when it ends the run. *)
Definition orderly {A} (m : M A) : Prop :=
  forall s, exists t,
    trace (snd (m s)) = trace s ++ t
    /\ match fst (m s) with
       | Val _ => Forall (fun e => quiet e = true) t
       | Halt _ => reap_shape t
       end.

(** A computation that is never ended by the bound of a loop. *)
Definition bounded {A} (m : M A) : Prop :=
  forall s, fst (m s) <> Halt OutOfFuel.

(** Lines 135-154 as one function: what becomes of the endpoint. *)
Inductive parsed :=
| TooLong
| PortRequired
| Split (node : option string) (service : string).

Definition parse_endpoint (baddr_in : string) : parsed :=
  let '(buf, truncated) := trunc_strncpy baddr_in INET_BUF_SIZE in
  if truncated then TooLong
  else match split_endpoint buf with
       | None => PortRequired
       | Some (node, service) => Split node service
       end.

(** A host name of 253 bytes, the longest the domain name system allows,
    with a service. *)
Definition long_endpoint : string :=
  "a.a.a.a.a.a.a.a.a.a.a.a.a.a.a.a.a.a.a.a.a.a.a.a.a.a.a.a.a.a.a.a.a.a.a.a.a.a.a.a.a.a.a.a.a.a.a.a.a.a.a.a.a.a.a.a.a.a.a.a.a.a.a.a.a.a.a.a.a.a.a.a.a.a.a.a.a.a.a.a.a.a.a.a.a.a.a.a.a.a.a.a.a.a.a.a.a.a.a.a.a.a.a.a.a.a.a.a.a.a.a.a.a.a.a.a.a.a.a.a.a.a.a.a.a.a.a:80".

(** A path of 109 characters. *)
Definition long_path : string :=
  "/tmp/aaaaaaaaaaaaaaaaaaaaaaaaaaaaaaaaaaaaaaaaaaaaaaaaaaaaaaaaaaaaaaaaaaaaaaaaaaaaaaaaaaaaaaaaaaaaaaaaaaaaaaaa".

(** The diagnostics of a trace. *)
Definition diagnostics (t : list event) : list diag :=
  flat_map (fun e => match e with Out d => [d] | Ev _ _ => [] end) t.

(** What the system answers for one candidate address: [socket] fails;
    or [socket] succeeds, [bind] fails and the descriptor is closed; or
    both succeed. *)
Inductive attempt :=
| SocketFails (r : reply)
| BindFails (r rb rc : reply)
| Bound (r rb : reply).

Definition consistent (a : attempt) : Prop :=
  match a with
  | SocketFails r => rv r < 0
  | BindFails r rb _ => 0 <= rv r /\ rv rb < 0
  | Bound r rb => 0 <= rv r /\ 0 <= rv rb
  end.

Definition failed (a : attempt) : Prop :=
  match a with
  | Bound _ _ => False
  | _ => consistent a
  end.

Definition replies_of (a : attempt) : list reply :=
  match a with
  | SocketFails r => [r]
  | BindFails r rb rc => [r; rb; rc]
  | Bound r rb => [r; rb]
  end.

(** The calls expected for one candidate: [socket], then [bind] on the
    new descriptor, then [close] when [bind] failed. *)
Definition events_of (ai : addrinfo) (a : attempt) : list event :=
  match a with
  | SocketFails r => [Ev (Socket (ai_family ai)) r]
  | BindFails r rb rc =>
      [Ev (Socket (ai_family ai)) r;
       Ev (BindIn (rv r) (ai_addr ai)) rb;
       Ev (Close (rv r)) rc]
  | Bound r rb =>
      [Ev (Socket (ai_family ai)) r;
       Ev (BindIn (rv r) (ai_addr ai)) rb]
  end.

Definition all_replies (tries : list (addrinfo * attempt)) : list reply :=
  flat_map (fun p => replies_of (snd p)) tries.

Definition all_events (tries : list (addrinfo * attempt)) : list event :=
  flat_map (fun p => events_of (fst p) (snd p)) tries.

(** The error code of the call that decided an attempt. *)
Definition errno_of (a : attempt) : Z :=
  match a with
  | SocketFails r => rerrno r
  | BindFails _ rb _ => rerrno rb
  | Bound _ rb => rerrno rb
  end.

(** The variables [sock] and [mom] after a failed attempt. *)
Definition sock_after (a : attempt) : Z :=
  match a with
  | SocketFails r => rv r
  | BindFails _ _ _ => -1
  | Bound r _ => rv r
  end.

Definition mom_after (a : attempt) : Z :=
  match a with
  | SocketFails _ => 1
  | BindFails _ _ _ => 2
  | Bound _ _ => 0
  end.

(** *** Vocabulary of further statements *)

(** What the parent's loop is given for one signal other than [SIGCHLD]:
    the reply of the read and, for [SIGTERM], the reply of the [kill]
    that passes it on. *)
Definition delivery_replies (d : reply * reply) : list reply :=
  if ssi_signo (fst d) =? SIGTERM then [fst d; snd d] else [fst d].

Definition delivery_events (sigfd chid : Z) (d : reply * reply)
  : list event :=
  Ev (ReadSig sigfd) (fst d)
  :: (if ssi_signo (fst d) =? SIGTERM
      then [Ev (Kill chid SIGTERM) (snd d)]
      else []).

Definition delivered (d : reply * reply) : Prop :=
  rv (fst d) = SIGINFO_SIZE /\ ssi_signo (fst d) <> SIGCHLD.

(** A wait that was interrupted. *)
Definition interrupted (r : reply) : Prop :=
  rv r < 0 /\ rerrno r = EINTR.

(** [initial_part n s]: the string [s] begins with [n]. *)
Fixpoint initial_part (n s : string) : bool :=
  match n with
  | EmptyString => true
  | String c n' =>
      match s with
      | EmptyString => false
      | String d s' => Ascii.eqb c d && initial_part n' s'
      end
  end.


(** A computation whose calls, those that returned and the one that did
    not, all satisfy [ok]. *)
Definition ok_event (ok : call -> Prop) (e : event) : Prop :=
  match e with
  | Ev c _ => ok c
  | Out _ => True
  end.

Definition confined {A} (ok : call -> Prop) (m : M A) : Prop :=
  forall s, exists t,
    trace (snd (m s)) = trace s ++ t
    /\ Forall (ok_event ok) t
    /\ forall c, fst (m s) = Halt (NoReturn c) -> ok c.

(** The calls of the network-endpoint mode. *)
Definition network_call (c : call) : Prop :=
  match c with
  | Getaddrinfo _ _ | Socket _ | BindIn _ _ | Close _ | Listen _ _
  | Dup2 _ _ | Execve _ _ _ => True
  | _ => False
  end.

(** The calls of a run for the endpoint resolved by the reply [rg]: no
    further resolution, and sockets and binds only for the candidates of
    a resolution that succeeded. *)
Definition resolved_call (rg : reply) (c : call) : Prop :=
  match c with
  | Getaddrinfo _ _ => False
  | Socket d => rv rg = 0 /\ In d (map ai_family (addrs rg))
  | BindIn _ a => rv rg = 0 /\ In a (map ai_addr (addrs rg))
  | _ => True
  end.

(** The calls of the filesystem-path mode for the path [p], with the
    arguments they may have. *)
Definition path_call (p : string) (c : call) : Prop :=
  match c with
  | Socket d => d = PF_UNIX
  | BindUn _ b => b = strncpy p SUN_PATH_SIZE
  | Chmod q m => q = cstr p /\ m = MODE_RWX_ALL
  | Remove q => q = p
  | Kill _ sig => sig = SIGTERM
  | Waitpid _ options => options = WNOHANG
  | Sigprocmask set | Signalfd set => set = interest
  | Getaddrinfo _ _ | BindIn _ _ => False
  | _ => True
  end.

(** The calls both modes end with. *)
Definition launch_call (argv environ : list string) (c : call) : Prop :=
  match c with
  | Listen _ backlog => backlog = 5
  | Dup2 _ newfd => newfd = 0
  | Execve path args envp =>
      path = nth_error argv 1 /\ args = tl argv /\ envp = copy_env environ
  | _ => True
  end.


(** The trace shows a socket that listens and sits on descriptor 0: a
    [listen] succeeded, on descriptor 0 or on a descriptor that a
    successful [dup2] then copied to 0. *)
Definition listening (t : list event) : Prop :=
  exists sock rl,
    In (Ev (Listen sock 5) rl) t /\ 0 <= rv rl
    /\ (sock = 0
        \/ exists rd, In (Ev (Dup2 sock 0) rd) t /\ 0 <= rv rd).

Definition no_fork (t : list event) : Prop :=
  forall r, ~ In (Ev Fork r) t.

(** The trace ends with the two calls that let the parent see signals,
    both successful, after the socket was made ready and with no [fork]
    so far. *)
Definition armed (t : list event) : Prop :=
  exists t0 r1 r2,
    t = t0 ++ [Ev (Sigprocmask interest) r1; Ev (Signalfd interest) r2]
    /\ 0 <= rv r1 /\ 0 <= rv r2 /\ listening t0 /\ no_fork t0.

(** Every [fork] the trace shows returned 0: the process is not a
    supervising parent. *)
Definition not_parent (t : list event) : Prop :=
  forall r, In (Ev Fork r) t -> rv r = 0.

(** What the trace must show when a call is made. *)
Definition permitted (c : call) (t : list event) : Prop :=
  match c with
  | Fork => armed t
  | Execve _ _ _ => listening t /\ not_parent t
  | _ => True
  end.

Definition disciplined (t : list event) : Prop :=
  forall t1 c r t2, t = t1 ++ Ev c r :: t2 -> permitted c t1.

(** From a trace satisfying [P], the computation keeps the discipline,
    makes only permitted calls, and leaves a trace satisfying [Q]. *)
Definition triple {A} (P : list event -> Prop) (m : M A)
           (Q : A -> list event -> Prop) : Prop :=
  forall s,
    P (trace s) -> disciplined (trace s) ->
    disciplined (trace (snd (m s)))
    /\ match fst (m s) with
       | Val a => Q a (trace (snd (m s)))
       | Halt (NoReturn c) => permitted c (trace (snd (m s)))
       | Halt _ => True
       end.

(** Calls that need no permission. *)
Definition plain_call (c : call) : Prop :=
  match c with
  | Fork | Execve _ _ _ => False
  | _ => True
  end.

(** A property of traces that further plain calls and diagnostics do not
    undo. *)
Definition stable (P : list event -> Prop) : Prop :=
  forall t t', P t -> Forall (ok_event plain_call) t' -> P (t ++ t').




End Bindwrap.

(** ** native.c *)

Module Native.

(** What [send] or [recv] gives back: the return value, [errno], and for
    [recv] the octet (0..255) stored in the one-byte buffer. *)
Record io_reply := { rc : Z; ec : Z; octet : Z }.

Inductive io_event :=
| Send (fd nb : Z) (r : io_reply)
| Recv (fd : Z) (r : io_reply)
| Throw (errnum : Z).

(** Integer conversions of C.  Whether plain [char] is signed is the
    compiler's choice: it is on x86 and x86-64, it is not on ARM. *)
Definition to_char (char_signed : bool) (v : Z) : Z :=
  let o := v mod 256 in
  if char_signed && (128 <=? o) then o - 256 else o.

Definition to_unsigned (v : Z) : Z := v mod 2 ^ 32.

Definition to_jint (v : Z) : Z :=
  let u := v mod 2 ^ 32 in
  if u <? 2 ^ 31 then u else u - 2 ^ 32.

(** [throwErrno(env, ec)]: an [IOException] becomes pending; the native
    code goes on. *)
Definition throwErrno (errnum : Z) : list io_event := [Throw errnum].

(** How one pass through a loop body ends. *)
Inductive control :=
| Continue
| Return.

(** How a call of a native method stands once the replies are used up. *)
Inductive status :=
| Returned
| Sending.

(** The body of the [for ( ; ; )] of [writeSocket(int, int)]: one
    [send], and [throwErrno] when it fails.  There is no [return] and no
    [break]. *)
Definition writeSocket_body (fd nb : Z) (r : io_reply)
  : list io_event * control :=
  (Send fd nb r :: (if rc r <? 0 then throwErrno (ec r) else []), Continue).

(** [writeSocket(int, int)] against the replies of [send] in [world];
    [Sending] when the loop is about to call [send] again. *)
Fixpoint writeSocket_loop (fd nb : Z) (world : list io_reply)
  : list io_event * status :=
  match world with
  | [] => ([], Sending)
  | r :: world' =>
      match writeSocket_body fd nb r with
      | (evs, Continue) =>
          let '(evs', st) := writeSocket_loop fd nb world' in
          (evs ++ evs', st)
      | (evs, Return) => (evs, Returned)
      end
  end.

Definition writeSocket__II (char_signed : bool) (fd b : Z)
           (world : list io_reply) : list io_event * status :=
  let nb := to_char char_signed b in
  writeSocket_loop fd nb world.

(** [readSocket(int)]: the returned [jint] and the events. *)
Definition readSocket__I (char_signed : bool) (fd : Z) (r : io_reply)
  : Z * list io_event :=
  let b := to_char char_signed (octet r) in
  if rc r <? 0 then (-1, Recv fd r :: throwErrno (ec r))
  else if rc r =? 0 then (-1, [Recv fd r])
  else (to_jint (to_unsigned b), [Recv fd r]).

Definition count_sends (evs : list io_event) : nat :=
  List.length (filter (fun e => match e with Send _ _ _ => true | _ => false end)
                      evs).

(** What the write loop is to leave behind for one reply of [send]. *)
Definition sent (fd nb : Z) (r : io_reply) : list io_event :=
  Send fd nb r :: (if rc r <? 0 then [Throw (ec r)] else []).

(** *** The array methods *)

(** What [send], [recv], [accept] or [getsockname] gives back: the return
    value, [errno], the length stored through the length pointer, and the
    octets the buffer holds after the call. *)
Record buf_reply := { b_rc : Z; b_ec : Z; b_len : Z; b_bytes : list Z }.

Inductive bulk_event :=
| SendBuf (fd : Z) (chunk : list Z) (r : io_reply)
| RecvBuf (fd len : Z) (r : buf_reply)
| AcceptCall (fd len : Z) (r : buf_reply)
| Getsockname (fd len : Z) (r : buf_reply)
| Raise (errnum : Z).

(** A [char] converted to [jbyte], a signed 8-bit integer. *)
Definition to_jbyte (v : Z) : Z :=
  let o := v mod 256 in
  if 128 <=? o then o - 256 else o.

(** [l[i] = v] on a Java array held as a list.  A store outside the array
    is undefined in C; here it leaves the list as it is. *)
Fixpoint upd_nat (l : list Z) (i : nat) (v : Z) : list Z :=
  match l, i with
  | [], _ => []
  | _ :: r, O => v :: r
  | x :: r, S j => x :: upd_nat r j v
  end.

Definition upd (l : list Z) (i : Z) (v : Z) : list Z :=
  if i <? 0 then l else upd_nat l (Z.to_nat i) v.

(** [for (i = ...; i < ...; i++) dst[i + off] = src[i];] with [n] passes
    left, every element converted by [conv]. *)
Fixpoint copy_bytes (conv : Z -> Z) (src dst : list Z) (off : Z)
         (i n : nat) : list Z :=
  match n with
  | O => dst
  | S n' =>
      copy_bytes conv src
                 (upd dst (Z.of_nat i + off) (conv (nth i src 0)))
                 off (S i) n'
  end.

(** [for (i = ...; i < ...; i++) buf[i] = src[i + off];]: the octets
    stored in [buf], with [n] passes left.  A read outside the array is
    undefined in C; here it gives 0. *)
Fixpoint gather (src : list Z) (off : Z) (i n : nat) : list Z :=
  match n with
  | O => []
  | S n' =>
      nth (Z.to_nat (Z.of_nat i + off)) src 0 mod 256
      :: gather src off (S i) n'
  end.

(** The [while (len > 0)] of [writeSocket(int, byte[], int, int)].  [ptr]
    is held as the octets from the pointer to the end of [buf]. *)
Fixpoint send_all (fd : Z) (ptr : list Z) (len : Z) (world : list io_reply)
  : list bulk_event * status :=
  if 0 <? len then
    match world with
    | [] => ([], Sending)
    | r :: world' =>
        let ev := SendBuf fd (firstn (Z.to_nat len) ptr) r in
        if rc r <? 0 then ([ev; Raise (ec r)], Returned)
        else
          let '(evs, st) :=
            send_all fd (skipn (Z.to_nat (rc r)) ptr) (len - rc r) world' in
          (ev :: evs, st)
    end
  else ([], Returned).

Definition writeSocket__I_3BII (fd : Z) (b : list Z) (off len : Z)
           (world : list io_reply) : list bulk_event * status :=
  let buf := gather b off 0 (Z.to_nat len) in
  send_all fd buf len world.

(** [readSocket(int, byte[], int, int)]: the returned [jint], the array
    [b] afterwards, and the events.  [buf] is [char buf[len]]: it has room
    for [len] octets and no more, so of what the reply carries only the
    first [len] octets are in it.  A read of [buf[i]] with [i >= len], as
    the copy loop makes when [recv] reports more than [len] octets, and
    the declaration of [buf] with a negative [len], are undefined in C;
    here such a read gives 0. *)
Definition readSocket__I_3BII (char_signed : bool) (fd : Z) (b : list Z)
           (off len : Z) (r : buf_reply) : Z * list Z * list bulk_event :=
  let buf := firstn (Z.to_nat len) (b_bytes r) in
  if b_rc r <? 0 then (-1, b, [RecvBuf fd len r; Raise (b_ec r)])
  else if b_rc r =? 0 then (-1, b, [RecvBuf fd len r])
  else
    (to_jint (b_rc r),
     copy_bytes (fun o => to_jbyte (to_char char_signed o))
                buf b off 0 (Z.to_nat (b_rc r)),
     [RecvBuf fd len r]).

(** Sizes of the socket address structures on Linux. *)
Definition SIZEOF_SOCKADDR : Z := 16.
Definition SIZEOF_SOCKADDR_IN : Z := 16.
Definition SIZEOF_SOCKADDR_IN6 : Z := 28.
Definition SIZEOF_SOCKADDR_UN : Z := 110.
Definition ENOTSOCK : Z := 88.

Definition MAX (a b : Z) : Z := if a >? b then a else b.

(** [MAX_SOCKADDR_LEN] for given sizes of the four structures. *)
Definition max_sockaddr_len (sa sin sin6 sun : Z) : Z :=
  MAX sa (MAX sin (MAX sin6 sun)).

Definition MAX_SOCKADDR_LEN : Z :=
  max_sockaddr_len SIZEOF_SOCKADDR SIZEOF_SOCKADDR_IN SIZEOF_SOCKADDR_IN6
                   SIZEOF_SOCKADDR_UN.

Definition getAddressSize : Z := MAX_SOCKADDR_LEN.

(** [copy_back_addr(env, ulen, ubuf, ptr, addrlen)]: the two arrays
    afterwards. *)
Definition copy_back_addr (char_signed : bool) (ulen ubuf ptr : list Z)
           (addrlen : Z) : list Z * list Z :=
  (upd ulen 0 (to_jint addrlen),
   copy_bytes (fun o => to_jbyte (to_char char_signed o))
              ptr ubuf 0 0 (Z.to_nat addrlen)).

(** [acceptConnection]: the returned [jint], [ulen] and [ubuf] afterwards,
    and the events. *)
Definition acceptConnection (char_signed : bool) (fd : Z) (ulen ubuf : list Z)
           (r : buf_reply) : Z * (list Z * list Z) * list bulk_event :=
  let ev := AcceptCall fd MAX_SOCKADDR_LEN r in
  if b_rc r <? 0 then (-1, (ulen, ubuf), [ev; Raise (b_ec r)])
  else
    (to_jint (b_rc r),
     copy_back_addr char_signed ulen ubuf (b_bytes r) (b_len r),
     [ev]).

(** [checkDescriptor]: [r1] answers the first [getsockname], [r2] the
    second one when it is made. *)
Definition checkDescriptor (char_signed : bool) (ulen ubuf : list Z)
           (r1 r2 : buf_reply) : Z * (list Z * list Z) * list bulk_event :=
  let fd := 0 in
  let ev1 := Getsockname fd SIZEOF_SOCKADDR r1 in
  if b_rc r1 <? 0 then
    if b_ec r1 =? ENOTSOCK then (-1, (ulen, ubuf), [ev1])
    else (-1, (ulen, ubuf), [ev1; Raise (b_ec r1)])
  else
    let addrlen := b_len r1 in
    if addrlen <=? SIZEOF_SOCKADDR then
      (fd, copy_back_addr char_signed ulen ubuf (b_bytes r1) addrlen, [ev1])
    else
      let ev2 := Getsockname fd addrlen r2 in
      if b_rc r2 <? 0 then (-1, (ulen, ubuf), [ev1; ev2; Raise (b_ec r2)])
      else
        (fd, copy_back_addr char_signed ulen ubuf (b_bytes r2) (b_len r2),
         [ev1; ev2]).

(** [strnlen(buf, n)]. *)
Fixpoint strnlen (buf : list ascii) (n : nat) : nat :=
  match n, buf with
  | S n', c :: r => if is_nul c then O else S (strnlen r n')
  | _, _ => O
  end.

(** The [n] characters [strncpy(dest, src, n)] writes when the source is
    a buffer. *)
Fixpoint strncpy_buf (src : list ascii) (n : nat) : list ascii :=
  match n with
  | O => []
  | S n' =>
      match src with
      | [] => NUL :: strncpy_buf [] n'
      | c :: r =>
          if is_nul c then NUL :: strncpy_buf [] n'
          else c :: strncpy_buf r n'
      end
  end.

(** The [AF_UNIX] case of [getSocketAddress], lines 211-216: the C string
    handed to [NewStringUTF].  [cpy] is what the array [cpy] holds before,
    [sun_path] the field [u.un.sun_path]. *)
Definition unix_path (sun_path cpy : list ascii) : string :=
  let len := strnlen sun_path Bindwrap.SUN_PATH_SIZE in
  let cpy := strncpy_buf sun_path len ++ skipn len cpy in
  let cpy := store cpy len NUL in
  string_of_buf cpy.

(** The octets a [send] took from the chunk it was given. *)
Definition accepted (evs : list bulk_event) : list Z :=
  flat_map (fun e => match e with
                     | SendBuf _ chunk r => firstn (Z.to_nat (rc r)) chunk
                     | _ => []
                     end) evs.

Definition raises (evs : list bulk_event) : nat :=
  List.length (filter (fun e => match e with Raise _ => true | _ => false end)
                      evs).

Definition probes (evs : list bulk_event) : list Z :=
  flat_map (fun e => match e with
                     | Getsockname fd _ _ => [fd]
                     | _ => []
                     end) evs.

End Native.

(** * Properties *)

(** ** The socket bridge *)

Module NativeFacts.
Import Native.

Lemma writeSocket_body_continues (fd nb : Z) (r : io_reply) :
  writeSocket_body fd nb r = (sent fd nb r, Continue).
Proof. reflexivity. Qed.

Lemma writeSocket_loop_events (fd nb : Z) (world : list io_reply) :
  writeSocket_loop fd nb world = (flat_map (sent fd nb) world, Sending).
Proof.
  induction world as [|r world IH]; [reflexivity|].
  cbn [writeSocket_loop flat_map].
  rewrite writeSocket_body_continues, IH. reflexivity.
Qed.

Lemma count_sends_app (a b : list io_event) :
  count_sends (a ++ b) = (count_sends a + count_sends b)%nat.
Proof.
  unfold count_sends. rewrite filter_app, length_app. reflexivity.
Qed.

Lemma count_sends_sent (fd nb : Z) (r : io_reply) :
  count_sends (sent fd nb r) = 1%nat.
Proof. unfold sent. destruct (rc r <? 0); reflexivity. Qed.

(** C9: the single-byte write never returns.  Whatever the replies of
    [send] are, successes included, the loop sends once for every reply
    and then stands before the next [send]; nothing but a failed [send]
    leaves a trace besides the sends themselves. *)
Theorem writeSocket_single_byte_never_returns :
  forall (char_signed : bool) (fd b : Z) (world : list io_reply),
    snd (writeSocket__II char_signed fd b world) = Sending
    /\ fst (writeSocket__II char_signed fd b world)
       = flat_map (sent fd (to_char char_signed b)) world
    /\ count_sends (fst (writeSocket__II char_signed fd b world))
       = List.length world.
Proof.
  intros cs fd b world. unfold writeSocket__II.
  rewrite writeSocket_loop_events. cbn [fst snd].
  repeat split.
  induction world as [|r world IH]; [reflexivity|].
  cbn [flat_map]. rewrite count_sends_app, count_sends_sent, IH.
  reflexivity.
Qed.

(** A successful send is followed by another send. *)
Example writeSocket_sends_again :
  writeSocket__II true 0 65
    [ {| rc := 1; ec := 0; octet := 0 |};
      {| rc := 1; ec := 0; octet := 0 |} ]
  = ([ Send 0 65 {| rc := 1; ec := 0; octet := 0 |};
       Send 0 65 {| rc := 1; ec := 0; octet := 0 |} ], Sending).
Proof. reflexivity. Qed.

(** The single-byte read where plain [char] is unsigned. *)
Lemma readSocket_unsigned_char (fd : Z) (r : io_reply) :
  0 < rc r -> 0 <= octet r <= 255 ->
  fst (readSocket__I false fd r) = octet r.
Proof.
  intros Hrc Ho. unfold readSocket__I, to_char, to_jint, to_unsigned.
  destruct (Z.ltb_spec (rc r) 0); [lia|].
  destruct (Z.eqb_spec (rc r) 0); [lia|].
  cbn [andb fst].
  rewrite (Z.mod_small (octet r) 256) by lia.
  change (2 ^ 32) with 4294967296. change (2 ^ 31) with 2147483648.
  rewrite !(Z.mod_small (octet r) 4294967296) by lia.
  destruct (Z.ltb_spec (octet r) 2147483648); lia.
Qed.

(** The single-byte read where plain [char] is signed: the octet comes
    back sign-extended. *)
Lemma readSocket_signed_char (fd : Z) (r : io_reply) :
  0 < rc r -> 0 <= octet r <= 255 ->
  fst (readSocket__I true fd r)
  = if octet r <? 128 then octet r else octet r - 256.
Proof.
  intros Hrc Ho. unfold readSocket__I, to_char, to_jint, to_unsigned.
  destruct (Z.ltb_spec (rc r) 0); [lia|].
  destruct (Z.eqb_spec (rc r) 0); [lia|].
  cbn [andb fst].
  rewrite (Z.mod_small (octet r) 256) by lia.
  change (2 ^ 32) with 4294967296. change (2 ^ 31) with 2147483648.
  destruct (Z.leb_spec 128 (octet r)); destruct (Z.ltb_spec (octet r) 128);
    try lia.
  - replace ((octet r - 256) mod 4294967296) with (octet r - 256 + 4294967296).
    + rewrite Z.mod_small by lia.
      destruct (Z.ltb_spec (octet r - 256 + 4294967296) 2147483648); lia.
    + apply Z.mod_unique with (q := -1); lia.
  - rewrite !(Z.mod_small (octet r) 4294967296) by lia.
    destruct (Z.ltb_spec (octet r) 2147483648); lia.
Qed.

(** C10: with a signed plain [char] the octet 255 read from the
    connection comes back as -1, the value that stands for the end of
    the connection, and the octet 128 comes back as -128; no exception
    is raised in either case. *)
Theorem readSocket_single_byte_high_octets :
  readSocket__I true 0 {| rc := 1; ec := 0; octet := 255 |}
  = (-1, [Recv 0 {| rc := 1; ec := 0; octet := 255 |}])
  /\ readSocket__I true 0 {| rc := 0; ec := 0; octet := 0 |}
     = (-1, [Recv 0 {| rc := 0; ec := 0; octet := 0 |}])
  /\ readSocket__I true 0 {| rc := 1; ec := 0; octet := 128 |}
     = (-128, [Recv 0 {| rc := 1; ec := 0; octet := 128 |}]).
Proof. repeat split. Qed.

End NativeFacts.

(** ** The bind wrapper *)

Module BindwrapFacts.
Import Bindwrap.

(** *** The environment filter *)

(** [match_var] accepts every entry whose name is an initial part of the
    variable name, the empty name and the whole name included. *)
Lemma match_var_initial_part (n rest v : string) :
  lacks "=" n = true -> lacks NUL n = true ->
  match_var (n ++ rest) (entry n v) = true.
Proof.
  unfold entry. induction n as [|c n IH]; intros Heq Hnul.
  - cbn. destruct rest as [|a rest']; [reflexivity|].
    cbn. rewrite !andb_false_r. reflexivity.
  - cbn in Heq, Hnul. apply andb_true_iff in Heq as [Hc Heq].
    apply andb_true_iff in Hnul as [Hc0 Hnul].
    cbn [append match_var]. unfold is_nul.
    rewrite Ascii.eqb_refl, Hc, Hc0. cbn [andb]. apply IH; assumption.
Qed.

Lemma match_var_needs_equals (vname e : string) :
  lacks "=" e = true -> match_var vname e = false.
Proof.
  revert vname. induction e as [|b e IH]; intros vname H.
  - destruct vname; reflexivity.
  - cbn in H. apply andb_true_iff in H as [Hb He].
    apply negb_true_iff in Hb.
    destruct vname as [|a v']; cbn [match_var]; [exact Hb|].
    rewrite Hb. destruct (_ && _); [apply IH; exact He | reflexivity].
Qed.

Lemma copy_env_app (e1 e2 : list string) :
  copy_env (e1 ++ e2) = copy_env e1 ++ copy_env e2.
Proof.
  induction e1 as [|p e1 IH]; [reflexivity|].
  cbn [app copy_env].
  destruct (match_var UNIX_BIND_VAR p); [exact IH|].
  destruct (match_var INET_BIND_VAR p); [exact IH|].
  cbn [app]. rewrite IH. reflexivity.
Qed.

(** Nothing is added or changed by the copy. *)
Lemma copy_env_incl (environ : list string) (e : string) :
  In e (copy_env environ) -> In e environ.
Proof.
  induction environ as [|p rest IH]; [trivial|].
  cbn [copy_env].
  destruct (match_var UNIX_BIND_VAR p); [right; auto|].
  destruct (match_var INET_BIND_VAR p); [right; auto|].
  intros [H|H]; [left; exact H | right; auto].
Qed.

(** An entry stays exactly when [match_var] reports it for neither
    variable. *)
Lemma copy_env_In (environ : list string) (e : string) :
  In e (copy_env environ) <->
  In e environ /\ match_var UNIX_BIND_VAR e = false
  /\ match_var INET_BIND_VAR e = false.
Proof.
  induction environ as [|p rest IH]; [cbn; tauto|].
  cbn [copy_env In].
  destruct (match_var UNIX_BIND_VAR p) eqn:Hu.
  - rewrite IH. split; [tauto|].
    intros [[->|H] [H1 H2]]; [congruence | tauto].
  - destruct (match_var INET_BIND_VAR p) eqn:Hi.
    + rewrite IH. split; [tauto|].
      intros [[->|H] [H1 H2]]; [congruence | tauto].
    + cbn [In]. rewrite IH. split.
      * intros [->|H]; tauto.
      * tauto.
Qed.

(** The two bind variables never reach the worker. *)
Lemma copy_env_without_bind_vars (environ : list string) (v : string) :
  ~ In (entry UNIX_BIND_VAR v) (copy_env environ)
  /\ ~ In (entry INET_BIND_VAR v) (copy_env environ).
Proof.
  split; intros H; apply copy_env_In in H as (_ & Hu & Hi).
  - pose proof (match_var_initial_part UNIX_BIND_VAR "" v eq_refl eq_refl) as M.
    cbn in M. cbn in Hu. congruence.
  - pose proof (match_var_initial_part INET_BIND_VAR "" v eq_refl eq_refl) as M.
    cbn in M. cbn in Hi. congruence.
Qed.

(** C4: the copy drops more than the two bind variables.  An entry whose
    name is an initial part of a bind variable's name ([F], [FASTCGI4J])
    is dropped as well, so the worker started for the endpoint [8080]
    does not receive [F=1]. *)
Theorem copy_env_drops_other_variables :
  copy_env ["PATH=/bin"; "F=1"; "FASTCGI4J=on"] = ["PATH=/bin"]
  /\ getenv UNIX_BIND_VAR ["PATH=/bin"; "F=1"; "FASTCGI4J=on"] = None
  /\ getenv INET_BIND_VAR ["PATH=/bin"; "F=1"; "FASTCGI4J=on"] = None
  /\ fst (run_main ["bindwrap"; "/bin/app"]
                   ["F=1"; "FASTCGI4J_INET_BIND=8080"]
                   [resolved [ {| ai_family := 2; ai_addr := "0.0.0.0" |} ];
                    answer 3 0; answer 0 0; answer 0 0; answer 0 0;
                    answer 0 0])
     = NoReturn (Execve (Some "/bin/app") ["/bin/app"] []).
Proof. repeat split. Qed.

(** *** Wait statuses *)

Lemma WEXITSTATUS_exited (code : Z) :
  0 <= code <= 255 -> WEXITSTATUS (W_EXITCODE code 0) = code.
Proof.
  intros H. unfold WEXITSTATUS, W_EXITCODE.
  rewrite Z.lor_0_r, Z.shiftr_land.
  rewrite Z.shiftr_shiftl_l by lia. cbn [Z.sub Z.opp Z.add].
  change (8 - 8) with 0. rewrite Z.shiftl_0_r.
  change (Z.shiftr 65280 8) with (Z.ones 8).
  rewrite Z.land_ones by lia. apply Z.mod_small.
  change (2 ^ 8) with 256. lia.
Qed.

Lemma WEXITSTATUS_signaled (sig : Z) (core : bool) :
  1 <= sig <= 127 -> WEXITSTATUS (W_SIGNALED sig core) = 0.
Proof.
  intros H. unfold WEXITSTATUS, W_SIGNALED.
  rewrite Z.shiftr_land, Z.shiftr_lor.
  rewrite (Z.shiftr_div_pow2 sig 8) by lia.
  change (2 ^ 8) with 256. rewrite (Z.div_small sig 256) by lia.
  destruct core; reflexivity.
Qed.

(** *** Stepping through calls *)

Lemma syscall_answered (c : call) (s : sys) (r : reply) (o : list reply) :
  oracle s = r :: o ->
  syscall c s = (Val r, {| oracle := o; errno := rerrno r;
                           trace := trace s ++ [Ev c r] |}).
Proof. intros H. unfold syscall. rewrite H. reflexivity. Qed.

Lemma syscall_unanswered (c : call) (s : sys) :
  oracle s = [] -> syscall c s = (Halt (NoReturn c), s).
Proof. intros H. unfold syscall. rewrite H. reflexivity. Qed.

Lemma bind_syscall_answered {B} (c : call) (k : reply -> M B) (s : sys)
      (r : reply) (o : list reply) :
  oracle s = r :: o ->
  bind (syscall c) k s
  = k r {| oracle := o; errno := rerrno r; trace := trace s ++ [Ev c r] |}.
Proof. intros H. unfold bind. rewrite (syscall_answered c s r o H). reflexivity. Qed.

Lemma bind_syscall_unanswered {B} (c : call) (k : reply -> M B) (s : sys) :
  oracle s = [] -> bind (syscall c) k s = (Halt (NoReturn c), s).
Proof. intros H. unfold bind. rewrite (syscall_unanswered c s H). reflexivity. Qed.

(** *** Composing trace properties *)

Lemma reap_shape_app (q t : list event) :
  Forall (fun e => quiet e = true) q -> reap_shape t -> reap_shape (q ++ t).
Proof.
  intros Hq H.
  destruct H as [q' Hq' | q' chid rw Hq' H1 H2 | q' chid rw path rr Hq' H1 H2].
  - apply shape_waiting. apply Forall_app. split; assumption.
  - rewrite app_assoc. apply shape_reaped; [apply Forall_app; split|..]; assumption.
  - rewrite app_assoc. apply shape_removed; [apply Forall_app; split|..]; assumption.
Qed.

Lemma orderly_bind {A B} (m : M A) (k : A -> M B) :
  orderly m -> (forall a, orderly (k a)) -> orderly (bind m k).
Proof.
  intros Hm Hk s. unfold bind.
  destruct (Hm s) as (t & Ht & Hc).
  destruct (m s) as [[a|o] s1]; cbn [fst snd] in *.
  - destruct (Hk a s1) as (t' & Ht' & HP).
    exists (t ++ t'). rewrite Ht', Ht, app_assoc. split; [reflexivity|].
    destruct (fst (k a s1)).
    + apply Forall_app. split; assumption.
    + apply reap_shape_app; assumption.
  - exists t. split; assumption.
Qed.

Lemma orderly_silent {A} (m : M A) :
  (forall s, trace (snd (m s)) = trace s) -> orderly m.
Proof.
  intros H s. exists []. rewrite app_nil_r. split; [apply H|].
  destruct (fst (m s)); [constructor | apply shape_waiting; constructor].
Qed.

Lemma orderly_ret {A} (a : A) : orderly (ret a).
Proof. apply orderly_silent. reflexivity. Qed.

Lemma orderly_halt {A} (o : outcome) : orderly (@halt A o).
Proof. apply orderly_silent. reflexivity. Qed.

Lemma orderly_get_errno : orderly get_errno.
Proof. apply orderly_silent. reflexivity. Qed.

Lemma orderly_set_errno (e : Z) : orderly (set_errno e).
Proof. apply orderly_silent. reflexivity. Qed.

Lemma orderly_loop_bound : orderly loop_bound.
Proof. apply orderly_silent. reflexivity. Qed.

Lemma orderly_assert (b : bool) : orderly (assert b).
Proof. destruct b; [apply orderly_ret | apply orderly_halt]. Qed.

Lemma orderly_fprintf (d : diag) : orderly (fprintf d).
Proof. intros s. exists [Out d]. split; [reflexivity | repeat constructor]. Qed.

Lemma orderly_syscall (c : call) :
  (forall r, quiet (Ev c r) = true) -> orderly (syscall c).
Proof.
  intros H s. unfold syscall. destruct (oracle s) as [|r o]; cbn [fst snd].
  - exists []. rewrite app_nil_r. split; [reflexivity|].
    apply shape_waiting. constructor.
  - exists [Ev c r]. split; [reflexivity | repeat constructor; apply H].
Qed.

Lemma orderly_no_return (m : M Empty_set) {B} (k : Empty_set -> M B) :
  orderly m -> orderly (bind m k).
Proof. intros H. apply orderly_bind; [exact H | intros []]. Qed.

Ltac orderly_step :=
  first
    [ apply orderly_ret | apply orderly_halt | apply orderly_get_errno
    | apply orderly_set_errno | apply orderly_assert | apply orderly_fprintf
    | apply orderly_loop_bound
    | apply orderly_syscall; intros; reflexivity
    | apply orderly_bind; [|intros]
    | match goal with
      | |- orderly (if ?b then _ else _) => destruct b
      | |- orderly (match ?x with _ => _ end) => destruct x
      | |- orderly (let '(_, _) := ?x in _) => destruct x
      end ].

(** *** The parent's loop *)

Lemma quiet_failed_wait (pid opts : Z) (r : reply) :
  rv r < 0 \/ rv r <> pid -> quiet (Ev (Waitpid pid opts) r) = true.
Proof.
  intros H. unfold quiet. cbn.
  destruct (Z.leb_spec 0 (rv r)); destruct (Z.eqb_spec (rv r) pid);
    try reflexivity; lia.
Qed.

Lemma orderly_ending (m : M Empty_set) :
  (forall s, exists t, trace (snd (m s)) = trace s ++ t /\ reap_shape t) ->
  orderly m.
Proof.
  intros H s. destruct (H s) as (t & Ht & Hs). exists t.
  split; [exact Ht|]. destruct (fst (m s)) as [[]|out]. exact Hs.
Qed.

Lemma reap_adds_shape fuel chid path s :
  exists t, trace (snd (reap fuel chid path s)) = trace s ++ t
            /\ reap_shape t.
Proof.
  revert s. induction fuel as [|fuel IH]; intros s.
  - exists []. rewrite app_nil_r. split; [reflexivity|].
    apply shape_waiting. constructor.
  - cbn [reap]. destruct (oracle s) as [|r o] eqn:Ho.
    + rewrite (bind_syscall_unanswered _ _ s Ho).
      exists []. rewrite app_nil_r. split; [reflexivity|].
      apply shape_waiting. constructor.
    + rewrite (bind_syscall_answered _ _ s r o Ho).
      set (w := Ev (Waitpid chid WNOHANG) r).
      set (s1 := {| oracle := o; errno := rerrno r; trace := trace s ++ [w] |}).
      destruct (Z.ltb_spec (rv r) 0) as [Hneg|Hpos].
      * assert (Hw : quiet w = true) by (apply quiet_failed_wait; lia).
        unfold bind at 1, get_errno at 1. cbn [errno s1].
        destruct (rerrno r =? EINTR).
        -- destruct (IH s1) as (t & Ht & Hs).
           exists ([w] ++ t). rewrite Ht. unfold s1 at 1. cbn [trace].
           rewrite <- app_assoc. split; [reflexivity|].
           apply reap_shape_app; [repeat constructor; exact Hw | exact Hs].
        -- exists [w; Out (D_waitpid (rerrno r))].
           cbn. rewrite <- app_assoc. split; [reflexivity|].
           apply shape_waiting. repeat constructor. exact Hw.
      * destruct (Z.eqb_spec (rv r) chid) as [Heq|Hne].
        -- unfold bind at 1, assert at 1, ret at 1.
           destruct o as [|rr o'].
           ++ rewrite bind_syscall_unanswered by reflexivity.
              exists [w]. split; [reflexivity|].
              apply (shape_reaped [] chid r); [constructor|assumption..].
           ++ rewrite (bind_syscall_answered _ _ _ rr o') by reflexivity.
              exists [w; Ev (Remove path) rr].
              cbn. rewrite <- app_assoc. split; [reflexivity|].
              apply (shape_removed [] chid r path rr);
                [constructor|assumption..].
        -- exists [w]. split; [reflexivity|].
           apply shape_waiting. repeat constructor.
           apply quiet_failed_wait. right. exact Hne.
Qed.

Lemma orderly_reap fuel chid path : orderly (reap fuel chid path).
Proof. apply orderly_ending. intros s. apply reap_adds_shape. Qed.

Lemma orderly_parent_loop fuel sigfd chid path :
  orderly (parent_loop fuel sigfd chid path).
Proof.
  induction fuel as [|fuel IH]; [apply orderly_halt|].
  cbn [parent_loop]. unfold exit_with.
  repeat first [exact IH | apply orderly_reap | orderly_step].
Qed.

Lemma orderly_try_candidates ptr sock mom fam :
  orderly (try_candidates ptr sock mom fam).
Proof.
  revert sock mom fam.
  induction ptr as [|ai next IH]; intros; cbn [try_candidates].
  - apply orderly_ret.
  - repeat first [apply IH | orderly_step].
Qed.

Lemma orderly_main argv environ : orderly (main argv environ).
Proof.
  unfold main, supervise, launch, unix_socket, inet_socket, exit_with.
  repeat first [apply orderly_parent_loop | apply orderly_try_candidates
               | orderly_step].
Qed.

Lemma run_main_shape argv environ o : reap_shape (snd (run_main argv environ o)).
Proof.
  unfold run_main.
  destruct (orderly_main argv environ (start o)) as (t & Ht & Hs).
  destruct (main argv environ (start o)) as [[[]|out] s].
  cbn [fst snd] in *. rewrite Ht. exact Hs.
Qed.

(** *** Counting reaps and removals *)

Lemma count_app (p : event -> bool) (a b : list event) :
  count p (a ++ b) = (count p a + count p b)%nat.
Proof. unfold count. rewrite filter_app, length_app. reflexivity. Qed.

Lemma count_quiet (q : list event) :
  Forall (fun e => quiet e = true) q ->
  count is_remove q = 0%nat /\ count is_reaped q = 0%nat.
Proof.
  unfold count. induction 1 as [|e q He _ [IH1 IH2]]; [split; reflexivity|].
  unfold quiet in He. apply andb_true_iff in He as [H1 H2].
  apply negb_true_iff in H1, H2. cbn [filter]. rewrite H1, H2.
  split; assumption.
Qed.

Lemma split_after_quiet (q tail t1 t2 : list event) (e : event) :
  Forall (fun e => quiet e = true) q ->
  q ++ tail = t1 ++ e :: t2 -> is_remove e = true ->
  exists t1', t1 = q ++ t1' /\ tail = t1' ++ e :: t2.
Proof.
  intros Hq. revert t1. induction Hq as [|x q Hx _ IH]; intros t1 Heq He.
  - exists t1. split; [reflexivity | exact Heq].
  - destruct t1 as [|y t1]; cbn in Heq; injection Heq as Hxy Heq.
    + subst x. unfold quiet in Hx. rewrite He in Hx. discriminate.
    + subst y. destruct (IH t1 Heq He) as (t1' & -> & Htail).
      exists t1'. split; [reflexivity | exact Htail].
Qed.

Lemma reap_shape_once (t : list event) :
  reap_shape t ->
  (count is_remove t <= 1)%nat
  /\ (count is_reaped t <= 1)%nat
  /\ (forall t1 e t2,
         t = t1 ++ e :: t2 -> is_remove e = true ->
         t2 = []
         /\ exists q w, t1 = q ++ [w] /\ is_reaped w = true
                        /\ count is_remove t1 = 0%nat).
Proof.
  intros H.
  destruct H as [q Hq | q chid rw Hq H1 H2 | q chid rw path rr Hq H1 H2];
    destruct (count_quiet q Hq) as [C1 C2].
  - rewrite C1, C2. split; [lia|]. split; [lia|].
    intros t1 e t2 Heq He.
    destruct (split_after_quiet q [] t1 t2 e Hq) as (t1' & _ & Hnil);
      [rewrite app_nil_r; assumption | assumption |].
    destruct t1'; discriminate.
  - rewrite !count_app, C1, C2.
    split; [cbn; lia|]. split; [unfold count; cbn; destruct (_ && _); cbn; lia|].
    intros t1 e t2 Heq He.
    destruct (split_after_quiet q _ t1 t2 e Hq Heq He) as (t1' & _ & Htail).
    destruct t1' as [|a [|b t1']]; try discriminate.
    injection Htail as <- _. discriminate.
  - assert (Hw : is_reaped (Ev (Waitpid chid WNOHANG) rw) = true).
    { cbn. apply andb_true_iff. split; [apply Z.leb_le | apply Z.eqb_eq];
        assumption. }
    rewrite !count_app, C1, C2.
    split; [cbn; lia|].
    split; [unfold count; cbn [filter]; rewrite Hw; cbn; lia|].
    intros t1 e t2 Heq He.
    destruct (split_after_quiet q _ t1 t2 e Hq Heq He) as (t1' & -> & Htail).
    destruct t1' as [|a [|b [|c t1']]]; try discriminate.
    + injection Htail as <- _. discriminate.
    + injection Htail as <- _ <-. split; [reflexivity|].
      exists q, (Ev (Waitpid chid WNOHANG) rw).
      split; [reflexivity|]. split; [exact Hw|].
      rewrite count_app, C1. reflexivity.
Qed.

(** C2: in every run of the supervisor, whatever signals arrive and
    whatever the system calls answer, the rendezvous path is removed at
    most once and the child is reaped at most once; a removal is the last
    event of the run and comes directly after the wait that reported the
    child, with no removal before it. *)
Theorem remove_once_after_reap :
  forall (argv environ : list string) (o : list reply),
    let t := snd (run_main argv environ o) in
    (count is_remove t <= 1)%nat
    /\ (count is_reaped t <= 1)%nat
    /\ (forall t1 e t2,
           t = t1 ++ e :: t2 -> is_remove e = true ->
           t2 = []
           /\ exists q w, t1 = q ++ [w] /\ is_reaped w = true
                          /\ count is_remove t1 = 0%nat).
Proof. intros argv environ o t. apply reap_shape_once, run_main_shape. Qed.

(** *** What the reap does *)

Lemma reap_reaped fuel chid path s rw rr o :
  oracle s = rw :: rr :: o -> 0 <= chid -> rv rw = chid ->
  reap (S fuel) chid path s
  = (Halt (Exit (WEXITSTATUS (wstat rw))),
     {| oracle := o; errno := rerrno rr;
        trace := trace s ++ [Ev (Waitpid chid WNOHANG) rw;
                             Ev (Remove path) rr] |}).
Proof.
  intros Ho Hc Hrv. cbn [reap].
  rewrite (bind_syscall_answered _ _ s rw (rr :: o) Ho).
  destruct (Z.ltb_spec (rv rw) 0); [lia|].
  rewrite Hrv, Z.eqb_refl. unfold bind at 1, assert at 1, ret at 1.
  rewrite (bind_syscall_answered _ _ _ rr o) by reflexivity.
  cbn. rewrite <- app_assoc. reflexivity.
Qed.

Lemma reap_interrupted fuel chid path s rw o :
  oracle s = rw :: o -> rv rw < 0 -> rerrno rw = EINTR ->
  reap (S fuel) chid path s
  = reap fuel chid path
      {| oracle := o; errno := rerrno rw;
         trace := trace s ++ [Ev (Waitpid chid WNOHANG) rw] |}.
Proof.
  intros Ho Hrv He. cbn [reap].
  rewrite (bind_syscall_answered _ _ s rw o Ho).
  destruct (Z.ltb_spec (rv rw) 0); [|lia].
  unfold bind at 1, get_errno at 1. cbn [errno]. rewrite He. reflexivity.
Qed.

Lemma reap_failed fuel chid path s rw o :
  oracle s = rw :: o -> rv rw < 0 -> rerrno rw <> EINTR ->
  reap (S fuel) chid path s
  = (Halt (Exit EXIT_FAILURE),
     {| oracle := o; errno := rerrno rw;
        trace := trace s ++ [Ev (Waitpid chid WNOHANG) rw;
                             Out (D_waitpid (rerrno rw))] |}).
Proof.
  intros Ho Hrv He. cbn [reap].
  rewrite (bind_syscall_answered _ _ s rw o Ho).
  destruct (Z.ltb_spec (rv rw) 0); [|lia].
  unfold bind at 1, get_errno at 1. cbn [errno].
  destruct (Z.eqb_spec (rerrno rw) EINTR); [contradiction|].
  cbn. rewrite <- app_assoc. reflexivity.
Qed.

Lemma reap_nothing_to_reap fuel chid path s rw o :
  oracle s = rw :: o -> 0 <= rv rw -> rv rw <> chid ->
  reap (S fuel) chid path s
  = (Halt Abort,
     {| oracle := o; errno := rerrno rw;
        trace := trace s ++ [Ev (Waitpid chid WNOHANG) rw] |}).
Proof.
  intros Ho Hrv Hne. cbn [reap].
  rewrite (bind_syscall_answered _ _ s rw o Ho).
  destruct (Z.ltb_spec (rv rw) 0); [lia|].
  destruct (Z.eqb_spec (rv rw) chid); [contradiction|]. reflexivity.
Qed.

Lemma parent_loop_child_signal fuel sigfd chid path s rs o :
  oracle s = rs :: o -> rv rs = SIGINFO_SIZE -> ssi_signo rs = SIGCHLD ->
  parent_loop (S fuel) sigfd chid path s
  = reap fuel chid path
      {| oracle := o; errno := rerrno rs;
         trace := trace s ++ [Ev (ReadSig sigfd) rs] |}.
Proof.
  intros Ho Hrv Hsig. cbn [parent_loop].
  rewrite (bind_syscall_answered _ _ s rs o Ho).
  rewrite Hrv, Hsig. reflexivity.
Qed.

Lemma parent_loop_terminate fuel sigfd chid path s rs rk o :
  oracle s = rs :: rk :: o -> rv rs = SIGINFO_SIZE -> ssi_signo rs = SIGTERM ->
  parent_loop (S fuel) sigfd chid path s
  = parent_loop fuel sigfd chid path
      {| oracle := o; errno := rerrno rk;
         trace := trace s ++ [Ev (ReadSig sigfd) rs;
                              Ev (Kill chid SIGTERM) rk] |}.
Proof.
  intros Ho Hrv Hsig. cbn [parent_loop].
  rewrite (bind_syscall_answered _ _ s rs (rk :: o) Ho).
  rewrite Hrv, Hsig.
  change (bind (syscall (Kill chid SIGTERM))
               (fun _ => parent_loop fuel sigfd chid path)
               {| oracle := rk :: o; errno := rerrno rs;
                  trace := trace s ++ [Ev (ReadSig sigfd) rs] |}
          = parent_loop fuel sigfd chid path
              {| oracle := o; errno := rerrno rk;
                 trace := trace s ++ [Ev (ReadSig sigfd) rs;
                                      Ev (Kill chid SIGTERM) rk] |}).
  rewrite (bind_syscall_answered _ _ _ rk o) by reflexivity.
  cbn [trace]. rewrite <- app_assoc. reflexivity.
Qed.

(** C1, as the code has it: once the wait after [SIGCHLD] reports the
    child, the supervisor removes the path and returns [WEXITSTATUS] of
    the wait status, without looking at how the child ended.  For a child
    that exited with a code from 0 to 255 this is the child's code; for a
    child killed by a signal it is 0. *)
Theorem supervisor_exits_with_WEXITSTATUS :
  forall (fuel : nat) (sigfd chid : Z) (path : string) (s : sys)
         (rs rw rr : reply) (o : list reply),
    oracle s = rs :: rw :: rr :: o ->
    rv rs = SIGINFO_SIZE -> ssi_signo rs = SIGCHLD ->
    0 < chid -> rv rw = chid ->
    parent_loop (S (S fuel)) sigfd chid path s
    = (Halt (Exit (WEXITSTATUS (wstat rw))),
       {| oracle := o; errno := rerrno rr;
          trace := trace s ++ [Ev (ReadSig sigfd) rs;
                               Ev (Waitpid chid WNOHANG) rw;
                               Ev (Remove path) rr] |})
    /\ (forall code, 0 <= code <= 255 -> wstat rw = W_EXITCODE code 0 ->
                     WEXITSTATUS (wstat rw) = code)
    /\ (forall sig core, 1 <= sig <= 127 -> wstat rw = W_SIGNALED sig core ->
                         WEXITSTATUS (wstat rw) = 0).
Proof.
  intros fuel sigfd chid path s rs rw rr o Ho Hrs Hsig Hchid Hrw.
  split; [|split].
  - rewrite (parent_loop_child_signal _ _ _ _ s rs (rw :: rr :: o) Ho Hrs Hsig).
    rewrite (reap_reaped fuel chid path _ rw rr o) by (cbn; trivial; lia).
    cbn [trace]. rewrite <- app_assoc. reflexivity.
  - intros code Hc ->. apply WEXITSTATUS_exited, Hc.
  - intros sig core Hs ->. apply WEXITSTATUS_signaled, Hs.
Qed.

Lemma supervisor_exits_with_WEXITSTATUS_witness :
  fst (parent_loop 2 4 77 "/tmp/test.sock"
         (start [signal_read SIGCHLD; waited 77 (W_EXITCODE 7 0); answer 0 0]))
  = Halt (Exit 7).
Proof.
  destruct (supervisor_exits_with_WEXITSTATUS
              0 4 77 "/tmp/test.sock"
              (start [signal_read SIGCHLD; waited 77 (W_EXITCODE 7 0);
                      answer 0 0])
              (signal_read SIGCHLD) (waited 77 (W_EXITCODE 7 0)) (answer 0 0) []
              eq_refl eq_refl eq_refl eq_refl eq_refl) as [H _].
  rewrite H. reflexivity.
Defined.

(** A child killed by [SIGKILL] and a child that exited with 0 give the
    supervisor the same exit status, 0. *)
Lemma signaled_child_reported_as_success :
  fst (run_main ["bindwrap"; "/bin/app"] ["FASTCGI4J_UNIX_BIND=/tmp/test.sock"]
         [answer 3 0; answer 0 0; answer 0 0; answer 0 0; answer 0 0;
          answer 0 0; answer 4 0; answer 77 0; answer 0 0;
          signal_read SIGCHLD; waited 77 (W_SIGNALED 9 false); answer 0 0])
  = Exit 0
  /\ fst (run_main ["bindwrap"; "/bin/app"]
            ["FASTCGI4J_UNIX_BIND=/tmp/test.sock"]
            [answer 3 0; answer 0 0; answer 0 0; answer 0 0; answer 0 0;
             answer 0 0; answer 4 0; answer 77 0; answer 0 0;
             signal_read SIGCHLD; waited 77 (W_EXITCODE 0 0); answer 0 0])
     = Exit 0.
Proof. split; reflexivity. Qed.

(** C3: when the wait after [SIGCHLD] returns 0, the child having
    stopped or not yet ended, the supervisor does not wait again: it
    reaches [assert(rc == chid)] with [rc = 0], and the assertion fails. *)
Theorem reap_before_child_ends_aborts :
  forall (fuel : nat) (sigfd chid : Z) (path : string) (s : sys)
         (rs rw : reply) (o : list reply),
    oracle s = rs :: rw :: o ->
    rv rs = SIGINFO_SIZE -> ssi_signo rs = SIGCHLD ->
    chid <> 0 -> rv rw = 0 ->
    parent_loop (S (S fuel)) sigfd chid path s
    = (Halt Abort,
       {| oracle := o; errno := rerrno rw;
          trace := trace s ++ [Ev (ReadSig sigfd) rs;
                               Ev (Waitpid chid WNOHANG) rw] |}).
Proof.
  intros fuel sigfd chid path s rs rw o Ho Hrs Hsig Hchid Hrw.
  rewrite (parent_loop_child_signal _ _ _ _ s rs (rw :: o) Ho Hrs Hsig).
  rewrite (reap_nothing_to_reap fuel chid path _ rw o) by (cbn; trivial; lia).
  cbn [trace]. rewrite <- app_assoc. reflexivity.
Qed.

Lemma reap_before_child_ends_aborts_witness :
  fst (parent_loop 2 4 77 "/tmp/test.sock"
         (start [signal_read SIGCHLD; waited 0 0; waited 77 0; answer 0 0]))
  = Halt Abort.
Proof.
  rewrite (reap_before_child_ends_aborts
             0 4 77 "/tmp/test.sock"
             (start [signal_read SIGCHLD; waited 0 0; waited 77 0; answer 0 0])
             (signal_read SIGCHLD) (waited 0 0) [waited 77 0; answer 0 0]
             eq_refl eq_refl eq_refl ltac:(discriminate) eq_refl).
  reflexivity.
Defined.

(** The scenario of the specification: the worker exits with 7; two
    terminate signals arrive before that, and each is passed on. *)
Example worker_exits_seven :
  run_main ["bindwrap"; "/bin/app"] ["FASTCGI4J_UNIX_BIND=/tmp/test.sock"]
    [answer 0 0; answer 0 0; answer 0 0; answer 0 0; answer 4 0;
     answer 77 0; answer 0 0;
     signal_read SIGTERM; answer 0 0; signal_read SIGTERM; answer 0 0;
     signal_read SIGCHLD; waited 77 (W_EXITCODE 7 0); answer 0 0]
  = (Exit 7,
     [Ev (Socket PF_UNIX) (answer 0 0);
      Ev (BindUn 0 (strncpy "/tmp/test.sock" SUN_PATH_SIZE)) (answer 0 0);
      Ev (Listen 0 5) (answer 0 0);
      Ev (Sigprocmask interest) (answer 0 0);
      Ev (Signalfd interest) (answer 4 0);
      Ev Fork (answer 77 0);
      Ev (Close 0) (answer 0 0);
      Ev (ReadSig 4) (signal_read SIGTERM);
      Ev (Kill 77 SIGTERM) (answer 0 0);
      Ev (ReadSig 4) (signal_read SIGTERM);
      Ev (Kill 77 SIGTERM) (answer 0 0);
      Ev (ReadSig 4) (signal_read SIGCHLD);
      Ev (Waitpid 77 WNOHANG) (waited 77 (W_EXITCODE 7 0));
      Ev (Remove "/tmp/test.sock") (answer 0 0)]).
Proof. reflexivity. Qed.

(** An interrupted wait is tried again; any other failure of the wait is
    fatal. *)
Example interrupted_wait_retried :
  fst (parent_loop 4 4 77 "/tmp/test.sock"
         (start [signal_read SIGCHLD; answer (-1) EINTR;
                 waited 77 (W_EXITCODE 3 0); answer 0 0]))
  = Halt (Exit 3)
  /\ fst (parent_loop 4 4 77 "/tmp/test.sock"
            (start [signal_read SIGCHLD; answer (-1) 10;
                    waited 77 (W_EXITCODE 3 0); answer 0 0]))
     = Halt (Exit EXIT_FAILURE).
Proof. split; reflexivity. Qed.

(** The child is stopped, not ended: the whole run ends in the failed
    assertion, with the path still in place. *)
Example stopped_child_aborts_supervisor :
  fst (run_main ["bindwrap"; "/bin/app"] ["FASTCGI4J_UNIX_BIND=/tmp/test.sock"]
         [answer 0 0; answer 0 0; answer 0 0; answer 0 0; answer 4 0;
          answer 77 0; answer 0 0;
          signal_read SIGCHLD; waited 0 0;
          signal_read SIGCHLD; waited 77 (W_EXITCODE 0 0); answer 0 0])
  = Abort
  /\ count is_remove
       (snd (run_main ["bindwrap"; "/bin/app"]
               ["FASTCGI4J_UNIX_BIND=/tmp/test.sock"]
               [answer 0 0; answer 0 0; answer 0 0; answer 0 0; answer 4 0;
                answer 77 0; answer 0 0;
                signal_read SIGCHLD; waited 0 0;
                signal_read SIGCHLD; waited 77 (W_EXITCODE 0 0);
                answer 0 0]))
     = 0%nat.
Proof. split; reflexivity. Qed.

(** *** The loop bound is never what ends a run *)

Lemma reap_bound_suffices fuel chid path s :
  (List.length (oracle s) < fuel)%nat ->
  fst (reap fuel chid path s) <> Halt OutOfFuel.
Proof.
  revert s. induction fuel as [|fuel IH]; intros s H; [lia|].
  cbn [reap]. destruct (oracle s) as [|r o] eqn:Ho.
  - rewrite (bind_syscall_unanswered _ _ s Ho). discriminate.
  - rewrite (bind_syscall_answered _ _ s r o Ho). cbn [List.length] in H.
    destruct (rv r <? 0).
    + unfold bind at 1, get_errno at 1. cbn [errno].
      destruct (rerrno r =? EINTR); [apply IH; cbn; lia | discriminate].
    + destruct (rv r =? chid); [|discriminate].
      unfold bind at 1, assert at 1, ret at 1.
      destruct o as [|rr o'].
      * rewrite bind_syscall_unanswered by reflexivity. discriminate.
      * rewrite (bind_syscall_answered _ _ _ rr o') by reflexivity. discriminate.
Qed.

Lemma parent_loop_bound_suffices fuel sigfd chid path s :
  (List.length (oracle s) < fuel)%nat ->
  fst (parent_loop fuel sigfd chid path s) <> Halt OutOfFuel.
Proof.
  revert s. induction fuel as [|fuel IH]; intros s H; [lia|].
  cbn [parent_loop]. destruct (oracle s) as [|r o] eqn:Ho.
  - rewrite (bind_syscall_unanswered _ _ s Ho). discriminate.
  - rewrite (bind_syscall_answered _ _ s r o Ho). cbn [List.length] in H.
    destruct (rv r <? 0).
    + unfold bind, get_errno, fprintf, syscall. cbn [oracle].
      destruct o; discriminate.
    + destruct (rv r =? SIGINFO_SIZE); [|discriminate].
      unfold bind at 1, assert at 1, ret at 1.
      destruct (ssi_signo r =? SIGTERM).
      { destruct o as [|rk o'].
        - rewrite bind_syscall_unanswered by reflexivity. discriminate.
        - rewrite (bind_syscall_answered _ _ _ rk o') by reflexivity.
          apply IH. cbn in *. lia. }
      destruct ((ssi_signo r =? SIGINT) || (ssi_signo r =? SIGHUP));
        [apply IH; cbn; lia|].
      destruct (ssi_signo r =? SIGCHLD);
        [apply reap_bound_suffices; cbn; lia | apply IH; cbn; lia].
Qed.

Lemma bounded_bind {A B} (m : M A) (k : A -> M B) :
  bounded m -> (forall a, bounded (k a)) -> bounded (bind m k).
Proof.
  intros Hm Hk s. unfold bind. specialize (Hm s).
  destruct (m s) as [[a|out] s1]; cbn [fst] in *.
  - apply Hk.
  - intros E. apply Hm. injection E as ->. reflexivity.
Qed.

Lemma bounded_syscall (c : call) : bounded (syscall c).
Proof. intros s. unfold syscall. destruct (oracle s); discriminate. Qed.

Lemma bounded_assert (b : bool) : bounded (assert b).
Proof. intros s. destruct b; discriminate. Qed.

Lemma bounded_parent (sigfd chid : Z) (path : string) {B}
      (k : Empty_set -> M B) :
  bounded (fuel <- loop_bound ;; e <- parent_loop fuel sigfd chid path ;; k e).
Proof.
  intros s. unfold bind at 1, loop_bound at 1. unfold bind.
  pose proof (parent_loop_bound_suffices
                (S (List.length (oracle s))) sigfd chid path s
                (Nat.lt_succ_diag_r _)) as H.
  destruct (parent_loop _ sigfd chid path s) as [[[]|out] s1].
  cbn [fst] in *. intros E. apply H. injection E as ->. reflexivity.
Qed.

Ltac bounded_step :=
  first
    [ apply bounded_parent | apply bounded_syscall | apply bounded_assert
    | apply bounded_bind; [|intros]
    | match goal with
      | |- bounded (if ?b then _ else _) => destruct b
      | |- bounded (match ?x with _ => _ end) => destruct x
      | |- bounded (let '(_, _) := ?x in _) => destruct x
      end
    | intros ?; discriminate ].

Lemma bounded_try_candidates ptr sock mom fam :
  bounded (try_candidates ptr sock mom fam).
Proof.
  revert sock mom fam.
  induction ptr as [|ai next IH]; intros; cbn [try_candidates].
  - intros s. discriminate.
  - repeat first [apply IH | bounded_step].
Qed.

Lemma bounded_main argv environ : bounded (main argv environ).
Proof.
  unfold main, supervise, launch, unix_socket, inet_socket, exit_with.
  repeat first [apply bounded_try_candidates | bounded_step].
Qed.

Lemma run_main_not_out_of_fuel argv environ o :
  fst (run_main argv environ o) <> OutOfFuel.
Proof.
  unfold run_main. pose proof (bounded_main argv environ (start o)) as H.
  destruct (main argv environ (start o)) as [[[]|out] s].
  cbn [fst] in *. intros ->. apply H. reflexivity.
Qed.

(** *** Strings and buffers *)

Lemma strlen_clean (s : string) :
  lacks NUL s = true -> strlen s = String.length s.
Proof.
  induction s as [|c s IH]; [reflexivity|].
  cbn. unfold is_nul. intros H. apply andb_true_iff in H as [Hc Hs].
  apply negb_true_iff in Hc. rewrite Hc, IH by exact Hs. reflexivity.
Qed.

Lemma strncpy_padding (n i : nat) : nth i (strncpy EmptyString n) NUL = NUL.
Proof.
  revert i. induction n as [|n IH]; intros [|i]; cbn; auto.
Qed.

Lemma strncpy_empty (n : nat) : strncpy EmptyString n = repeat NUL n.
Proof. induction n as [|n IH]; cbn; [|rewrite IH]; reflexivity. Qed.

(** The last character of the destination is not NUL exactly when the
    source does not fit with its terminator. *)
Lemma strncpy_last (src : string) (n : nat) :
  negb (is_nul (nth n (strncpy src (S n)) NUL)) = (S n <=? strlen src)%nat.
Proof.
  revert src. induction n as [|n IH]; intros src.
  - destruct src as [|c s]; [reflexivity|].
    cbn. destruct (is_nul c) eqn:Hc; cbn; [reflexivity|].
    rewrite Hc. reflexivity.
  - destruct src as [|c s].
    + rewrite strncpy_padding. reflexivity.
    + change (strncpy (String c s) (S (S n)))
        with (if is_nul c then NUL :: strncpy EmptyString (S n)
              else c :: strncpy s (S n)).
      cbn [strlen]. destruct (is_nul c) eqn:Hc.
      * change (nth (S n) (NUL :: strncpy EmptyString (S n)) NUL)
          with (nth n (strncpy EmptyString (S n)) NUL).
        rewrite strncpy_padding. reflexivity.
      * change (nth (S n) (c :: strncpy s (S n)) NUL)
          with (nth n (strncpy s (S n)) NUL).
        rewrite IH. reflexivity.
Qed.

Lemma trunc_strncpy_flag (src : string) (lim : nat) :
  (0 < lim)%nat ->
  snd (trunc_strncpy src lim) = (lim <=? strlen src)%nat.
Proof.
  intros H. destruct lim as [|n]; [lia|].
  unfold trunc_strncpy. cbn [snd]. rewrite Nat.sub_succ, Nat.sub_0_r.
  apply strncpy_last.
Qed.

Lemma trunc_strncpy_buf (src : string) (lim : nat) :
  fst (trunc_strncpy src lim) = strncpy src lim.
Proof. reflexivity. Qed.

Lemma strncpy_clean (s : string) (lim : nat) :
  lacks NUL s = true -> (String.length s <= lim)%nat ->
  strncpy s lim
  = list_ascii_of_string s ++ repeat NUL (lim - String.length s).
Proof.
  revert lim. induction s as [|c s IH]; intros lim Hs Hlen.
  - cbn. rewrite Nat.sub_0_r. apply strncpy_empty.
  - cbn in Hs. apply andb_true_iff in Hs as [Hc Hs].
    apply negb_true_iff in Hc.
    destruct lim as [|lim]; [cbn in Hlen; lia|].
    cbn [strncpy]. unfold is_nul. rewrite Hc.
    cbn [list_ascii_of_string String.length app Nat.sub].
    rewrite IH; [reflexivity | exact Hs | cbn in Hlen; lia].
Qed.

Lemma list_of_append (a b : string) :
  list_ascii_of_string (a ++ b)
  = list_ascii_of_string a ++ list_ascii_of_string b.
Proof. induction a as [|c a IH]; cbn; [|rewrite IH]; reflexivity. Qed.

Lemma length_append (a b : string) :
  String.length (a ++ b) = (String.length a + String.length b)%nat.
Proof. induction a as [|c a IH]; cbn; [|rewrite IH]; reflexivity. Qed.

Lemma length_list_of (s : string) :
  List.length (list_ascii_of_string s) = String.length s.
Proof. induction s as [|c s IH]; cbn; [|rewrite IH]; reflexivity. Qed.

Lemma string_of_buf_clean (s : string) (rest : list ascii) :
  lacks NUL s = true ->
  string_of_buf (list_ascii_of_string s ++ NUL :: rest) = s.
Proof.
  induction s as [|c s IH]; intros H; [reflexivity|].
  cbn in H. apply andb_true_iff in H as [Hc Hs]. apply negb_true_iff in Hc.
  cbn. unfold is_nul. rewrite Hc, IH by exact Hs. reflexivity.
Qed.

Lemma strrchr_from_clean (s : string) (rest : list ascii) (ch : ascii)
      (i : nat) (last : option nat) :
  lacks NUL s = true ->
  strrchr_from (list_ascii_of_string s ++ rest) ch i last
  = strrchr_from rest ch (i + String.length s)
      (strrchr_from (list_ascii_of_string s) ch i last).
Proof.
  revert i last. induction s as [|c s IH]; intros i last H.
  - cbn. rewrite Nat.add_0_r. reflexivity.
  - cbn in H. apply andb_true_iff in H as [Hc Hs]. apply negb_true_iff in Hc.
    cbn. unfold is_nul. rewrite Hc, IH by exact Hs.
    rewrite Nat.add_succ_r. reflexivity.
Qed.

Lemma strrchr_from_absent (s : string) (ch : ascii) (i : nat)
      (last : option nat) :
  lacks ch s = true ->
  strrchr_from (list_ascii_of_string s) ch i last = last.
Proof.
  revert i last. induction s as [|c s IH]; intros i last H; [reflexivity|].
  cbn in H. apply andb_true_iff in H as [Hc Hs]. apply negb_true_iff in Hc.
  cbn. rewrite Hc, IH by exact Hs. destruct (is_nul c); reflexivity.
Qed.

Lemma strrchr_from_range (l : list ascii) (ch : ascii) (i : nat)
      (last : option nat) :
  strrchr_from l ch i last = last
  \/ exists b, strrchr_from l ch i last = Some b
               /\ (i <= b < i + List.length l)%nat.
Proof.
  revert i last. induction l as [|c l IH]; intros i last; [left; reflexivity|].
  cbn. destruct (is_nul c); [left; reflexivity|].
  destruct (IH (S i) (if Ascii.eqb c ch then Some i else last)) as [H|(b & H & Hb)].
  - rewrite H. destruct (Ascii.eqb c ch); [|left; reflexivity].
    right. exists i. split; [reflexivity | lia].
  - right. exists b. split; [exact H | lia].
Qed.

Lemma store_after (p : list ascii) (x c : ascii) (rest : list ascii) :
  store (p ++ x :: rest) (List.length p) c = p ++ c :: rest.
Proof. induction p as [|a p IH]; cbn; [|rewrite IH]; reflexivity. Qed.

Lemma skipn_after (p : list ascii) (x : ascii) (rest : list ascii) :
  skipn (S (List.length p)) (p ++ x :: rest) = rest.
Proof. induction p as [|a p IH]; cbn; [reflexivity | exact IH]. Qed.

(** *** Splitting the endpoint *)

Section Split.

Variable lim : nat.

Lemma padded (s : string) :
  lacks NUL s = true -> (String.length s < lim)%nat ->
  exists pad, strncpy s lim = list_ascii_of_string s ++ NUL :: pad.
Proof.
  intros Hs Hlen. rewrite strncpy_clean by (trivial; lia).
  destruct (lim - String.length s)%nat as [|k] eqn:E; [lia|].
  exists (repeat NUL k). reflexivity.
Qed.

Lemma split_host_service (h svc : string) :
  lacks NUL h = true -> lacks NUL svc = true ->
  lacks ":" svc = true -> lacks "]" svc = true ->
  (String.length h + 1 + String.length svc < lim)%nat ->
  split_endpoint (strncpy (h ++ String ":" svc) lim) = Some (Some h, svc).
Proof.
  intros Hh Hs Hcol Hbr Hlen.
  assert (Hw : lacks NUL (String ":" svc) = true) by (cbn; exact Hs).
  destruct (padded (h ++ String ":" svc)) as (pad & ->).
  { clear - Hh Hw. induction h as [|c h IH]; [exact Hw|].
    cbn in *. apply andb_true_iff in Hh as [-> Hh]. apply IH, Hh. }
  { rewrite length_append. cbn. lia. }
  rewrite list_of_append. cbn [list_ascii_of_string].
  rewrite <- app_assoc. cbn [app].
  set (lh := list_ascii_of_string h).
  set (tail := list_ascii_of_string svc ++ NUL :: pad).
  unfold split_endpoint, strrchr.
  assert (Hc : strrchr_from (lh ++ ":"%char :: tail) ":" 0 None
               = Some (String.length h)).
  { unfold lh, tail. rewrite strrchr_from_clean by exact Hh.
    cbn [strrchr_from is_nul Ascii.eqb]. cbn -[strrchr_from].
    rewrite strrchr_from_clean by exact Hs.
    rewrite strrchr_from_absent by exact Hcol. reflexivity. }
  assert (Hb : strrchr_from (lh ++ ":"%char :: tail) "]" 0 None
               = strrchr_from lh "]" 0 None).
  { unfold lh, tail. rewrite strrchr_from_clean by exact Hh.
    cbn -[strrchr_from list_ascii_of_string].
    change (strrchr_from (":"%char :: ?x) "]" ?i ?l) with (strrchr_from x "]" (S i) l).
    rewrite strrchr_from_clean by exact Hs.
    rewrite strrchr_from_absent by exact Hbr. reflexivity. }
  rewrite Hc, Hb.
  assert (Hno : match strrchr_from lh "]" 0 None with
                | Some b => (String.length h <? b)%nat
                | None => false
                end = false).
  { destruct (strrchr_from_range lh "]" 0 None) as [->|(b & -> & Hr)];
      [reflexivity|].
    unfold lh in Hr. rewrite length_list_of in Hr.
    apply Nat.ltb_ge. lia. }
  rewrite Hno.
  replace (String.length h) with (List.length lh)
    by (unfold lh; apply length_list_of).
  rewrite store_after, skipn_after.
  unfold lh, tail. rewrite !string_of_buf_clean by assumption. reflexivity.
Qed.

Lemma split_bare_service (svc : string) :
  lacks NUL svc = true -> lacks ":" svc = true -> lacks "]" svc = true ->
  (String.length svc < lim)%nat ->
  split_endpoint (strncpy svc lim) = Some (None, svc).
Proof.
  intros Hs Hcol Hbr Hlen.
  destruct (padded svc Hs Hlen) as (pad & ->).
  unfold split_endpoint, strrchr.
  rewrite !strrchr_from_clean by exact Hs.
  rewrite strrchr_from_absent by exact Hcol.
  rewrite strrchr_from_absent by exact Hbr.
  cbn [strrchr_from is_nul Ascii.eqb]. cbn -[string_of_buf].
  rewrite string_of_buf_clean by exact Hs. reflexivity.
Qed.

Lemma split_bracket_without_port (lit : string) :
  lacks NUL lit = true ->
  (String.length lit + 2 < lim)%nat ->
  split_endpoint (strncpy (String "[" (lit ++ "]")) lim) = None.
Proof.
  intros Hs Hlen.
  assert (Hw : lacks NUL (lit ++ "]") = true).
  { clear - Hs. induction lit as [|c l IH]; [reflexivity|].
    cbn in *. apply andb_true_iff in Hs as [-> Hs]. apply IH, Hs. }
  destruct (padded (String "[" (lit ++ "]"))) as (pad & ->).
  { cbn. exact Hw. }
  { cbn. rewrite length_append. cbn. lia. }
  cbn [list_ascii_of_string]. rewrite list_of_append.
  cbn [list_ascii_of_string app]. rewrite <- app_assoc. cbn [app].
  set (ll := list_ascii_of_string lit).
  unfold split_endpoint, strrchr.
  assert (Hb : strrchr_from ("["%char :: ll ++ "]"%char :: NUL :: pad) "]" 0 None
               = Some (S (String.length lit))).
  { change (strrchr_from ("["%char :: ?x) "]" 0 None)
      with (strrchr_from x "]" 1 None).
    unfold ll. rewrite strrchr_from_clean by exact Hs. reflexivity. }
  assert (Hc : strrchr_from ("["%char :: ll ++ "]"%char :: NUL :: pad) ":" 0 None
               = strrchr_from ll ":" 1 None).
  { change (strrchr_from ("["%char :: ?x) ":" 0 None)
      with (strrchr_from x ":" 1 None).
    unfold ll. rewrite strrchr_from_clean by exact Hs. reflexivity. }
  rewrite Hb, Hc. cbn [nth Ascii.eqb].
  change (Ascii.eqb "[" "[") with true. cbv iota.
  destruct (strrchr_from_range ll ":" 1 None) as [->|(c & -> & Hr)];
    [reflexivity|].
  unfold ll in Hr. rewrite length_list_of in Hr.
  replace (c <? S (String.length lit))%nat with true; [reflexivity|].
  symmetry. apply Nat.ltb_lt. lia.
Qed.

End Split.

Lemma parse_too_long (addr : string) :
  (INET_BUF_SIZE <= strlen addr)%nat -> parse_endpoint addr = TooLong.
Proof.
  intros H. unfold parse_endpoint.
  pose proof (trunc_strncpy_flag addr INET_BUF_SIZE
                ltac:(unfold INET_BUF_SIZE; lia)) as F.
  destruct (trunc_strncpy addr INET_BUF_SIZE) as [buf tr]. cbn [snd] in F.
  subst tr. apply Nat.leb_le in H. rewrite H. reflexivity.
Qed.

Lemma parse_fits (addr : string) :
  (strlen addr < INET_BUF_SIZE)%nat ->
  parse_endpoint addr
  = match split_endpoint (strncpy addr INET_BUF_SIZE) with
    | None => PortRequired
    | Some (node, service) => Split node service
    end.
Proof.
  intros H. unfold parse_endpoint.
  pose proof (trunc_strncpy_flag addr INET_BUF_SIZE
                ltac:(unfold INET_BUF_SIZE; lia)) as F.
  pose proof (trunc_strncpy_buf addr INET_BUF_SIZE) as G.
  destruct (trunc_strncpy addr INET_BUF_SIZE) as [buf tr]. cbn [fst snd] in F, G.
  subst tr buf. apply Nat.leb_gt in H. rewrite H. reflexivity.
Qed.

Lemma lacks_append (ch : ascii) (a b : string) :
  lacks ch (a ++ b) = lacks ch a && lacks ch b.
Proof.
  induction a as [|c a IH]; [reflexivity|].
  cbn. rewrite IH, andb_assoc. reflexivity.
Qed.

Lemma inet_socket_too_long (addr : string) (s : sys) :
  parse_endpoint addr = TooLong ->
  inet_socket addr s
  = (Halt (Exit EXIT_FAILURE),
     {| oracle := oracle s; errno := errno s;
        trace := trace s ++ [Out (D_addr_too_long addr)] |}).
Proof.
  unfold parse_endpoint, inet_socket.
  destruct (trunc_strncpy addr INET_BUF_SIZE) as [buf [|]];
    [reflexivity|].
  destruct (split_endpoint buf) as [[n sv]|]; discriminate.
Qed.

Lemma inet_socket_port_required (addr : string) (s : sys) :
  parse_endpoint addr = PortRequired ->
  inet_socket addr s
  = (Halt (Exit EXIT_FAILURE),
     {| oracle := oracle s; errno := errno s;
        trace := trace s ++ [Out (D_port_required addr)] |}).
Proof.
  unfold parse_endpoint, inet_socket.
  destruct (trunc_strncpy addr INET_BUF_SIZE) as [buf [|]];
    [discriminate|].
  destruct (split_endpoint buf) as [[n sv]|]; [discriminate | reflexivity].
Qed.

(** The two parts of a split endpoint are what [getaddrinfo] is called
    with. *)
Lemma inet_socket_resolves (addr : string) (s : sys) (node : option string)
      (service : string) :
  parse_endpoint addr = Split node service -> oracle s = [] ->
  inet_socket addr s = (Halt (NoReturn (Getaddrinfo node service)), s).
Proof.
  unfold parse_endpoint, inet_socket.
  destruct (trunc_strncpy addr INET_BUF_SIZE) as [buf [|]];
    [discriminate|].
  destruct (split_endpoint buf) as [[n sv]|]; [|discriminate].
  intros E Ho. injection E as -> ->.
  apply bind_syscall_unanswered, Ho.
Qed.

(** What lines 135-154 make of the forms of an endpoint.  One shorter
    than the 256-byte buffer is cut at its last colon when no [']']
    follows that colon, and everything before the colon is the node;
    without colon or [']'] it is a service with no node; a bracketed
    literal with nothing after its closing bracket is refused, a port
    being required; and an endpoint of 256 bytes or more, of whatever
    form, is refused as too long. *)
Lemma endpoint_split :
  forall h svc bare lit addr : string,
    lacks NUL h = true -> lacks NUL svc = true ->
    lacks ":" svc = true -> lacks "]" svc = true ->
    (String.length h + 1 + String.length svc < INET_BUF_SIZE)%nat ->
    lacks NUL bare = true ->
    lacks ":" bare = true -> lacks "]" bare = true ->
    (String.length bare < INET_BUF_SIZE)%nat ->
    lacks NUL lit = true ->
    (String.length lit + 2 < INET_BUF_SIZE)%nat ->
    (INET_BUF_SIZE <= strlen addr)%nat ->
    parse_endpoint (h ++ String ":" svc) = Split (Some h) svc
    /\ parse_endpoint bare = Split None bare
    /\ parse_endpoint (String "[" (lit ++ "]")) = PortRequired
    /\ parse_endpoint addr = TooLong.
Proof.
  intros h svc bare lit addr Hh Hs Hcol Hbr Hlen Hb Hbcol Hbbr Hblen Hl Hllen
         Hlong.
  split; [|split; [|split]].
  - rewrite parse_fits.
    + rewrite split_host_service by assumption. reflexivity.
    + rewrite strlen_clean; [rewrite length_append; cbn; lia|].
      rewrite lacks_append. cbn. rewrite Hh, Hs. reflexivity.
  - rewrite parse_fits.
    + rewrite split_bare_service by assumption. reflexivity.
    + rewrite strlen_clean by exact Hb. lia.
  - rewrite parse_fits.
    + rewrite split_bracket_without_port by assumption. reflexivity.
    + rewrite strlen_clean; [cbn; rewrite length_append; cbn; lia|].
      cbn. rewrite lacks_append. cbn. rewrite Hl. reflexivity.
  - apply parse_too_long, Hlong.
Qed.

Example endpoint_split_forms :
  parse_endpoint "[::1]:8080" = Split (Some "[::1]") "8080"
  /\ parse_endpoint "8080" = Split None "8080"
  /\ parse_endpoint "[::1]" = PortRequired
  /\ parse_endpoint long_endpoint = TooLong.
Proof.
  apply (endpoint_split "[::1]" "8080" "8080" "::1" long_endpoint);
    try reflexivity; unfold INET_BUF_SIZE; cbn; lia.
Qed.

(** An endpoint of the form [host:service], with a host of 253 bytes, is
    not split but refused. *)
Lemma long_endpoint_rejected :
  String.length long_endpoint = 256%nat
  /\ lacks ":" "80" = true
  /\ (exists host, long_endpoint = (host ++ String ":" "80")%string
                   /\ String.length host = 253%nat)
  /\ parse_endpoint long_endpoint = TooLong
  /\ run_main ["bindwrap"; "/bin/app"] [entry INET_BIND_VAR long_endpoint]
              [resolved [ {| ai_family := 2; ai_addr := "0.0.0.0" |} ]]
     = (Exit EXIT_FAILURE, [Out (D_addr_too_long long_endpoint)]).
Proof.
  split; [reflexivity|]. split; [reflexivity|]. split.
  - exists (substring 0 253 long_endpoint). split; reflexivity.
  - split; reflexivity.
Qed.

(** *** The oversized path *)

Lemma bind_bind {A B C} (m : M A) (f : A -> M B) (g : B -> M C) (s : sys) :
  bind (bind m f) g s = bind m (fun a => bind (f a) g) s.
Proof. unfold bind. destruct (m s) as [[a|out] s1]; reflexivity. Qed.

(** C6, as the code has it: the [PF_UNIX] socket is created first.  When
    that succeeded and the path has 108 characters or more, so that it
    does not fit the 108-byte [sun_path] with its terminator, the run ends
    with the "path too long" diagnostic and [EXIT_FAILURE]; nothing is
    bound. *)
Theorem oversized_path_rejected_after_socket :
  forall (argv environ : list string) (path : string) (r : reply)
         (o : list reply),
    getenv UNIX_BIND_VAR environ = Some path ->
    (SUN_PATH_SIZE <= strlen path)%nat ->
    0 <= rv r ->
    run_main argv environ (r :: o)
    = (Exit EXIT_FAILURE,
       [Ev (Socket PF_UNIX) r; Out (D_path_too_long path)]).
Proof.
  intros argv environ path r o Hu Hlen Hr.
  unfold run_main, main. rewrite Hu. unfold unix_socket.
  rewrite bind_bind.
  rewrite (bind_syscall_answered _ _ (start (r :: o)) r o eq_refl).
  destruct (Z.ltb_spec (rv r) 0); [lia|].
  pose proof (trunc_strncpy_flag path SUN_PATH_SIZE
                ltac:(unfold SUN_PATH_SIZE; lia)) as F.
  destruct (trunc_strncpy path SUN_PATH_SIZE) as [buf tr]. cbn [snd] in F.
  apply Nat.leb_le in Hlen. rewrite Hlen in F. subst tr. reflexivity.
Qed.

Lemma oversized_path_rejected_after_socket_witness :
  run_main ["bindwrap"; "/bin/app"] [entry UNIX_BIND_VAR long_path]
           [answer 3 0; answer 0 0]
  = (Exit EXIT_FAILURE,
     [Ev (Socket PF_UNIX) (answer 3 0); Out (D_path_too_long long_path)]).
Proof.
  apply (oversized_path_rejected_after_socket
           ["bindwrap"; "/bin/app"] [entry UNIX_BIND_VAR long_path]
           long_path (answer 3 0) [answer 0 0]).
  - reflexivity.
  - unfold SUN_PATH_SIZE. cbn. lia.
  - cbn. lia.
Defined.

(** A path of 109 characters: the socket exists (descriptor 3) when the
    failure is reported. *)
Lemma socket_created_before_path_check :
  String.length long_path = 109%nat
  /\ run_main ["bindwrap"; "/bin/app"] [entry UNIX_BIND_VAR long_path]
              [answer 3 0]
     = (Exit EXIT_FAILURE,
        [Ev (Socket PF_UNIX) (answer 3 0); Out (D_path_too_long long_path)]).
Proof. split; reflexivity. Qed.

(** *** The choice between the two variables *)

Lemma getenv_skip (name x : string) (e1 e2 : list string) :
  after_name name x = None ->
  getenv name (e1 ++ x :: e2) = getenv name (e1 ++ e2).
Proof.
  intros H. induction e1 as [|e e1 IH]; cbn [app getenv].
  - rewrite H. reflexivity.
  - rewrite IH. reflexivity.
Qed.

Lemma copy_env_skip_inet (inet : string) (e1 e2 : list string) :
  copy_env (e1 ++ entry INET_BIND_VAR inet :: e2) = copy_env (e1 ++ e2).
Proof.
  rewrite !copy_env_app. f_equal.
Qed.

(** C5, as the code has it: with neither variable the run ends at once
    with the "must specify" diagnostic and [EXIT_FAILURE]; with
    [FASTCGI4J_UNIX_BIND] present the run is the same whether or not
    [FASTCGI4J_INET_BIND] is present too, whatever its value, and starts
    by creating the [PF_UNIX] socket; with [FASTCGI4J_INET_BIND] alone the
    run starts by resolving the endpoint. *)
Theorem bind_variable_selection :
  forall (argv environ e1 e2 e3 : list string) (inet path inet3 : string)
         (node : option string) (service : string) (o : list reply),
    getenv UNIX_BIND_VAR environ = None ->
    getenv INET_BIND_VAR environ = None ->
    getenv UNIX_BIND_VAR (e1 ++ e2) = Some path ->
    getenv UNIX_BIND_VAR e3 = None ->
    getenv INET_BIND_VAR e3 = Some inet3 ->
    parse_endpoint inet3 = Split node service ->
    run_main argv environ o = (Exit EXIT_FAILURE, [Out D_must_specify])
    /\ run_main argv (e1 ++ entry INET_BIND_VAR inet :: e2) o
       = run_main argv (e1 ++ e2) o
    /\ run_main argv (e1 ++ entry INET_BIND_VAR inet :: e2) []
       = (NoReturn (Socket PF_UNIX), [])
    /\ run_main argv e3 [] = (NoReturn (Getaddrinfo node service), []).
Proof.
  intros argv environ e1 e2 e3 inet path inet3 node service o
         Hu Hi Hp Hu3 Hi3 Hparse.
  assert (Hu' : getenv UNIX_BIND_VAR (e1 ++ entry INET_BIND_VAR inet :: e2)
                = Some path).
  { rewrite getenv_skip; [exact Hp | reflexivity]. }
  split; [|split; [|split]].
  - unfold run_main, main. rewrite Hu, Hi. reflexivity.
  - unfold run_main, main, launch, unix_socket.
    rewrite Hu', Hp, copy_env_skip_inet.
    rewrite (getenv_skip UNIX_PEER_VAR (entry INET_BIND_VAR inet) e1 e2 eq_refl).
    reflexivity.
  - unfold run_main, main. rewrite Hu'. reflexivity.
  - unfold run_main, main. rewrite Hu3, Hi3. unfold bind at 1.
    rewrite (inet_socket_resolves inet3 (start []) node service Hparse eq_refl).
    reflexivity.
Qed.

Lemma bind_variable_selection_witness :
  run_main ["bindwrap"; "/bin/app"] ["PATH=/bin"] []
  = (Exit EXIT_FAILURE, [Out D_must_specify])
  /\ run_main ["bindwrap"; "/bin/app"]
              (["PATH=/bin"] ++ entry INET_BIND_VAR "localhost:80"
                 :: [entry UNIX_BIND_VAR "/tmp/test.sock"]) []
     = run_main ["bindwrap"; "/bin/app"]
                (["PATH=/bin"] ++ [entry UNIX_BIND_VAR "/tmp/test.sock"]) []
  /\ run_main ["bindwrap"; "/bin/app"]
              (["PATH=/bin"] ++ entry INET_BIND_VAR "localhost:80"
                 :: [entry UNIX_BIND_VAR "/tmp/test.sock"]) []
     = (NoReturn (Socket PF_UNIX), [])
  /\ run_main ["bindwrap"; "/bin/app"] [entry INET_BIND_VAR "localhost:80"] []
     = (NoReturn (Getaddrinfo (Some "localhost") "80"), []).
Proof.
  apply (bind_variable_selection
           ["bindwrap"; "/bin/app"] ["PATH=/bin"] ["PATH=/bin"]
           [entry UNIX_BIND_VAR "/tmp/test.sock"]
           [entry INET_BIND_VAR "localhost:80"] "localhost:80"
           "/tmp/test.sock" "localhost:80" (Some "localhost") "80" []);
    reflexivity.
Defined.

(** Both variables set: no diagnostic, and the worker is launched on the
    [PF_UNIX] socket. *)
Lemma both_variables_accepted :
  getenv UNIX_BIND_VAR
         ["FASTCGI4J_UNIX_BIND=/tmp/test.sock";
          "FASTCGI4J_INET_BIND=localhost:80"] = Some "/tmp/test.sock"
  /\ getenv INET_BIND_VAR
            ["FASTCGI4J_UNIX_BIND=/tmp/test.sock";
             "FASTCGI4J_INET_BIND=localhost:80"] = Some "localhost:80"
  /\ fst (run_main ["bindwrap"; "/bin/app"]
                   ["FASTCGI4J_UNIX_BIND=/tmp/test.sock";
                    "FASTCGI4J_INET_BIND=localhost:80"]
                   [answer 3 0; answer 0 0; answer 0 0; answer 0 0;
                    answer 0 0; answer 0 0; answer 4 0; answer 0 0])
     = NoReturn (Execve (Some "/bin/app") ["/bin/app"] [])
  /\ diagnostics
       (snd (run_main ["bindwrap"; "/bin/app"]
                      ["FASTCGI4J_UNIX_BIND=/tmp/test.sock";
                       "FASTCGI4J_INET_BIND=localhost:80"]
                      [answer 3 0; answer 0 0; answer 0 0; answer 0 0;
                       answer 0 0; answer 0 0; answer 4 0; answer 0 0]))
     = [].
Proof. repeat split. Qed.

(** *** The candidate addresses *)

Lemma try_candidates_fail (ai : addrinfo) (a : attempt)
      (next : list addrinfo) (sock mom fam : Z) (s : sys) (o : list reply) :
  failed a -> oracle s = replies_of a ++ o ->
  try_candidates (ai :: next) sock mom fam s
  = try_candidates next (sock_after a) (mom_after a)
      (to_sa_family (ai_family ai))
      {| oracle := o; errno := errno_of a;
         trace := trace s ++ events_of ai a |}.
Proof.
  intros Hf Ho. cbn [try_candidates].
  destruct a as [r | r rb rc | r rb]; cbn in Hf, Ho; [| |contradiction].
  - rewrite (bind_syscall_answered _ _ s r o Ho).
    destruct (Z.ltb_spec (rv r) 0); [reflexivity | lia].
  - destruct Hf as [Hr Hrb].
    rewrite (bind_syscall_answered _ _ s r (rb :: rc :: o) Ho).
    destruct (Z.ltb_spec (rv r) 0); [lia|].
    rewrite (bind_syscall_answered _ _ _ rb (rc :: o)) by reflexivity.
    destruct (Z.ltb_spec (rv rb) 0); [|lia].
    unfold bind at 1, get_errno at 1. cbn [errno].
    rewrite (bind_syscall_answered _ _ _ rc o) by reflexivity.
    unfold bind at 1, set_errno at 1. cbn [oracle trace errno_of events_of].
    rewrite <- !app_assoc. reflexivity.
Qed.

Lemma try_candidates_bound (ai : addrinfo) (r rb : reply)
      (next : list addrinfo) (sock mom fam : Z) (s : sys) (o : list reply) :
  consistent (Bound r rb) -> oracle s = r :: rb :: o ->
  try_candidates (ai :: next) sock mom fam s
  = (Val (rv r, mom, to_sa_family (ai_family ai)),
     {| oracle := o; errno := rerrno rb;
        trace := trace s ++ events_of ai (Bound r rb) |}).
Proof.
  intros [Hr Hrb] Ho. cbn [try_candidates].
  rewrite (bind_syscall_answered _ _ s r (rb :: o) Ho).
  destruct (Z.ltb_spec (rv r) 0); [lia|].
  rewrite (bind_syscall_answered _ _ _ rb o) by reflexivity.
  destruct (Z.ltb_spec (rv rb) 0); [lia|].
  cbn. rewrite <- app_assoc. reflexivity.
Qed.

(** The candidates that fail are passed over in order, each leaving its
    calls in the trace. *)
Lemma try_candidates_skip (tries : list (addrinfo * attempt))
      (next : list addrinfo) (sock mom fam : Z) (s : sys) (o : list reply) :
  Forall (fun p => failed (snd p)) tries ->
  oracle s = all_replies tries ++ o ->
  exists sock' mom' fam' e',
    try_candidates (map fst tries ++ next) sock mom fam s
    = try_candidates next sock' mom' fam'
        {| oracle := o; errno := e'; trace := trace s ++ all_events tries |}.
Proof.
  intros Hf. revert sock mom fam s.
  induction Hf as [|[ai a] tries Ha _ IH]; intros sock mom fam s Ho.
  - exists sock, mom, fam, (errno s). cbn. rewrite app_nil_r.
    cbn in Ho. destruct s; cbn in *. subst. reflexivity.
  - cbn [map fst app].
    change (all_replies ((ai, a) :: tries))
      with (replies_of a ++ all_replies tries) in Ho.
    rewrite <- app_assoc in Ho.
    rewrite (try_candidates_fail ai a _ sock mom fam s _ Ha Ho).
    destruct (IH (sock_after a) (mom_after a) (to_sa_family (ai_family ai))
                 {| oracle := all_replies tries ++ o; errno := errno_of a;
                    trace := trace s ++ events_of ai a |} eq_refl)
      as (sock' & mom' & fam' & e' & ->).
    exists sock', mom', fam', e'.
    change (all_events ((ai, a) :: tries))
      with (events_of ai a ++ all_events tries).
    cbn [trace]. rewrite <- app_assoc. reflexivity.
Qed.

(** C8: the candidates are tried in the order of the resolver's list,
    each with [socket] and then [bind]; the candidates after the first
    success are not touched.  When the last candidate has failed too, the
    diagnostic tells which call failed for it.  For [socket] it names the
    family of that last candidate, as the 16 bits of a [sa_family_t] hold
    it: [PF_INET] for the family 2 and [PF_INET6] for every other one,
    with the error of that [socket].  For [bind] it names no family: it
    carries the error [bind] left, whatever [close] did to [errno]
    afterwards, and the endpoint as it was configured. *)
Theorem candidates_tried_in_order :
  forall (addr : string) (node : option string) (service : string)
         (s : sys) (rg : reply) (tries : list (addrinfo * attempt))
         (ai : addrinfo) (a : attempt) (next : list addrinfo)
         (o : list reply),
    parse_endpoint addr = Split node service ->
    oracle s = rg :: all_replies tries ++ replies_of a ++ o ->
    rv rg = 0 ->
    addrs rg = map fst tries ++ ai :: next ->
    Forall (fun p => failed (snd p)) tries ->
    consistent a ->
    (failed a -> next = []) ->
    inet_socket addr s
    = (match a with
       | Bound r _ => Val (rv r)
       | _ => Halt (Exit EXIT_FAILURE)
       end,
       {| oracle := o;
          errno := errno_of a;
          trace := trace s
                   ++ Ev (Getaddrinfo node service) rg
                   :: all_events tries
                   ++ events_of ai a
                   ++ match a with
                      | SocketFails r =>
                          [Out (D_inet_socket
                                  (if ai_family ai mod 65536 =? 2
                                   then "PF_INET" else "PF_INET6")
                                  (rerrno r))]
                      | BindFails _ rb _ =>
                          [Out (D_bind_in (rerrno rb) addr)]
                      | Bound _ _ => []
                      end |}).
Proof.
  intros addr node service s rg tries ai a next o Hp Ho Hrg Hres Hf Ha Hlast.
  unfold parse_endpoint in Hp. unfold inet_socket.
  destruct (trunc_strncpy addr INET_BUF_SIZE) as [buf [|]]; [discriminate|].
  destruct (split_endpoint buf) as [[n sv]|]; [|discriminate].
  injection Hp as -> ->.
  rewrite (bind_syscall_answered _ _ s rg _ Ho).
  rewrite Hrg, Hres. clear Hres. cbn [Z.eqb negb].
  destruct (map fst tries ++ ai :: next) as [|x l] eqn:E;
    [destruct (map fst tries); discriminate|].
  rewrite <- E. clear E x l.
  unfold bind at 1.
  match goal with |- context [try_candidates _ _ _ _ ?s1] =>
    destruct (try_candidates_skip tries (ai :: next) (-1) 0 0 s1
                (replies_of a ++ o) Hf eq_refl)
      as (sock' & mom' & fam' & e' & ->) end.
  cbn [trace].
  destruct a as [r | r rb rc | r rb].
  - rewrite (Hlast Ha).
    rewrite (try_candidates_fail ai (SocketFails r) [] sock' mom' fam' _ o Ha)
      by reflexivity.
    cbn in Ha. cbn [try_candidates ret sock_after mom_after].
    destruct (Z.ltb_spec (rv r) 0); [|lia].
    cbn. rewrite <- !app_assoc. reflexivity.
  - rewrite (Hlast Ha).
    rewrite (try_candidates_fail ai (BindFails r rb rc) [] sock' mom' fam' _ o
               Ha) by reflexivity.
    cbn. rewrite <- !app_assoc. reflexivity.
  - rewrite (try_candidates_bound ai r rb next sock' mom' fam' _ o Ha)
      by reflexivity.
    destruct Ha as [Hr Hrb].
    destruct (Z.ltb_spec (rv r) 0); [lia|].
    cbn. rewrite <- !app_assoc. reflexivity.
Qed.

Lemma candidates_tried_in_order_witness :
  inet_socket "localhost:80"
    (start [resolved [ {| ai_family := 10; ai_addr := "::1" |};
                       {| ai_family := 2; ai_addr := "127.0.0.1" |} ];
            answer 3 0; answer (-1) 98; answer (-1) 9; answer (-1) 97])
  = (Halt (Exit EXIT_FAILURE),
     {| oracle := [];
        errno := 97;
        trace :=
          [Ev (Getaddrinfo (Some "localhost") "80")
              (resolved [ {| ai_family := 10; ai_addr := "::1" |};
                          {| ai_family := 2; ai_addr := "127.0.0.1" |} ]);
           Ev (Socket 10) (answer 3 0);
           Ev (BindIn 3 "::1") (answer (-1) 98);
           Ev (Close 3) (answer (-1) 9);
           Ev (Socket 2) (answer (-1) 97);
           Out (D_inet_socket "PF_INET" 97)] |}).
Proof.
  apply (candidates_tried_in_order
           "localhost:80" (Some "localhost") "80"
           (start [resolved [ {| ai_family := 10; ai_addr := "::1" |};
                              {| ai_family := 2; ai_addr := "127.0.0.1" |} ];
                   answer 3 0; answer (-1) 98; answer (-1) 9; answer (-1) 97])
           (resolved [ {| ai_family := 10; ai_addr := "::1" |};
                       {| ai_family := 2; ai_addr := "127.0.0.1" |} ])
           [({| ai_family := 10; ai_addr := "::1" |},
             BindFails (answer 3 0) (answer (-1) 98) (answer (-1) 9))]
           {| ai_family := 2; ai_addr := "127.0.0.1" |}
           (SocketFails (answer (-1) 97))
           [] []).
  - reflexivity.
  - reflexivity.
  - reflexivity.
  - reflexivity.
  - repeat constructor; cbn; lia.
  - cbn. lia.
  - reflexivity.
Defined.

(** The report of a [bind] that failed for the last candidate is the same
    whether that candidate was of the family [PF_INET] (2) or [PF_INET6]
    (10): it names no family. *)
Lemma bind_failure_report_names_no_family :
  run_main ["bindwrap"; "/bin/app"] ["FASTCGI4J_INET_BIND=localhost:80"]
    [resolved [ {| ai_family := 2; ai_addr := "127.0.0.1" |} ];
     answer 3 0; answer (-1) 98; answer 0 0]
  = (Exit EXIT_FAILURE,
     [Ev (Getaddrinfo (Some "localhost") "80")
         (resolved [ {| ai_family := 2; ai_addr := "127.0.0.1" |} ]);
      Ev (Socket 2) (answer 3 0);
      Ev (BindIn 3 "127.0.0.1") (answer (-1) 98);
      Ev (Close 3) (answer 0 0);
      Out (D_bind_in 98 "localhost:80")])
  /\ run_main ["bindwrap"; "/bin/app"] ["FASTCGI4J_INET_BIND=localhost:80"]
       [resolved [ {| ai_family := 10; ai_addr := "::1" |} ];
        answer 3 0; answer (-1) 98; answer 0 0]
     = (Exit EXIT_FAILURE,
        [Ev (Getaddrinfo (Some "localhost") "80")
            (resolved [ {| ai_family := 10; ai_addr := "::1" |} ]);
         Ev (Socket 10) (answer 3 0);
         Ev (BindIn 3 "::1") (answer (-1) 98);
         Ev (Close 3) (answer 0 0);
         Out (D_bind_in 98 "localhost:80")])
  /\ diagnostics
       (snd (run_main ["bindwrap"; "/bin/app"]
               ["FASTCGI4J_INET_BIND=localhost:80"]
               [resolved [ {| ai_family := 2; ai_addr := "127.0.0.1" |} ];
                answer 3 0; answer (-1) 98; answer 0 0]))
     = diagnostics
         (snd (run_main ["bindwrap"; "/bin/app"]
                 ["FASTCGI4J_INET_BIND=localhost:80"]
                 [resolved [ {| ai_family := 10; ai_addr := "::1" |} ];
                  answer 3 0; answer (-1) 98; answer 0 0])).
Proof. repeat split. Qed.

Example first_success_wins :
  run_main ["bindwrap"; "/bin/app"] ["FASTCGI4J_INET_BIND=localhost:80"]
    [resolved [ {| ai_family := 2; ai_addr := "127.0.0.1" |};
                {| ai_family := 10; ai_addr := "::1" |};
                {| ai_family := 2; ai_addr := "10.0.0.1" |} ];
     answer (-1) 97; answer 0 0; answer 0 0; answer 0 0]
  = (NoReturn (Execve (Some "/bin/app") ["/bin/app"] []),
     [Ev (Getaddrinfo (Some "localhost") "80")
         (resolved [ {| ai_family := 2; ai_addr := "127.0.0.1" |};
                     {| ai_family := 10; ai_addr := "::1" |};
                     {| ai_family := 2; ai_addr := "10.0.0.1" |} ]);
      Ev (Socket 2) (answer (-1) 97);
      Ev (Socket 10) (answer 0 0);
      Ev (BindIn 0 "::1") (answer 0 0);
      Ev (Listen 0 5) (answer 0 0)]).
Proof. reflexivity. Qed.

Example last_socket_failure_names_family :
  snd (run_main ["bindwrap"; "/bin/app"] ["FASTCGI4J_INET_BIND=localhost:80"]
         [resolved [ {| ai_family := 10; ai_addr := "::1" |};
                     {| ai_family := 2; ai_addr := "127.0.0.1" |} ];
          answer 3 0; answer (-1) 98; answer 0 0; answer (-1) 97])
  = [Ev (Getaddrinfo (Some "localhost") "80")
        (resolved [ {| ai_family := 10; ai_addr := "::1" |};
                    {| ai_family := 2; ai_addr := "127.0.0.1" |} ]);
     Ev (Socket 10) (answer 3 0);
     Ev (BindIn 3 "::1") (answer (-1) 98);
     Ev (Close 3) (answer 0 0);
     Ev (Socket 2) (answer (-1) 97);
     Out (D_inet_socket "PF_INET" 97)].
Proof. reflexivity. Qed.

End BindwrapFacts.

(** * Further facts about [bindwrap.c] *)

Module SupervisorFacts.
Import CString Bindwrap BindwrapFacts.

(** *** [match_var] and the copy of the environment, exactly *)

Lemma match_var_accepts (vname e : string) :
  match_var vname e = true ->
  exists n v rest,
    e = entry n v /\ vname = (n ++ rest)%string
    /\ lacks "=" n = true /\ lacks NUL n = true.
Proof.
  revert e. induction vname as [|a vname IH]; intros [|b e] H;
    cbn [match_var] in H; try discriminate.
  - apply Ascii.eqb_eq in H. subst b.
    exists "", e, "". repeat split.
  - destruct (Ascii.eqb a b && negb (is_nul a) && negb (is_nul b)
              && negb (Ascii.eqb b "=")) eqn:C.
    + apply andb_true_iff in C as [C Hb]. apply andb_true_iff in C as [C Hn].
      apply andb_true_iff in C as [Hab Ha]. apply Ascii.eqb_eq in Hab. subst b.
      destruct (IH e H) as (n & v & rest & -> & -> & Hl & Hl0).
      exists (String a n), v, rest. cbn. unfold is_nul in Hn.
      rewrite Hb, Hn, Hl, Hl0. repeat split.
    + apply Ascii.eqb_eq in H. subst b.
      exists "", e, (String a vname). repeat split.
Qed.

(** X1: [match_var vname e] holds exactly when [e] is an entry [n=v]
    whose name [n] is an initial part of [vname]: the whole name or any
    shorter beginning of it, the empty one included. *)
Theorem match_var_exactly :
  forall vname e : string,
    match_var vname e = true
    <-> exists n v rest,
          e = entry n v /\ vname = (n ++ rest)%string
          /\ lacks "=" n = true /\ lacks NUL n = true.
Proof.
  intros vname e. split; [apply match_var_accepts|].
  intros (n & v & rest & -> & -> & Hl & Hl0).
  apply match_var_initial_part; assumption.
Qed.

Lemma initial_part_append (n s : string) :
  initial_part n s = true <-> exists rest, s = (n ++ rest)%string.
Proof.
  revert s. induction n as [|c n IH]; intros s.
  - cbn. split; [intros _; exists s; reflexivity | intros _; reflexivity].
  - destruct s as [|d s]; cbn.
    + split; [discriminate | intros (rest & H); discriminate].
    + rewrite andb_true_iff, Ascii.eqb_eq, IH. split.
      * intros (-> & rest & ->). exists rest. reflexivity.
      * intros (rest & H). injection H as -> ->. split; [reflexivity|].
        exists rest. reflexivity.
Qed.

Lemma entry_name_unique (n n' v v' : string) :
  lacks "=" n = true -> lacks "=" n' = true ->
  entry n v = entry n' v' -> n = n'.
Proof.
  unfold entry. revert n'. induction n as [|c n IH]; intros [|c' n'] H H' E;
    cbn in *.
  - reflexivity.
  - injection E as <- _. cbn in H'. discriminate.
  - injection E as -> _. cbn in H. discriminate.
  - injection E as <- E. apply andb_true_iff in H as [_ H].
    apply andb_true_iff in H' as [_ H']. f_equal. apply (IH n' H H' E).
Qed.

(** X2: what the environment of the launched program holds.  An entry
    [n=v] is passed on exactly when it is in the environment and [n] is
    an initial part of neither bind variable's name; a string without
    ['='] is always passed on. *)
Theorem copy_env_exactly :
  forall (environ : list string) (n v plain : string),
    lacks "=" n = true -> lacks NUL n = true ->
    lacks "=" plain = true ->
    (In (entry n v) (copy_env environ)
     <-> In (entry n v) environ
         /\ initial_part n UNIX_BIND_VAR = false
         /\ initial_part n INET_BIND_VAR = false)
    /\ (In plain (copy_env environ) <-> In plain environ).
Proof.
  intros environ n v plain Hn Hn0 Hp.
  assert (K : forall vname,
             match_var vname (entry n v) = initial_part n vname).
  { intros vname. destruct (initial_part n vname) eqn:P.
    - apply initial_part_append in P as (rest & ->).
      apply match_var_initial_part; assumption.
    - destruct (match_var vname (entry n v)) eqn:Mv; [|reflexivity].
      apply match_var_accepts in Mv as (n' & v' & rest & E & -> & Hl & _).
      apply entry_name_unique in E; [|assumption..]. subst n'.
      assert (initial_part n (n ++ rest) = true)
        by (apply initial_part_append; eexists; reflexivity).
      congruence. }
  split.
  - rewrite copy_env_In, !K. reflexivity.
  - rewrite copy_env_In, !match_var_needs_equals by exact Hp. tauto.
Qed.

Lemma copy_env_exactly_witness :
  (In (entry "PATH" "/bin")
      (copy_env ["PATH=/bin"; "FASTCGI4J_UNIX_BIND=/s"; "novalue"])
   <-> In (entry "PATH" "/bin")
          ["PATH=/bin"; "FASTCGI4J_UNIX_BIND=/s"; "novalue"]
       /\ initial_part "PATH" UNIX_BIND_VAR = false
       /\ initial_part "PATH" INET_BIND_VAR = false)
  /\ (In "novalue" (copy_env ["PATH=/bin"; "FASTCGI4J_UNIX_BIND=/s"; "novalue"])
      <-> In "novalue" ["PATH=/bin"; "FASTCGI4J_UNIX_BIND=/s"; "novalue"]).
Proof.
  apply (copy_env_exactly ["PATH=/bin"; "FASTCGI4J_UNIX_BIND=/s"; "novalue"]
           "PATH" "/bin" "novalue"); reflexivity.
Defined.

(** X3: the copy works entry by entry: it distributes over
    concatenation, copying a copy changes nothing, and the copy is never
    longer than the original. *)
Theorem copy_env_is_filter :
  forall e1 e2 : list string,
    copy_env (e1 ++ e2) = copy_env e1 ++ copy_env e2
    /\ copy_env (copy_env e1) = copy_env e1
    /\ (List.length (copy_env e1) <= List.length e1)%nat.
Proof.
  intros e1 e2. split; [apply copy_env_app|]. split.
  - induction e1 as [|p e1 IH]; [reflexivity|].
    cbn [copy_env].
    destruct (match_var UNIX_BIND_VAR p) eqn:Hu; [exact IH|].
    destruct (match_var INET_BIND_VAR p) eqn:Hi; [exact IH|].
    cbn [copy_env]. rewrite Hu, Hi, IH. reflexivity.
  - induction e1 as [|p e1 IH]; [cbn; lia|].
    cbn [copy_env].
    destruct (match_var UNIX_BIND_VAR p); [cbn; lia|].
    destruct (match_var INET_BIND_VAR p); cbn; lia.
Qed.

(** *** [trunc_strncpy] *)

Lemma strncpy_length (src : string) (lim : nat) :
  List.length (strncpy src lim) = lim.
Proof.
  revert src. induction lim as [|lim IH]; intros src; [reflexivity|].
  cbn [strncpy]. destruct src as [|c s]; [|destruct (is_nul c)];
    cbn [List.length]; rewrite IH; reflexivity.
Qed.

Lemma string_of_strncpy (src : string) (lim : nat) :
  (strlen src < lim)%nat -> string_of_buf (strncpy src lim) = cstr src.
Proof.
  revert lim. induction src as [|c s IH]; intros [|lim] H; cbn in H; try lia.
  - reflexivity.
  - cbn [strncpy strlen cstr] in *. destruct (is_nul c) eqn:E.
    + cbn. reflexivity.
    + cbn [string_of_buf]. rewrite E, IH by lia. reflexivity.
Qed.

Lemma trunc_strncpy_spec :
  forall (src : string) (lim : nat),
    (0 < lim)%nat ->
    List.length (fst (trunc_strncpy src lim)) = lim
    /\ (snd (trunc_strncpy src lim) = true <-> (lim <= strlen src)%nat)
    /\ (snd (trunc_strncpy src lim) = false ->
        string_of_buf (fst (trunc_strncpy src lim)) = cstr src
        /\ nth (lim - 1) (fst (trunc_strncpy src lim)) NUL = NUL).
Proof.
  intros src lim H. rewrite trunc_strncpy_flag by exact H.
  rewrite trunc_strncpy_buf. split; [apply strncpy_length|]. split.
  - apply Nat.leb_le.
  - intros F. apply Nat.leb_gt in F. split; [apply string_of_strncpy, F|].
    pose proof (trunc_strncpy_flag src lim H) as G.
    unfold trunc_strncpy in G. cbn [snd] in G.
    apply Nat.leb_gt in F. rewrite F in G.
    apply negb_false_iff in G. unfold is_nul in G.
    apply Ascii.eqb_eq in G. exact G.
Qed.

(** X4: [trunc_strncpy] fills exactly [lim] characters and reports
    truncation exactly when the source has [lim] characters or more; when
    it reports none, the buffer holds the source as a C string and its
    last character is NUL. *)
Theorem trunc_strncpy_detects_truncation :
  forall (src : string) (lim : nat),
    (0 < lim)%nat ->
    List.length (fst (trunc_strncpy src lim)) = lim
    /\ (snd (trunc_strncpy src lim) = true <-> (lim <= strlen src)%nat)
    /\ (snd (trunc_strncpy src lim) = false ->
        string_of_buf (fst (trunc_strncpy src lim)) = cstr src
        /\ nth (lim - 1) (fst (trunc_strncpy src lim)) NUL = NUL).
Proof. exact trunc_strncpy_spec. Qed.

Lemma trunc_strncpy_detects_truncation_witness :
  List.length (fst (trunc_strncpy "abc" 4)) = 4%nat
  /\ (snd (trunc_strncpy "abc" 4) = true <-> (4 <= strlen "abc")%nat)
  /\ (snd (trunc_strncpy "abc" 4) = false ->
      string_of_buf (fst (trunc_strncpy "abc" 4)) = cstr "abc"
      /\ nth (4 - 1) (fst (trunc_strncpy "abc" 4)) NUL = NUL).
Proof.
  apply (trunc_strncpy_detects_truncation "abc" 4). lia.
Defined.


(** *** The socket for a path *)

(** X5: for a path that fits, once [socket] and [bind] have succeeded,
    the mode of the path is changed (to 0777, result ignored) exactly
    when the environment defines [FASTCGI4J_WEB_SERVER_ADDRS], the
    variable the source calls [UNIX_PEER_VAR], whatever its value;
    otherwise no [chmod] is made.  Either way the descriptor of the
    socket is the result. *)
Theorem unix_socket_permissions :
  forall (path : string) (environ : list string) (s : sys)
         (r rb rc : reply) (o : list reply),
    (strlen path < SUN_PATH_SIZE)%nat ->
    0 <= rv r -> 0 <= rv rb ->
    oracle s = r :: rb :: rc :: o ->
    unix_socket path environ s
    = (Val (rv r),
       match getenv "FASTCGI4J_WEB_SERVER_ADDRS" environ with
       | Some _ =>
           {| oracle := o; errno := rerrno rc;
              trace := trace s
                       ++ [Ev (Socket PF_UNIX) r;
                           Ev (BindUn (rv r) (strncpy path SUN_PATH_SIZE)) rb;
                           Ev (Chmod (cstr path) MODE_RWX_ALL) rc] |}
       | None =>
           {| oracle := rc :: o; errno := rerrno rb;
              trace := trace s
                       ++ [Ev (Socket PF_UNIX) r;
                           Ev (BindUn (rv r) (strncpy path SUN_PATH_SIZE))
                              rb] |}
       end).
Proof.
  intros path environ s r rb rc o Hlen Hr Hrb Ho.
  unfold unix_socket.
  rewrite (bind_syscall_answered _ _ s r _ Ho).
  destruct (Z.ltb_spec (rv r) 0); [lia|].
  destruct (trunc_strncpy_spec path SUN_PATH_SIZE
              ltac:(unfold SUN_PATH_SIZE; lia)) as (_ & Hflag & Hbuf).
  pose proof (trunc_strncpy_buf path SUN_PATH_SIZE) as Hfst.
  destruct (trunc_strncpy path SUN_PATH_SIZE) as [buf tr]. cbn [fst snd] in *.
  destruct tr; [apply proj1 in Hflag; specialize (Hflag eq_refl); lia|].
  destruct (Hbuf eq_refl) as [Hstr Hnul]. subst buf.
  unfold bind at 1, assert at 1. unfold is_nul. rewrite Hnul.
  change (Ascii.eqb NUL NUL) with true. cbv iota. unfold ret at 1.
  rewrite (bind_syscall_answered _ _ _ rb (rc :: o)) by reflexivity.
  destruct (Z.ltb_spec (rv rb) 0); [lia|].
  change UNIX_PEER_VAR with "FASTCGI4J_WEB_SERVER_ADDRS".
  destruct (getenv "FASTCGI4J_WEB_SERVER_ADDRS" environ).
  - rewrite (bind_syscall_answered _ _ _ rc o) by reflexivity.
    rewrite Hstr. cbn. rewrite <- !app_assoc. reflexivity.
  - cbn. rewrite <- !app_assoc. reflexivity.
Qed.

Lemma unix_socket_permissions_witness :
  unix_socket "/tmp/test.sock" ["FASTCGI4J_WEB_SERVER_ADDRS="]
              (start [answer 3 0; answer 0 0; answer 0 0])
  = (Val 3,
     {| oracle := []; errno := 0;
        trace := [Ev (Socket PF_UNIX) (answer 3 0);
                  Ev (BindUn 3 (strncpy "/tmp/test.sock" SUN_PATH_SIZE))
                     (answer 0 0);
                  Ev (Chmod "/tmp/test.sock" MODE_RWX_ALL) (answer 0 0)] |}).
Proof.
  apply (unix_socket_permissions
           "/tmp/test.sock" ["FASTCGI4J_WEB_SERVER_ADDRS="]
           (start [answer 3 0; answer 0 0; answer 0 0])
           (answer 3 0) (answer 0 0) (answer 0 0) []).
  - unfold SUN_PATH_SIZE. cbn. lia.
  - cbn. lia.
  - cbn. lia.
  - reflexivity.
Defined.

(** *** Signals and interrupted waits *)

Lemma parent_loop_delivery (fuel : nat) (sigfd chid : Z) (path : string)
      (s : sys) (d : reply * reply) (o : list reply) :
  delivered d -> oracle s = delivery_replies d ++ o ->
  exists e,
    parent_loop (S fuel) sigfd chid path s
    = parent_loop fuel sigfd chid path
        {| oracle := o; errno := e;
           trace := trace s ++ delivery_events sigfd chid d |}.
Proof.
  destruct d as [rs rk]. unfold delivered, delivery_replies, delivery_events.
  cbn [fst snd]. intros [Hrv Hsig] Ho.
  destruct (Z.eqb_spec (ssi_signo rs) SIGTERM) as [Ht|Ht].
  - exists (rerrno rk).
    apply (parent_loop_terminate fuel sigfd chid path s rs rk o Ho Hrv Ht).
  - exists (rerrno rs). cbn [parent_loop].
    rewrite (bind_syscall_answered _ _ s rs o Ho). rewrite Hrv.
    change (SIGINFO_SIZE <? 0) with false.
    change (SIGINFO_SIZE =? SIGINFO_SIZE) with true. cbv iota.
    unfold bind at 1, assert at 1, ret at 1.
    destruct (Z.eqb_spec (ssi_signo rs) SIGTERM); [contradiction|].
    destruct (Z.eqb_spec (ssi_signo rs) SIGCHLD); [contradiction|].
    destruct ((ssi_signo rs =? SIGINT) || (ssi_signo rs =? SIGHUP));
      reflexivity.
Qed.

Lemma parent_loop_deliveries (ds : list (reply * reply)) :
  forall (fuel : nat) (sigfd chid : Z) (path : string) (s : sys)
         (o : list reply),
    Forall delivered ds ->
    oracle s = flat_map delivery_replies ds ++ o ->
    exists e,
      parent_loop (List.length ds + fuel) sigfd chid path s
      = parent_loop fuel sigfd chid path
          {| oracle := o; errno := e;
             trace := trace s ++ flat_map (delivery_events sigfd chid) ds |}.
Proof.
  induction ds as [|d ds IH]; intros fuel sigfd chid path s o Hd Ho.
  - exists (errno s). cbn. rewrite app_nil_r. cbn in Ho.
    destruct s; cbn in *; subst; reflexivity.
  - inversion Hd as [|? ? Hd1 Hds]; subst.
    cbn [flat_map] in Ho. rewrite <- app_assoc in Ho.
    cbn [List.length Nat.add].
    destruct (parent_loop_delivery (List.length ds + fuel) sigfd chid path s d
                _ Hd1 Ho) as (e1 & ->).
    match goal with
    | |- context [parent_loop (List.length ds + fuel) _ _ _ ?s1] =>
        destruct (IH fuel sigfd chid path s1 o Hds eq_refl) as (e & ->)
    end.
    exists e. cbn [trace flat_map]. rewrite <- app_assoc. reflexivity.
Qed.

(** X6: signals other than [SIGCHLD] never end the parent: each is read,
    [SIGTERM] alone is passed on to the child with [kill], and the parent
    is then reading again. *)
Theorem signals_alone_never_end_the_wait :
  forall (ds : list (reply * reply)) (fuel : nat) (sigfd chid : Z)
         (path : string) (s : sys),
    Forall delivered ds ->
    oracle s = flat_map delivery_replies ds ->
    exists e,
      parent_loop (List.length ds + S fuel) sigfd chid path s
      = (Halt (NoReturn (ReadSig sigfd)),
         {| oracle := []; errno := e;
            trace := trace s ++ flat_map (delivery_events sigfd chid) ds |}).
Proof.
  intros ds fuel sigfd chid path s Hd Ho.
  destruct (parent_loop_deliveries ds (S fuel) sigfd chid path s [] Hd)
    as (e & ->); [rewrite app_nil_r; exact Ho|].
  exists e. cbn [parent_loop].
  rewrite bind_syscall_unanswered by reflexivity. reflexivity.
Qed.

Lemma signals_alone_never_end_the_wait_witness :
  exists e,
    parent_loop 4 4 77 "/tmp/test.sock"
      (start [signal_read SIGTERM; answer 0 0; signal_read SIGINT;
              signal_read SIGTERM; answer 0 0])
    = (Halt (NoReturn (ReadSig 4)),
       {| oracle := []; errno := e;
          trace := [Ev (ReadSig 4) (signal_read SIGTERM);
                    Ev (Kill 77 SIGTERM) (answer 0 0);
                    Ev (ReadSig 4) (signal_read SIGINT);
                    Ev (ReadSig 4) (signal_read SIGTERM);
                    Ev (Kill 77 SIGTERM) (answer 0 0)] |}).
Proof.
  apply (signals_alone_never_end_the_wait
           [(signal_read SIGTERM, answer 0 0);
            (signal_read SIGINT, answer 0 0);
            (signal_read SIGTERM, answer 0 0)]
           0 4 77 "/tmp/test.sock"
           (start [signal_read SIGTERM; answer 0 0; signal_read SIGINT;
                   signal_read SIGTERM; answer 0 0])).
  - repeat constructor; cbn; discriminate.
  - reflexivity.
Defined.

Lemma reap_interruptions (ws : list reply) :
  forall (fuel : nat) (chid : Z) (path : string) (s : sys) (o : list reply),
    Forall interrupted ws ->
    oracle s = ws ++ o ->
    reap (List.length ws + fuel) chid path s
    = reap fuel chid path
        {| oracle := o;
           errno := match ws with [] => errno s | _ => EINTR end;
           trace := trace s ++ map (Ev (Waitpid chid WNOHANG)) ws |}.
Proof.
  induction ws as [|w ws IH]; intros fuel chid path s o Hw Ho.
  - cbn. rewrite app_nil_r. cbn in Ho. destruct s; cbn in *; subst.
    reflexivity.
  - inversion Hw as [|? ? [Hrv He] Hws]; subst. cbn [List.length Nat.add].
    rewrite (reap_interrupted _ chid path s w (ws ++ o) Ho Hrv He).
    match goal with
    | |- context [reap (List.length ws + fuel) _ _ ?s1] =>
        rewrite (IH fuel chid path s1 o Hws eq_refl)
    end.
    cbn [trace map errno]. rewrite <- app_assoc. rewrite He.
    destruct ws; reflexivity.
Qed.

(** X7: a wait that fails with [EINTR] is made again, as often as it
    takes; when the wait then reports the child, the path is removed and
    the exit status is taken from that last wait. *)
Theorem interrupted_waits_are_retried :
  forall (ws : list reply) (fuel : nat) (chid : Z) (path : string) (s : sys)
         (rw rr : reply) (o : list reply),
    Forall interrupted ws ->
    0 <= chid -> rv rw = chid ->
    oracle s = ws ++ rw :: rr :: o ->
    reap (List.length ws + S fuel) chid path s
    = (Halt (Exit (WEXITSTATUS (wstat rw))),
       {| oracle := o; errno := rerrno rr;
          trace := trace s
                   ++ map (Ev (Waitpid chid WNOHANG)) ws
                   ++ [Ev (Waitpid chid WNOHANG) rw;
                       Ev (Remove path) rr] |}).
Proof.
  intros ws fuel chid path s rw rr o Hw Hc Hrv Ho.
  rewrite (reap_interruptions ws (S fuel) chid path s _ Hw Ho).
  match goal with
  | |- context [reap (S fuel) _ _ ?s1] =>
      rewrite (reap_reaped fuel chid path s1 rw rr o eq_refl Hc Hrv)
  end.
  cbn [trace]. rewrite <- app_assoc. reflexivity.
Qed.

Lemma interrupted_waits_are_retried_witness :
  reap 3 77 "/tmp/test.sock"
       (start [answer (-1) EINTR; answer (-1) EINTR;
               waited 77 (W_EXITCODE 3 0); answer 0 0])
  = (Halt (Exit 3),
     {| oracle := []; errno := 0;
        trace := [Ev (Waitpid 77 WNOHANG) (answer (-1) EINTR);
                  Ev (Waitpid 77 WNOHANG) (answer (-1) EINTR);
                  Ev (Waitpid 77 WNOHANG) (waited 77 (W_EXITCODE 3 0));
                  Ev (Remove "/tmp/test.sock") (answer 0 0)] |}).
Proof.
  apply (interrupted_waits_are_retried
           [answer (-1) EINTR; answer (-1) EINTR] 0 77 "/tmp/test.sock"
           (start [answer (-1) EINTR; answer (-1) EINTR;
                   waited 77 (W_EXITCODE 3 0); answer 0 0])
           (waited 77 (W_EXITCODE 3 0)) (answer 0 0) []).
  - repeat constructor; cbn; lia.
  - lia.
  - reflexivity.
  - reflexivity.
Defined.


(** *** The split of an endpoint, in general *)

Lemma strrchr_from_decompose (s : string) (ch : ascii) :
  lacks NUL s = true ->
  forall (i : nat) (last : option nat),
    (strrchr_from (list_ascii_of_string s) ch i last = last
     /\ lacks ch s = true)
    \/ exists h t,
         s = (h ++ String ch t)%string
         /\ strrchr_from (list_ascii_of_string s) ch i last
            = Some (i + String.length h)%nat
         /\ lacks ch t = true.
Proof.
  induction s as [|c s IH]; intros Hs i last; [left; split; reflexivity|].
  cbn in Hs. apply andb_true_iff in Hs as [Hc Hs]. apply negb_true_iff in Hc.
  cbn [list_ascii_of_string strrchr_from lacks]. unfold is_nul. rewrite Hc.
  destruct (IH Hs (S i) (if Ascii.eqb c ch then Some i else last))
    as [[E L]|(h & t & -> & E & L)].
  - rewrite E. destruct (Ascii.eqb_spec c ch) as [->|Hne].
    + right. exists "", s. cbn. rewrite Nat.add_0_r. repeat split. exact L.
    + left. cbn. split; [reflexivity | exact L].
  - right. exists (String c h), t. rewrite E. cbn.
    rewrite Nat.add_succ_r. repeat split. exact L.
Qed.

Lemma lacks_present (ch : ascii) (h t : string) :
  lacks ch (h ++ String ch t) = false.
Proof.
  induction h as [|c h IH]; cbn.
  - rewrite Ascii.eqb_refl. reflexivity.
  - rewrite IH. apply andb_false_r.
Qed.

Lemma strrchr_strncpy (s : string) (lim : nat) (ch : ascii) :
  lacks NUL s = true -> (String.length s < lim)%nat ->
  strrchr (strncpy s lim) ch
  = strrchr_from (list_ascii_of_string s) ch 0 None.
Proof.
  intros Hs Hlen. destruct (padded lim s Hs Hlen) as (pad & ->).
  unfold strrchr. rewrite strrchr_from_clean by exact Hs. reflexivity.
Qed.

(** X8: an endpoint shorter than the buffer is never refused as too
    long, and its parts give it back: host, colon and service make up the
    endpoint, the service having no colon; without a host the service is
    the whole endpoint; and a port is demanded only of an endpoint that
    starts with ['['] and has a [']']. *)
Theorem endpoint_split_rejoins :
  forall addr : string,
    lacks NUL addr = true ->
    (String.length addr < INET_BUF_SIZE)%nat ->
    match parse_endpoint addr with
    | TooLong => False
    | PortRequired =>
        exists rest, addr = String "[" rest /\ lacks "]" rest = false
    | Split None service => service = addr
    | Split (Some node) service =>
        addr = (node ++ String ":" service)%string
        /\ lacks ":" service = true
    end.
Proof.
  intros addr Hs Hlen.
  rewrite parse_fits by (rewrite strlen_clean by exact Hs; exact Hlen).
  unfold split_endpoint.
  rewrite !strrchr_strncpy by assumption.
  destruct (padded INET_BUF_SIZE addr Hs Hlen) as (pad & Hbuf).
  rewrite Hbuf.
  assert (Hwhole : string_of_buf (list_ascii_of_string addr ++ NUL :: pad)
                   = addr) by (apply string_of_buf_clean, Hs).
  assert (Hunsplit :
            match
              match strrchr_from (list_ascii_of_string addr) "]" 0 None with
              | Some _ =>
                  if Ascii.eqb
                       (nth 0 (list_ascii_of_string addr ++ NUL :: pad) NUL)
                       "["
                  then None
                  else Some (None, string_of_buf
                                     (list_ascii_of_string addr ++ NUL :: pad))
              | None =>
                  Some (None, string_of_buf
                                (list_ascii_of_string addr ++ NUL :: pad))
              end
            with
            | Some (Some node, service) =>
                addr = (node ++ String ":" service)%string
                /\ lacks ":" service = true
            | Some (None, service) => service = addr
            | None =>
                exists rest, addr = String "[" rest /\ lacks "]" rest = false
            end).
  { rewrite Hwhole.
    destruct (strrchr_from_decompose addr "]" Hs 0 None)
      as [[-> _]|(h & t & E & -> & _)]; [reflexivity|].
    destruct addr as [|c rest]; [destruct h; discriminate|].
    cbn [list_ascii_of_string app nth].
    destruct (Ascii.eqb_spec c "[") as [->|_]; [|reflexivity].
    exists rest. split; [reflexivity|].
    pose proof (lacks_present "]" h t) as L. rewrite <- E in L.
    cbn in L. exact L. }
  destruct (strrchr_from_decompose addr ":" Hs 0 None)
    as [[-> _]|(h & t & E & -> & L)].
  - destruct (strrchr_from (list_ascii_of_string addr) "]" 0 None);
      [destruct (Ascii.eqb _ _)|]; exact Hunsplit.
  - destruct (match strrchr_from (list_ascii_of_string addr) "]" 0 None with
              | Some b => (0 + String.length h <? b)%nat
              | None => false
              end).
    + destruct (strrchr_from (list_ascii_of_string addr) "]" 0 None);
        [destruct (Ascii.eqb _ _)|]; exact Hunsplit.
    + clear Hunsplit Hwhole. subst addr.
      assert (Hh : lacks NUL h = true /\ lacks NUL t = true).
      { rewrite lacks_append in Hs. cbn in Hs.
        apply andb_true_iff in Hs. exact Hs. }
      destruct Hh as [Hh Ht].
      rewrite list_of_append. cbn [list_ascii_of_string Nat.add].
      rewrite <- app_assoc. cbn [app].
      rewrite <- (length_list_of h).
      rewrite store_after, skipn_after.
      rewrite !string_of_buf_clean by assumption.
      split; [reflexivity | exact L].
Qed.

Lemma endpoint_split_rejoins_witness :
  match parse_endpoint "[::1]:8080" with
  | TooLong => False
  | PortRequired =>
      exists rest, "[::1]:8080" = String "[" rest /\ lacks "]" rest = false
  | Split None service => service = "[::1]:8080"
  | Split (Some node) service =>
      "[::1]:8080" = (node ++ String ":" service)%string
      /\ lacks ":" service = true
  end.
Proof.
  apply (endpoint_split_rejoins "[::1]:8080"); [reflexivity|].
  unfold INET_BUF_SIZE. cbn. lia.
Defined.


(** *** Which calls a run may make *)

Lemma confined_bind {A B} (ok : call -> Prop) (m : M A) (k : A -> M B) :
  confined ok m -> (forall a, confined ok (k a)) -> confined ok (bind m k).
Proof.
  intros Hm Hk s. unfold bind.
  destruct (Hm s) as (t & Ht & Hok & Hc).
  destruct (m s) as [[a|o] s1]; cbn [fst snd] in *.
  - destruct (Hk a s1) as (t' & Ht' & Hok' & Hc').
    exists (t ++ t'). rewrite Ht', Ht, app_assoc.
    split; [reflexivity|]. split; [apply Forall_app; split; assumption|].
    exact Hc'.
  - exists t. split; [exact Ht|]. split; [exact Hok|].
    intros c E. apply Hc. injection E as ->. reflexivity.
Qed.

Lemma confined_silent {A} (ok : call -> Prop) (m : M A) :
  (forall s, trace (snd (m s)) = trace s) ->
  (forall s c, fst (m s) <> Halt (NoReturn c)) ->
  confined ok m.
Proof.
  intros Ht Hc s. exists []. rewrite app_nil_r.
  split; [apply Ht|]. split; [constructor|].
  intros c E. destruct (Hc s c E).
Qed.

Lemma confined_ret {A} (ok : call -> Prop) (a : A) : confined ok (ret a).
Proof. apply confined_silent; [reflexivity | discriminate]. Qed.

Lemma confined_exit {A} (ok : call -> Prop) (st : Z) :
  confined ok (@exit_with A st).
Proof. apply confined_silent; [reflexivity | discriminate]. Qed.

Lemma confined_abort {A} (ok : call -> Prop) : confined ok (@halt A Abort).
Proof. apply confined_silent; [reflexivity | discriminate]. Qed.

Lemma confined_out_of_fuel {A} (ok : call -> Prop) :
  confined ok (@halt A OutOfFuel).
Proof. apply confined_silent; [reflexivity | discriminate]. Qed.

Lemma confined_get_errno (ok : call -> Prop) : confined ok get_errno.
Proof. apply confined_silent; [reflexivity | discriminate]. Qed.

Lemma confined_set_errno (ok : call -> Prop) (e : Z) :
  confined ok (set_errno e).
Proof. apply confined_silent; [reflexivity | discriminate]. Qed.

Lemma confined_loop_bound (ok : call -> Prop) : confined ok loop_bound.
Proof. apply confined_silent; [reflexivity | discriminate]. Qed.

Lemma confined_assert (ok : call -> Prop) (b : bool) : confined ok (assert b).
Proof. destruct b; [apply confined_ret | apply confined_abort]. Qed.

Lemma confined_fprintf (ok : call -> Prop) (d : diag) :
  confined ok (fprintf d).
Proof.
  intros s. exists [Out d]. split; [reflexivity|].
  split; [repeat constructor | discriminate].
Qed.

Lemma confined_syscall (ok : call -> Prop) (c : call) :
  ok c -> confined ok (syscall c).
Proof.
  intros H s. unfold syscall. destruct (oracle s) as [|r o]; cbn [fst snd].
  - exists []. rewrite app_nil_r. split; [reflexivity|].
    split; [constructor|]. intros c' E. injection E as <-. exact H.
  - exists [Ev c r]. split; [reflexivity|].
    split; [repeat constructor; exact H | discriminate].
Qed.

Lemma confined_weaken {A} (ok ok' : call -> Prop) (m : M A) :
  (forall c, ok c -> ok' c) -> confined ok m -> confined ok' m.
Proof.
  intros H Hm s. destruct (Hm s) as (t & Ht & Hok & Hc). exists t.
  split; [exact Ht|]. split; [|auto].
  eapply Forall_impl; [|exact Hok]. intros [c r|d]; cbn; auto.
Qed.

Ltac confined_leaf :=
  cbn; repeat split;
  first [ exact I | reflexivity | assumption | congruence
        | solve [auto using in_eq, in_cons, in_map] ].

Ltac confined_step :=
  first
    [ apply confined_ret | apply confined_exit | apply confined_abort
    | apply confined_out_of_fuel | apply confined_get_errno
    | apply confined_set_errno | apply confined_assert
    | apply confined_fprintf | apply confined_loop_bound
    | apply confined_syscall; confined_leaf
    | apply confined_bind; [|intros]
    | match goal with
      | e : Empty_set |- _ => destruct e
      | |- confined _ (if ?a =? ?b then _ else _) =>
          destruct (Z.eqb_spec a b)
      | |- confined _ (if ?b then _ else _) => destruct b eqn:?
      | |- confined _ (match ?x with _ => _ end) => destruct x eqn:?
      | |- confined _ (let '(_, _) := ?x in _) => destruct x eqn:?
      end ].

Lemma confined_try_candidates (ok : call -> Prop) (res : list addrinfo) :
  (forall ai fd, In ai res ->
                 ok (Socket (ai_family ai)) /\ ok (BindIn fd (ai_addr ai))
                 /\ ok (Close fd)) ->
  forall ptr sock mom fam,
    incl ptr res -> confined ok (try_candidates ptr sock mom fam).
Proof.
  intros Hok ptr. induction ptr as [|ai next IH]; intros sock mom fam Hin;
    cbn [try_candidates]; [apply confined_ret|].
  assert (Hai : In ai res) by (apply Hin; left; reflexivity).
  assert (Hnext : incl next res) by (intros x Hx; apply Hin; right; exact Hx).
  apply confined_bind; [apply confined_syscall, (Hok ai 0 Hai)|]. intros r.
  destruct (rv r <? 0); [apply IH, Hnext|].
  apply confined_bind; [apply confined_syscall, (Hok ai (rv r) Hai)|].
  intros rb. destruct (rv rb <? 0); [|apply confined_ret].
  apply confined_bind; [apply confined_get_errno|]. intros ec.
  apply confined_bind; [apply confined_syscall, (Hok ai (rv r) Hai)|].
  intros _. apply confined_bind; [apply confined_set_errno|]. intros _.
  apply IH, Hnext.
Qed.

Lemma confined_reap (ok : call -> Prop) (fuel : nat) (chid : Z)
      (path : string) :
  ok (Waitpid chid WNOHANG) -> ok (Remove path) ->
  confined ok (reap fuel chid path).
Proof.
  intros Hw Hr. induction fuel as [|fuel IH]; cbn [reap];
    [apply confined_out_of_fuel|].
  repeat first [exact IH | apply confined_syscall; assumption | confined_step].
Qed.

Lemma confined_parent_loop (ok : call -> Prop) (fuel : nat) (sigfd chid : Z)
      (path : string) :
  ok (ReadSig sigfd) -> ok (Kill chid SIGTERM) ->
  ok (Waitpid chid WNOHANG) -> ok (Remove path) ->
  confined ok (parent_loop fuel sigfd chid path).
Proof.
  intros Hread Hkill Hw Hr. induction fuel as [|fuel IH]; cbn [parent_loop];
    [apply confined_out_of_fuel|].
  apply confined_bind; [apply confined_syscall, Hread|]. intros r.
  destruct (rv r <? 0).
  { repeat first [apply confined_syscall; assumption | confined_step]. }
  apply confined_bind; [apply confined_assert|]. intros _.
  destruct (Z.eqb_spec (ssi_signo r) SIGTERM) as [->|_].
  { apply confined_bind; [apply confined_syscall, Hkill | intros _; exact IH]. }
  destruct ((ssi_signo r =? SIGINT) || (ssi_signo r =? SIGHUP)); [exact IH|].
  destruct (ssi_signo r =? SIGCHLD); [|exact IH].
  apply confined_reap; assumption.
Qed.

Lemma confined_launch (ok : call -> Prop) (argv environ : list string) :
  ok (Execve (nth_error argv 1) (tl argv) (copy_env environ)) ->
  confined ok (launch argv environ).
Proof.
  intros H. unfold launch.
  repeat first [apply confined_syscall; assumption | confined_step].
Qed.

Lemma confined_supervise (ok : call -> Prop) (path : string) (sock : Z) :
  ok (Sigprocmask interest) -> ok (Signalfd interest) -> ok Fork ->
  ok (Close sock) ->
  (forall sigfd, ok (ReadSig sigfd)) ->
  (forall chid, ok (Kill chid SIGTERM)) ->
  (forall chid, ok (Waitpid chid WNOHANG)) ->
  ok (Remove path) ->
  confined ok (supervise path sock).
Proof.
  intros H1 H2 H3 H4 H5 H6 H7 H8. unfold supervise.
  repeat first
         [ apply confined_syscall; assumption
         | apply confined_parent_loop; [apply H5 | apply H6 | apply H7 | exact H8]
         | confined_step ].
Qed.

Lemma confined_install (ok : call -> Prop) (sock : Z) :
  ok (Dup2 sock 0) -> ok (Close sock) ->
  confined ok
    (if negb (sock =? 0)
     then r <- syscall (Dup2 sock 0) ;;
          (if rv r <? 0
           then ec <- get_errno ;;
                fprintf (D_dup2 ec) ;;; exit_with EXIT_FAILURE
           else syscall (Close sock) ;;; ret 0)
     else ret sock).
Proof.
  intros H1 H2.
  repeat first [apply confined_syscall; assumption | confined_step].
Qed.

Lemma confined_unix_socket (ok : call -> Prop) (path : string)
      (environ : list string) :
  ok (Socket PF_UNIX) ->
  (forall fd, ok (BindUn fd (strncpy path SUN_PATH_SIZE))) ->
  ok (Chmod (cstr path) MODE_RWX_ALL) ->
  confined ok (unix_socket path environ).
Proof.
  intros H1 H2 H3. unfold unix_socket.
  apply confined_bind; [apply confined_syscall, H1|]. intros r.
  destruct (rv r <? 0); [repeat confined_step|].
  destruct (trunc_strncpy_spec path SUN_PATH_SIZE
              ltac:(unfold SUN_PATH_SIZE; lia)) as (_ & _ & Hbuf).
  pose proof (trunc_strncpy_buf path SUN_PATH_SIZE) as Hfst.
  destruct (trunc_strncpy path SUN_PATH_SIZE) as [buf tr]. cbn [fst snd] in *.
  destruct tr; [repeat confined_step|].
  destruct (Hbuf eq_refl) as [Hstr _]. subst buf.
  apply confined_bind; [apply confined_assert|]. intros _.
  apply confined_bind; [apply confined_syscall, H2|]. intros rb.
  destruct (rv rb <? 0); [repeat confined_step|].
  destruct (getenv UNIX_PEER_VAR environ); [|apply confined_ret].
  apply confined_bind; [|intros; apply confined_ret].
  apply confined_syscall. rewrite Hstr. exact H3.
Qed.

Lemma run_main_confined (ok : call -> Prop) (argv environ : list string)
      (o : list reply) :
  confined ok (main argv environ) ->
  Forall (ok_event ok) (snd (run_main argv environ o))
  /\ forall c, fst (run_main argv environ o) = NoReturn c -> ok c.
Proof.
  intros H. unfold run_main.
  destruct (H (start o)) as (t & Ht & Hok & Hc).
  destruct (main argv environ (start o)) as [[[]|out] s].
  cbn [fst snd] in *. rewrite Ht. split; [exact Hok|].
  intros c ->. apply Hc. reflexivity.
Qed.

(** X9: with the path variable set, every system call of a run, the one
    that did not return included, is one of the filesystem-path mode
    with the arguments that mode gives it: no resolution and no network
    bind, the socket in [PF_UNIX], the bind and the removal on the
    configured path, mode 0777, [SIGTERM], [WNOHANG], the four signals of
    interest, backlog 5, descriptor 0, and the program of [argv] with the
    filtered environment. *)
Theorem filesystem_mode_calls :
  forall (argv environ : list string) (path : string) (o : list reply),
    getenv UNIX_BIND_VAR environ = Some path ->
    Forall (ok_event (fun c => path_call path c /\ launch_call argv environ c))
           (snd (run_main argv environ o))
    /\ forall c, fst (run_main argv environ o) = NoReturn c ->
                 path_call path c /\ launch_call argv environ c.
Proof.
  intros argv environ path o Hu. apply run_main_confined.
  unfold main. rewrite Hu.
  apply confined_bind; [apply confined_unix_socket; intros; confined_leaf|].
  intros sock.
  apply confined_bind; [apply confined_syscall; confined_leaf|]. intros r.
  destruct (rv r <? 0); [repeat confined_step|].
  apply confined_bind; [apply confined_install; confined_leaf|]. intros sock'.
  apply confined_bind;
    [apply confined_supervise; intros; confined_leaf
    | intros; apply confined_launch; confined_leaf].
Qed.

Lemma filesystem_mode_calls_witness :
  Forall (ok_event (fun c => path_call "/tmp/test.sock" c
                             /\ launch_call ["bindwrap"; "/bin/app"]
                                  ["FASTCGI4J_UNIX_BIND=/tmp/test.sock"] c))
         (snd (run_main ["bindwrap"; "/bin/app"]
                        ["FASTCGI4J_UNIX_BIND=/tmp/test.sock"]
                        [answer 0 0; answer 0 0; answer 0 0]))
  /\ forall c,
      fst (run_main ["bindwrap"; "/bin/app"]
                    ["FASTCGI4J_UNIX_BIND=/tmp/test.sock"]
                    [answer 0 0; answer 0 0; answer 0 0]) = NoReturn c ->
      path_call "/tmp/test.sock" c
      /\ launch_call ["bindwrap"; "/bin/app"]
                     ["FASTCGI4J_UNIX_BIND=/tmp/test.sock"] c.
Proof.
  apply (filesystem_mode_calls ["bindwrap"; "/bin/app"]
           ["FASTCGI4J_UNIX_BIND=/tmp/test.sock"] "/tmp/test.sock"
           [answer 0 0; answer 0 0; answer 0 0]).
  reflexivity.
Defined.


Lemma confined_after_resolution (ok : call -> Prop) (baddr_in : string)
      (rg : reply) :
  (rv rg = 0 ->
   forall ai fd, In ai (addrs rg) ->
                 ok (Socket (ai_family ai)) /\ ok (BindIn fd (ai_addr ai))
                 /\ ok (Close fd)) ->
  confined ok
    (if negb (rv rg =? 0)
     then fprintf (D_gai (rv rg) baddr_in) ;;; exit_with EXIT_FAILURE
     else
       match addrs rg with
       | [] => fprintf (D_unknown_address baddr_in) ;;; exit_with EXIT_FAILURE
       | _ :: _ =>
           st <- try_candidates (addrs rg) (-1) 0 0 ;;
           (let '(sock, mom, fam) := st in
            if sock <? 0
            then
              ec <- get_errno ;;
              assert (negb (mom =? 0)) ;;;
              (if mom =? 1
               then fprintf
                      (D_inet_socket
                         (if fam =? PF_INET then "PF_INET" else "PF_INET6") ec)
               else if mom =? 2 then fprintf (D_bind_in ec baddr_in)
                    else ret tt) ;;;
              exit_with EXIT_FAILURE
            else ret sock)
       end).
Proof.
  intros Hok. destruct (Z.eqb_spec (rv rg) 0) as [Hz|Hnz]; cbn [negb].
  2:{ repeat confined_step. }
  specialize (Hok Hz).
  destruct (addrs rg) as [|a l] eqn:E; [repeat confined_step|].
  rewrite <- E in *.
  apply confined_bind.
  - apply (confined_try_candidates ok (addrs rg) Hok). apply incl_refl.
  - intros [[sock mom] fam]. repeat confined_step.
Qed.

Lemma confined_inet_socket (ok : call -> Prop) (baddr_in : string) :
  (forall node service, ok (Getaddrinfo node service)) ->
  (forall d, ok (Socket d)) -> (forall fd a, ok (BindIn fd a)) ->
  (forall fd, ok (Close fd)) ->
  confined ok (inet_socket baddr_in).
Proof.
  intros H1 H2 H3 H4. unfold inet_socket.
  destruct (trunc_strncpy baddr_in INET_BUF_SIZE) as [buf [|]];
    [repeat confined_step|].
  destruct (split_endpoint buf) as [[node service]|]; [|repeat confined_step].
  apply confined_bind; [apply confined_syscall, H1|]. intros rg.
  apply confined_after_resolution. intros _ ai fd _. auto.
Qed.

(** X10: without the path variable, a run makes network-mode calls only:
    it never forks, waits, reads signals, kills, removes a file or
    changes a mode; it listens with backlog 5, duplicates onto
    descriptor 0 and launches the program of [argv] with the filtered
    environment. *)
Theorem network_mode_calls :
  forall (argv environ : list string) (o : list reply),
    getenv UNIX_BIND_VAR environ = None ->
    Forall (ok_event (fun c => network_call c /\ launch_call argv environ c))
           (snd (run_main argv environ o))
    /\ forall c, fst (run_main argv environ o) = NoReturn c ->
                 network_call c /\ launch_call argv environ c.
Proof.
  intros argv environ o Hu. apply run_main_confined.
  unfold main. rewrite Hu.
  apply confined_bind.
  { destruct (getenv INET_BIND_VAR environ); [|repeat confined_step].
    apply confined_inet_socket; intros; confined_leaf. }
  intros sock.
  apply confined_bind; [apply confined_syscall; confined_leaf|]. intros r.
  destruct (rv r <? 0); [repeat confined_step|].
  apply confined_bind; [apply confined_install; confined_leaf|]. intros sock'.
  apply confined_bind;
    [apply confined_ret | intros; apply confined_launch; confined_leaf].
Qed.

Lemma network_mode_calls_witness :
  Forall (ok_event (fun c => network_call c
                             /\ launch_call ["bindwrap"; "/bin/app"]
                                  ["FASTCGI4J_INET_BIND=8080"] c))
         (snd (run_main ["bindwrap"; "/bin/app"] ["FASTCGI4J_INET_BIND=8080"]
                        [resolved [ {| ai_family := 2; ai_addr := "any" |} ];
                         answer 3 0; answer 0 0]))
  /\ forall c,
      fst (run_main ["bindwrap"; "/bin/app"] ["FASTCGI4J_INET_BIND=8080"]
                    [resolved [ {| ai_family := 2; ai_addr := "any" |} ];
                     answer 3 0; answer 0 0]) = NoReturn c ->
      network_call c
      /\ launch_call ["bindwrap"; "/bin/app"] ["FASTCGI4J_INET_BIND=8080"] c.
Proof.
  apply (network_mode_calls ["bindwrap"; "/bin/app"]
           ["FASTCGI4J_INET_BIND=8080"]
           [resolved [ {| ai_family := 2; ai_addr := "any" |} ];
            answer 3 0; answer 0 0]).
  reflexivity.
Defined.

Lemma resolution_comes_first :
  forall (argv environ : list string) (addr : string)
         (node : option string) (service : string) (rg : reply)
         (o : list reply),
    getenv UNIX_BIND_VAR environ = None ->
    getenv INET_BIND_VAR environ = Some addr ->
    parse_endpoint addr = Split node service ->
    exists t,
      snd (run_main argv environ (rg :: o))
      = Ev (Getaddrinfo node service) rg :: t
      /\ Forall (ok_event (resolved_call rg)) t
      /\ forall c, fst (run_main argv environ (rg :: o)) = NoReturn c ->
                   resolved_call rg c.
Proof.
  intros argv environ addr node service rg o Hu Hi Hp.
  unfold run_main, main. rewrite Hu, Hi.
  unfold parse_endpoint in Hp. unfold inet_socket.
  destruct (trunc_strncpy addr INET_BUF_SIZE) as [buf [|]]; [discriminate|].
  destruct (split_endpoint buf) as [[n sv]|]; [|discriminate].
  injection Hp as -> ->.
  rewrite !bind_bind.
  rewrite (bind_syscall_answered _ _ (start (rg :: o)) rg o eq_refl).
  match goal with
  | |- context [bind ?m ?k ?s1] =>
      assert (C : confined (resolved_call rg) (bind m k))
  end.
  { apply confined_bind.
    - apply confined_after_resolution. intros Hz ai fd Hai.
      cbn. repeat split; auto using in_map.
    - intros sock.
      apply confined_bind; [apply confined_syscall; confined_leaf|]. intros r.
      destruct (rv r <? 0); [repeat confined_step|].
      apply confined_bind; [apply confined_install; confined_leaf|].
      intros sock'.
      apply confined_bind;
        [apply confined_ret | intros; apply confined_launch; confined_leaf]. }
  match goal with
  | |- context [bind ?m ?k ?s1] =>
      destruct (C s1) as (t & Ht & Hok & Hc);
      destruct (bind m k s1) as [[[]|out] s2]
  end.
  cbn [fst snd trace] in *. exists t. rewrite Ht.
  split; [reflexivity|]. split; [exact Hok|].
  intros c ->. apply Hc. reflexivity.
Qed.

(** X11: in network mode, resolution is the first call and is made once,
    with the two parts of the endpoint; sockets are created and bound
    only when it succeeded, and only for families and addresses of its
    result. *)
Theorem sockets_only_for_resolved_candidates :
  forall (argv environ : list string) (addr : string)
         (node : option string) (service : string) (rg : reply)
         (o : list reply),
    getenv UNIX_BIND_VAR environ = None ->
    getenv INET_BIND_VAR environ = Some addr ->
    parse_endpoint addr = Split node service ->
    exists t,
      snd (run_main argv environ (rg :: o))
      = Ev (Getaddrinfo node service) rg :: t
      /\ Forall (ok_event (resolved_call rg)) t
      /\ forall c, fst (run_main argv environ (rg :: o)) = NoReturn c ->
                   resolved_call rg c.
Proof. exact resolution_comes_first. Qed.

Lemma sockets_only_for_resolved_candidates_witness :
  exists t,
    snd (run_main ["bindwrap"; "/bin/app"] ["FASTCGI4J_INET_BIND=8080"]
                  (resolved [ {| ai_family := 2; ai_addr := "any" |} ]
                     :: [answer 3 0; answer 0 0]))
    = Ev (Getaddrinfo None "8080")
         (resolved [ {| ai_family := 2; ai_addr := "any" |} ]) :: t
    /\ Forall (ok_event
                 (resolved_call
                    (resolved [ {| ai_family := 2; ai_addr := "any" |} ]))) t
    /\ forall c,
        fst (run_main ["bindwrap"; "/bin/app"] ["FASTCGI4J_INET_BIND=8080"]
                      (resolved [ {| ai_family := 2; ai_addr := "any" |} ]
                         :: [answer 3 0; answer 0 0])) = NoReturn c ->
        resolved_call (resolved [ {| ai_family := 2; ai_addr := "any" |} ]) c.
Proof.
  apply (sockets_only_for_resolved_candidates
           ["bindwrap"; "/bin/app"] ["FASTCGI4J_INET_BIND=8080"] "8080"
           None "8080"
           (resolved [ {| ai_family := 2; ai_addr := "any" |} ])
           [answer 3 0; answer 0 0]); reflexivity.
Defined.

(** *** A bracketed literal *)

Lemma bind_halted {A B} (m : M A) (k : A -> M B) (s s' : sys)
      (out : outcome) :
  m s = (Halt out, s') -> bind m k s = (Halt out, s').
Proof. intros H. unfold bind. rewrite H. reflexivity. Qed.

Lemma inet_socket_refused (addr : string) (node : option string)
      (service : string) (s : sys) (rg : reply) (o : list reply) :
  parse_endpoint addr = Split node service ->
  oracle s = rg :: o -> rv rg <> 0 ->
  inet_socket addr s
  = (Halt (Exit EXIT_FAILURE),
     {| oracle := o; errno := rerrno rg;
        trace := trace s ++ [Ev (Getaddrinfo node service) rg;
                             Out (D_gai (rv rg) addr)] |}).
Proof.
  intros Hp Ho Hnz. unfold parse_endpoint in Hp. unfold inet_socket.
  destruct (trunc_strncpy addr INET_BUF_SIZE) as [buf [|]]; [discriminate|].
  destruct (split_endpoint buf) as [[n sv]|]; [|discriminate].
  injection Hp as -> ->.
  rewrite (bind_syscall_answered _ _ s rg o Ho).
  destruct (Z.eqb_spec (rv rg) 0) as [Hz|_]; [contradiction|].
  cbn. rewrite <- app_assoc. reflexivity.
Qed.

Lemma bracketed_literal_split (lit svc : string) :
  lacks NUL lit = true -> lacks NUL svc = true ->
  lacks ":" svc = true -> lacks "]" svc = true ->
  (String.length lit + 3 + String.length svc < INET_BUF_SIZE)%nat ->
  parse_endpoint (String "[" (lit ++ "]") ++ String ":" svc)
  = Split (Some (String "[" (lit ++ "]"))) svc.
Proof.
  intros Hl Hs Hcol Hbr Hlen.
  assert (Hh : lacks NUL (String "[" (lit ++ "]")) = true).
  { cbn. rewrite lacks_append. cbn. rewrite Hl. reflexivity. }
  assert (Hn : String.length (String "[" (lit ++ "]"))
               = S (S (String.length lit))).
  { cbn. rewrite length_append. cbn. lia. }
  rewrite parse_fits.
  - rewrite split_host_service by (trivial; lia). reflexivity.
  - rewrite strlen_clean; [rewrite length_append, Hn; cbn; lia|].
    rewrite lacks_append. rewrite Hh. cbn. rewrite Hs. reflexivity.
Qed.

(** C7: the split is not the correct one for [[v6lit]:service].  The
    code knows the bracketed form (it demands a port of it), yet for
    every literal [lit] and service [svc] it cuts [[lit]:svc] at the last
    colon and leaves the brackets on the node: [getaddrinfo] is the first
    call of the run and is asked for the node [[lit]], never for [lit];
    and when the resolver refuses that node, the run ends in failure with
    the resolver's message, before any socket is created. *)
Theorem bracketed_literal_resolved_with_brackets :
  forall (argv environ : list string) (lit svc : string) (rg : reply)
         (o : list reply),
    lacks NUL lit = true -> lacks NUL svc = true ->
    lacks ":" svc = true -> lacks "]" svc = true ->
    (String.length lit + 3 + String.length svc < INET_BUF_SIZE)%nat ->
    getenv UNIX_BIND_VAR environ = None ->
    getenv INET_BIND_VAR environ
    = Some (String "[" (lit ++ "]") ++ String ":" svc)%string ->
    parse_endpoint (String "[" (lit ++ "]") ++ String ":" svc)
    = Split (Some (String "[" (lit ++ "]"))) svc
    /\ Some (String "[" (lit ++ "]"))%string <> Some lit
    /\ run_main argv environ []
       = (NoReturn (Getaddrinfo (Some (String "[" (lit ++ "]"))) svc), [])
    /\ (exists t,
          snd (run_main argv environ (rg :: o))
          = Ev (Getaddrinfo (Some (String "[" (lit ++ "]"))) svc) rg :: t)
    /\ (rv rg <> 0 ->
        run_main argv environ (rg :: o)
        = (Exit EXIT_FAILURE,
           [Ev (Getaddrinfo (Some (String "[" (lit ++ "]"))) svc) rg;
            Out (D_gai (rv rg)
                       (String "[" (lit ++ "]") ++ String ":" svc))])).
Proof.
  intros argv environ lit svc rg o Hl Hs Hcol Hbr Hlen Hu Hi.
  pose proof (bracketed_literal_split lit svc Hl Hs Hcol Hbr Hlen) as Hp.
  split; [exact Hp|]. split.
  { intros E. injection E as E. apply (f_equal String.length) in E.
    cbn in E. rewrite length_append in E. cbn in E. lia. }
  split.
  { unfold run_main, main. rewrite Hu, Hi.
    rewrite (bind_halted _ _ (start []) (start [])
               (NoReturn (Getaddrinfo (Some (String "[" (lit ++ "]"))) svc)));
      [reflexivity|].
    apply inet_socket_resolves; [exact Hp | reflexivity]. }
  split.
  { destruct (resolution_comes_first argv environ _ _ _ rg o Hu Hi Hp)
      as (t & Ht & _).
    exists t. exact Ht. }
  intros Hnz. unfold run_main, main. rewrite Hu, Hi.
  rewrite (bind_halted _ _ (start (rg :: o)) _ (Exit EXIT_FAILURE)
             (inet_socket_refused _ _ _ (start (rg :: o)) rg o Hp eq_refl
                Hnz)).
  reflexivity.
Qed.

Lemma bracketed_literal_resolved_with_brackets_witness :
  parse_endpoint "[::1]:8080" = Split (Some "[::1]") "8080"
  /\ Some "[::1]" <> Some "::1"
  /\ run_main ["bindwrap"; "/bin/app"] ["FASTCGI4J_INET_BIND=[::1]:8080"] []
     = (NoReturn (Getaddrinfo (Some "[::1]") "8080"), [])
  /\ (exists t,
        snd (run_main ["bindwrap"; "/bin/app"]
               ["FASTCGI4J_INET_BIND=[::1]:8080"] [answer (-2) 0])
        = Ev (Getaddrinfo (Some "[::1]") "8080") (answer (-2) 0) :: t)
  /\ (rv (answer (-2) 0) <> 0 ->
      run_main ["bindwrap"; "/bin/app"] ["FASTCGI4J_INET_BIND=[::1]:8080"]
        [answer (-2) 0]
      = (Exit EXIT_FAILURE,
         [Ev (Getaddrinfo (Some "[::1]") "8080") (answer (-2) 0);
          Out (D_gai (-2) "[::1]:8080")])).
Proof.
  apply (bracketed_literal_resolved_with_brackets
           ["bindwrap"; "/bin/app"] ["FASTCGI4J_INET_BIND=[::1]:8080"]
           "::1" "8080" (answer (-2) 0) []);
    try reflexivity.
  unfold INET_BUF_SIZE. cbn. lia.
Defined.


(** *** The order of the calls *)

Lemma disciplined_snoc (t : list event) (e : event) :
  disciplined t ->
  match e with Ev c _ => permitted c t | Out _ => True end ->
  disciplined (t ++ [e]).
Proof.
  intros Ht He t1 c r t2 E.
  induction t2 as [|x t2 _] using rev_ind.
  - apply app_inj_tail in E as [-> ->]. exact He.
  - change (t1 ++ Ev c r :: t2 ++ [x]) with (t1 ++ (Ev c r :: t2) ++ [x]) in E.
    rewrite app_assoc in E. apply app_inj_tail in E as [-> _].
    apply (Ht t1 c r t2 eq_refl).
Qed.

Lemma disciplined_plain (t t' : list event) :
  disciplined t -> Forall (ok_event plain_call) t' -> disciplined (t ++ t').
Proof.
  intros Ht H. revert t Ht. induction H as [|e t' He _ IH]; intros t Ht.
  - rewrite app_nil_r. exact Ht.
  - replace (t ++ e :: t') with ((t ++ [e]) ++ t')
      by (rewrite <- app_assoc; reflexivity).
    apply IH. apply disciplined_snoc; [exact Ht|].
    destruct e as [c r|d]; [|exact I].
    destruct c; cbn in *; try exact I; contradiction.
Qed.

Lemma triple_bind {A B} (P : list event -> Prop) (m : M A)
      (Q : A -> list event -> Prop) (k : A -> M B)
      (R : B -> list event -> Prop) :
  triple P m Q -> (forall a, triple (Q a) (k a) R) -> triple P (bind m k) R.
Proof.
  intros Hm Hk s HP Hd. unfold bind.
  destruct (Hm s HP Hd) as [Hd1 H1].
  destruct (m s) as [[a|out] s1]; cbn [fst snd] in *.
  - apply (Hk a s1 H1 Hd1).
  - split; [exact Hd1 | exact H1].
Qed.

Lemma triple_weaken {A} (P P' : list event -> Prop) (m : M A)
      (Q Q' : A -> list event -> Prop) :
  (forall t, P t -> P' t) -> (forall a t, Q' a t -> Q a t) ->
  triple P' m Q' -> triple P m Q.
Proof.
  intros HP HQ Hm s Hs Hd. destruct (Hm s (HP _ Hs) Hd) as [Hd1 H1].
  split; [exact Hd1|].
  destruct (fst (m s)) as [a|[]]; auto.
Qed.

Lemma triple_syscall (P : list event -> Prop) (c : call)
      (Q : reply -> list event -> Prop) :
  (forall t, P t -> permitted c t) ->
  (forall t r, P t -> Q r (t ++ [Ev c r])) ->
  triple P (syscall c) Q.
Proof.
  intros Hperm HQ s HP Hd. unfold syscall.
  destruct (oracle s) as [|r o]; cbn [fst snd trace].
  - split; [exact Hd | apply Hperm, HP].
  - split; [|apply HQ, HP].
    apply disciplined_snoc; [exact Hd | apply Hperm, HP].
Qed.

Lemma triple_ret {A} (P : list event -> Prop) (a : A)
      (Q : A -> list event -> Prop) :
  (forall t, P t -> Q a t) -> triple P (ret a) Q.
Proof. intros H s HP Hd. split; [exact Hd | apply H, HP]. Qed.

(** A computation of plain calls keeps the discipline and every stable
    property. *)
Lemma triple_plain {A} (P : list event -> Prop) (m : M A) :
  stable P -> confined plain_call m -> triple P m (fun _ => P).
Proof.
  intros HS Hm s HP Hd. destruct (Hm s) as (t & Ht & Hok & Hc).
  rewrite Ht. split; [apply disciplined_plain; assumption|].
  destruct (fst (m s)) as [a|out] eqn:E.
  - apply HS; assumption.
  - destruct out as [| |c|]; try exact I.
    specialize (Hc c eq_refl). destruct c; cbn in *; try exact I;
      contradiction.
Qed.

Lemma triple_ends {A} (P : list event -> Prop) (m : M A)
      (Q : A -> list event -> Prop) :
  confined plain_call m ->
  (forall s a, fst (m s) <> Val a) ->
  triple P m Q.
Proof.
  intros Hm Hv.
  apply (triple_weaken P (fun _ => True) m Q (fun _ _ => False));
    [trivial | intros a t []|].
  intros s _ Hd.
  destruct (triple_plain (fun _ => True) m (fun _ _ _ _ => I) Hm s I Hd)
    as [Hd1 H1].
  split; [exact Hd1|].
  destruct (fst (m s)) as [a|out] eqn:E; [destruct (Hv s a E) | exact H1].
Qed.

Lemma listening_app (t t' : list event) :
  listening t -> listening (t ++ t').
Proof.
  intros (sock & rl & Hl & Hrl & Hd).
  exists sock, rl. split; [apply in_or_app; left; exact Hl|].
  split; [exact Hrl|]. destruct Hd as [->|(rd & Hd & Hrd)]; [left; reflexivity|].
  right. exists rd. split; [apply in_or_app; left; exact Hd | exact Hrd].
Qed.

Lemma stable_listening : stable listening.
Proof. intros t t' H _. apply listening_app, H. Qed.

Lemma plain_not_fork (t' : list event) (r : reply) :
  Forall (ok_event plain_call) t' -> ~ In (Ev Fork r) t'.
Proof.
  intros H Hin. rewrite Forall_forall in H. apply (H _ Hin).
Qed.

Lemma stable_no_fork : stable no_fork.
Proof.
  intros t t' H Hp r Hin. apply in_app_or in Hin as [Hin|Hin].
  - apply (H r Hin).
  - apply (plain_not_fork t' r Hp Hin).
Qed.

Lemma stable_not_parent : stable not_parent.
Proof.
  intros t t' H Hp r Hin. apply in_app_or in Hin as [Hin|Hin].
  - apply (H r Hin).
  - destruct (plain_not_fork t' r Hp Hin).
Qed.

Lemma stable_and (P Q : list event -> Prop) :
  stable P -> stable Q -> stable (fun t => P t /\ Q t).
Proof. intros HP HQ t t' [H1 H2] Hp. split; [apply HP | apply HQ]; auto. Qed.


Lemma never_val_bind {A B} (m : M A) (k : A -> M B) :
  (forall a s b, fst (k a s) <> Val b) ->
  forall s b, fst (bind m k s) <> Val b.
Proof.
  intros Hk s b. unfold bind. destruct (m s) as [[a|out] s1];
    [apply Hk | discriminate].
Qed.

Lemma never_val_loop (m : M Empty_set) {B} (k : Empty_set -> M B) :
  forall s b, fst (bind m k s) <> Val b.
Proof.
  intros s b. unfold bind. destruct (m s) as [[[]|out] s1]. discriminate.
Qed.

Lemma triple_fails {A} (P : list event -> Prop) (d : Z -> diag)
      (Q : A -> list event -> Prop) :
  triple P (ec <- get_errno ;; fprintf (d ec) ;;; exit_with EXIT_FAILURE) Q.
Proof.
  apply triple_ends; [repeat confined_step | intros; discriminate].
Qed.

Lemma in_snoc {X} (x y : X) (l : list X) : In x l -> In x (l ++ [y]).
Proof. intros H. apply in_or_app. left. exact H. Qed.

Lemma triple_install (sock : Z) (r : reply) :
  0 <= rv r ->
  triple (fun t => no_fork t /\ In (Ev (Listen sock 5) r) t)
         (if negb (sock =? 0)
          then rd <- syscall (Dup2 sock 0) ;;
               (if rv rd <? 0
                then ec <- get_errno ;;
                     fprintf (D_dup2 ec) ;;; exit_with EXIT_FAILURE
                else syscall (Close sock) ;;; ret 0)
          else ret sock)
         (fun _ t => no_fork t /\ listening t).
Proof.
  intros Hr. destruct (Z.eqb_spec sock 0) as [->|Hne]; cbn [negb].
  - apply triple_ret. intros t [Hn Hl]. split; [exact Hn|].
    exists 0, r. repeat split; auto.
  - eapply triple_bind.
    + apply (triple_syscall _ _
               (fun rd t => no_fork t /\ In (Ev (Listen sock 5) r) t
                            /\ In (Ev (Dup2 sock 0) rd) t)).
      * intros; exact I.
      * intros t rd [Hn Hl]. split; [|split].
        -- intros r' Hin. apply in_app_or in Hin as [Hin|[Hin|[]]];
             [apply (Hn r' Hin) | discriminate].
        -- apply in_snoc, Hl.
        -- apply in_or_app. right. left. reflexivity.
    + intros rd. destruct (Z.ltb_spec (rv rd) 0); [apply triple_fails|].
      eapply triple_bind; [|intros ?; apply triple_ret; intros t Ht; exact Ht].
      apply triple_syscall; [intros; exact I|].
      intros t rc (Hn & Hl & Hd). split.
      * intros r' Hin. apply in_app_or in Hin as [Hin|[Hin|[]]];
          [apply (Hn r' Hin) | discriminate].
      * exists sock, r. split; [apply in_snoc, Hl|]. split; [exact Hr|].
        right. exists rd. split; [apply in_snoc, Hd | assumption].
Qed.

Lemma triple_supervise (path : string) (sock : Z) :
  triple (fun t => no_fork t /\ listening t)
         (supervise path sock)
         (fun _ t => listening t /\ not_parent t).
Proof.
  unfold supervise.
  eapply triple_bind.
  { apply (triple_syscall _ _
             (fun r1 t => exists t0,
                  t = t0 ++ [Ev (Sigprocmask interest) r1]
                  /\ no_fork t0 /\ listening t0)).
    - intros; exact I.
    - intros t r1 [Hn Hl]. exists t. auto. }
  intros r1. destruct (Z.ltb_spec (rv r1) 0); [apply triple_fails|].
  eapply triple_bind.
  { apply (triple_syscall _ _
             (fun r2 t => exists t0,
                  t = t0 ++ [Ev (Sigprocmask interest) r1;
                             Ev (Signalfd interest) r2]
                  /\ no_fork t0 /\ listening t0)).
    - intros; exact I.
    - intros t r2 (t0 & -> & Hn & Hl). exists t0.
      rewrite <- app_assoc. auto. }
  intros r2. destruct (Z.ltb_spec (rv r2) 0); [apply triple_fails|].
  eapply triple_bind.
  { apply (triple_syscall _ _
             (fun r3 t => listening t
                          /\ forall r, In (Ev Fork r) t -> r = r3)).
    - intros t (t0 & -> & Hn & Hl). exists t0, r1, r2. auto.
    - intros t r3 (t0 & -> & Hn & Hl). split.
      + apply listening_app, listening_app, Hl.
      + intros r Hin. apply in_app_or in Hin as [Hin|[Hin|[]]].
        * apply in_app_or in Hin as [Hin|[Hin|[Hin|[]]]];
            [destruct (Hn r Hin) | discriminate | discriminate].
        * injection Hin as ->. reflexivity. }
  intros r3. destruct (Z.ltb_spec (rv r3) 0); [apply triple_fails|].
  destruct (Z.eqb_spec (rv r3) 0) as [Hz|Hnz]; cbn [negb].
  - apply triple_ret. intros t [Hl Hf]. split; [exact Hl|].
    intros r Hin. rewrite (Hf r Hin). exact Hz.
  - apply triple_ends.
    + repeat first
             [ apply confined_parent_loop; exact I
             | apply confined_syscall; exact I
             | confined_step ].
    + apply never_val_bind. intros _. apply never_val_bind. intros fuel.
      apply never_val_loop.
Qed.

Lemma triple_launch (argv environ : list string) :
  triple (fun t => listening t /\ not_parent t)
         (launch argv environ)
         (fun _ _ => True).
Proof.
  unfold launch. eapply triple_bind.
  - apply (triple_syscall _ _ (fun _ _ => True)); [|trivial].
    intros t H. exact H.
  - intros r. apply triple_ends.
    + repeat confined_step.
    + intros s a. destruct (rv r <? 0); discriminate.
Qed.

Lemma triple_main (argv environ : list string) :
  triple no_fork (main argv environ) (fun _ _ => True).
Proof.
  unfold main. eapply triple_bind.
  { apply (triple_plain no_fork); [apply stable_no_fork|].
    destruct (getenv UNIX_BIND_VAR environ) as [un|].
    - apply confined_unix_socket; intros; exact I.
    - destruct (getenv INET_BIND_VAR environ) as [inet|].
      + apply confined_inet_socket; intros; exact I.
      + repeat confined_step. }
  intros sock. eapply triple_bind.
  { apply (triple_syscall _ _
             (fun r t => no_fork t /\ In (Ev (Listen sock 5) r) t)).
    - intros; exact I.
    - intros t r Hn. split.
      + intros r' Hin. apply in_app_or in Hin as [Hin|[Hin|[]]];
          [apply (Hn r' Hin) | discriminate].
      + apply in_or_app. right. left. reflexivity. }
  intros r. destruct (Z.ltb_spec (rv r) 0); [apply triple_fails|].
  eapply triple_bind; [apply triple_install; assumption|].
  intros sock'. eapply triple_bind; [|intros ?; apply triple_launch].
  destruct (getenv UNIX_BIND_VAR environ) as [un|].
  - apply triple_supervise.
  - apply triple_ret. intros t [Hn Hl]. split; [exact Hl|].
    intros r' Hin. destruct (Hn r' Hin).
Qed.

Lemma fork_and_exec_only_when_ready_lemma
      (argv environ : list string) (o : list reply) :
  disciplined (snd (run_main argv environ o))
  /\ forall c, fst (run_main argv environ o) = NoReturn c ->
               permitted c (snd (run_main argv environ o)).
Proof.
  unfold run_main.
  destruct (triple_main argv environ (start o)) as [Hd H].
  - intros r [].
  - intros [|e t1] c r t2 E; discriminate.
  - destruct (main argv environ (start o)) as [[[]|out] s].
    cbn [fst snd] in *. split; [exact Hd|].
    intros c ->. exact H.
Qed.

(** X12: in every run, a [fork] directly follows a successful
    [sigprocmask] and a successful [signalfd] on the signals of interest,
    with no [fork] before, and an [execve] is made only by a process
    that is not a supervising parent; both come only after a [listen]
    that succeeded on a socket that is descriptor 0 or was copied to it
    by a successful [dup2]. *)
Theorem fork_and_exec_only_when_ready :
  forall (argv environ : list string) (o : list reply),
    disciplined (snd (run_main argv environ o))
    /\ forall c, fst (run_main argv environ o) = NoReturn c ->
                 permitted c (snd (run_main argv environ o)).
Proof. exact fork_and_exec_only_when_ready_lemma. Qed.


(** X13: a run forks at most once, and the process in which [fork]
    returned a child's identifier never calls [execve]. *)
Theorem parent_never_launches :
  forall (argv environ : list string) (o : list reply)
         (t1 t2 : list event) (r : reply),
    snd (run_main argv environ o) = t1 ++ Ev Fork r :: t2 ->
    armed t1
    /\ no_fork t2
    /\ (rv r <> 0 ->
        (forall p a e rx, ~ In (Ev (Execve p a e) rx) t2)
        /\ forall p a e, fst (run_main argv environ o)
                         <> NoReturn (Execve p a e)).
Proof.
  intros argv environ o t1 t2 r E.
  destruct (fork_and_exec_only_when_ready_lemma argv environ o) as [Hd Hc].
  rewrite E in *. split; [apply (Hd t1 Fork r t2 eq_refl)|]. split.
  - intros r' Hin. apply in_split in Hin as (a & b & ->).
    assert (Ha : armed (t1 ++ Ev Fork r :: a)).
    { apply (Hd (t1 ++ Ev Fork r :: a) Fork r' b).
      rewrite <- app_assoc. reflexivity. }
    destruct Ha as (t0 & r1 & r2 & E0 & _ & _ & _ & Hn).
    assert (Hin : In (Ev Fork r) (t0 ++ [Ev (Sigprocmask interest) r1;
                                         Ev (Signalfd interest) r2])).
    { rewrite <- E0. apply in_or_app. right. left. reflexivity. }
    apply in_app_or in Hin as [Hin|[Hin|[Hin|[]]]];
      [apply (Hn r Hin) | discriminate | discriminate].
  - intros Hnz. split.
    + intros p a e rx Hin. apply in_split in Hin as (x & y & ->).
      assert (Hp : permitted (Execve p a e) (t1 ++ Ev Fork r :: x)).
      { apply (Hd (t1 ++ Ev Fork r :: x) (Execve p a e) rx y).
        rewrite <- app_assoc. reflexivity. }
      destruct Hp as [_ Hp]. apply Hnz, (Hp r).
      apply in_or_app. right. left. reflexivity.
    + intros p a e Ho. destruct (Hc _ Ho) as [_ Hp]. apply Hnz, (Hp r).
      apply in_or_app. right. left. reflexivity.
Qed.

Lemma parent_never_launches_witness :
  armed [Ev (Socket PF_UNIX) (answer 0 0);
         Ev (BindUn 0 (strncpy "/tmp/test.sock" SUN_PATH_SIZE)) (answer 0 0);
         Ev (Listen 0 5) (answer 0 0);
         Ev (Sigprocmask interest) (answer 0 0);
         Ev (Signalfd interest) (answer 4 0)]
  /\ no_fork []
  /\ (rv (answer 77 0) <> 0 ->
      (forall p a e rx, ~ In (Ev (Execve p a e) rx) [])
      /\ forall p a e,
           fst (run_main ["bindwrap"; "/bin/app"]
                  ["FASTCGI4J_UNIX_BIND=/tmp/test.sock"]
                  [answer 0 0; answer 0 0; answer 0 0; answer 0 0;
                   answer 4 0; answer 77 0])
           <> NoReturn (Execve p a e)).
Proof.
  apply (parent_never_launches
           ["bindwrap"; "/bin/app"] ["FASTCGI4J_UNIX_BIND=/tmp/test.sock"]
           [answer 0 0; answer 0 0; answer 0 0; answer 0 0; answer 4 0;
            answer 77 0]).
  reflexivity.
Defined.

(** *** The exit status *)














End SupervisorFacts.

(** * Further facts about [native.c] *)

Module DescriptorFacts.
Import CString Native NativeFacts.

(** *** Copies between arrays and buffers *)

Lemma upd_nat_length (l : list Z) (i : nat) (v : Z) :
  List.length (upd_nat l i v) = List.length l.
Proof.
  revert i. induction l as [|x l IH]; intros [|i]; cbn; auto.
Qed.

Lemma upd_nat_split (l : list Z) (i : nat) (v : Z) :
  (i < List.length l)%nat ->
  upd_nat l i v = firstn i l ++ v :: skipn (S i) l.
Proof.
  revert i. induction l as [|x l IH]; intros [|i] H; cbn in *; try lia.
  - reflexivity.
  - rewrite IH by lia. reflexivity.
Qed.

Lemma copy_bytes_length (conv : Z -> Z) (src dst : list Z) (off : Z)
      (i n : nat) :
  List.length (copy_bytes conv src dst off i n) = List.length dst.
Proof.
  revert dst i. induction n as [|n IH]; intros dst i; [reflexivity|].
  cbn [copy_bytes]. rewrite IH. unfold upd.
  destruct (_ <? 0); [reflexivity | apply upd_nat_length].
Qed.

Lemma firstn_skipn_cons (l : list Z) (i n : nat) :
  (i < List.length l)%nat ->
  firstn (S n) (skipn i l) = nth i l 0 :: firstn n (skipn (S i) l).
Proof.
  revert i. induction l as [|x l IH]; intros [|i] H; cbn in *; try lia.
  - reflexivity.
  - apply IH. lia.
Qed.

(** The loop overwrites the [n] places from [i + off] on and nothing
    else. *)
Lemma copy_bytes_splice (conv : Z -> Z) (src dst : list Z) (off i n : nat) :
  (i + n <= List.length src)%nat ->
  (i + off + n <= List.length dst)%nat ->
  copy_bytes conv src dst (Z.of_nat off) i n
  = firstn (i + off) dst
    ++ map conv (firstn n (skipn i src))
    ++ skipn (i + off + n) dst.
Proof.
  revert dst i. induction n as [|n IH]; intros dst i Hs Hd.
  - cbn. rewrite Nat.add_0_r. symmetry. apply firstn_skipn.
  - cbn [copy_bytes]. unfold upd.
    destruct (Z.ltb_spec (Z.of_nat i + Z.of_nat off) 0); [lia|].
    replace (Z.to_nat (Z.of_nat i + Z.of_nat off)) with (i + off)%nat by lia.
    rewrite IH; [|lia | rewrite upd_nat_length; lia].
    rewrite upd_nat_split by lia.
    rewrite firstn_skipn_cons by lia. cbn [map].
    replace (S i + off)%nat with (S (i + off)) by lia.
    assert (Hl : List.length (firstn (i + off) dst) = (i + off)%nat)
      by (apply firstn_length_le; lia).
    rewrite firstn_app, Hl.
    replace (S (i + off) - (i + off))%nat with 1%nat by lia.
    rewrite firstn_all2 by lia. cbn [firstn].
    rewrite skipn_app, Hl.
    rewrite (skipn_all2 (firstn (i + off) dst)) by lia.
    replace (S (i + off) + n - (i + off))%nat with (S n) by lia.
    cbn [app]. rewrite skipn_cons, skipn_skipn.
    replace (n + S (i + off))%nat with (i + off + S n)%nat by lia.
    rewrite <- app_assoc. reflexivity.
Qed.

Lemma to_jbyte_to_char (char_signed : bool) (o : Z) :
  to_jbyte (to_char char_signed o) = to_jbyte o.
Proof.
  unfold to_jbyte, to_char.
  assert (H : 0 <= o mod 256 < 256) by (apply Z.mod_pos_bound; lia).
  assert (E : (o mod 256 - 256) mod 256 = o mod 256)
    by (symmetry; apply Z.mod_unique with (q := -1); lia).
  destruct (char_signed && (128 <=? o mod 256));
    [rewrite E | rewrite Z.mod_mod by lia]; reflexivity.
Qed.

Lemma to_jbyte_range (o : Z) : -128 <= to_jbyte o <= 127.
Proof.
  unfold to_jbyte.
  assert (H : 0 <= o mod 256 < 256) by (apply Z.mod_pos_bound; lia).
  destruct (Z.leb_spec 128 (o mod 256)); lia.
Qed.

Lemma to_jint_small (v : Z) : 0 <= v < 2 ^ 31 -> to_jint v = v.
Proof.
  intros H. unfold to_jint. change (2 ^ 31) with 2147483648 in *.
  change (2 ^ 32) with 4294967296.
  rewrite Z.mod_small by lia.
  destruct (Z.ltb_spec v 2147483648); lia.
Qed.

Lemma copy_bytes_conv_ext (f g : Z -> Z) (src dst : list Z) (off : Z)
      (i n : nat) :
  (forall o, f o = g o) ->
  copy_bytes f src dst off i n = copy_bytes g src dst off i n.
Proof.
  intros H. revert dst i. induction n as [|n IH]; intros dst i; [reflexivity|].
  cbn [copy_bytes]. rewrite H, IH. reflexivity.
Qed.

(** *** Reading into an array *)

(** X15: when [recv] has delivered [rc > 0] octets, no more than the
    [len] octets the buffer has room for, and they fit the array from
    [off], the array read returns [rc] and changes the array in
    [off .. off + rc - 1] only, where it holds the octets as signed
    bytes, whether plain [char] is signed or not. *)
Theorem readSocket_array_splice :
  forall (char_signed : bool) (fd : Z) (b : list Z) (off len : Z)
         (r : buf_reply),
    0 < b_rc r < 2 ^ 31 ->
    b_rc r <= len ->
    List.length (b_bytes r) = Z.to_nat (b_rc r) ->
    0 <= off ->
    off + b_rc r <= Z.of_nat (List.length b) ->
    readSocket__I_3BII char_signed fd b off len r
    = (b_rc r,
       firstn (Z.to_nat off) b
       ++ map to_jbyte (b_bytes r)
       ++ skipn (Z.to_nat (off + b_rc r)) b,
       [RecvBuf fd len r]).
Proof.
  intros cs fd b off len r Hrc Hcap Hlen Hoff Hfit.
  unfold readSocket__I_3BII.
  rewrite (firstn_all2 (n := Z.to_nat len) (b_bytes r)) by lia.
  destruct (Z.ltb_spec (b_rc r) 0); [lia|].
  destruct (Z.eqb_spec (b_rc r) 0); [lia|].
  rewrite to_jint_small by lia.
  rewrite (copy_bytes_conv_ext _ to_jbyte) by (intros; apply to_jbyte_to_char).
  replace off with (Z.of_nat (Z.to_nat off)) at 1 by lia.
  rewrite copy_bytes_splice by lia.
  cbn [skipn Nat.add]. rewrite <- Hlen, firstn_all.
  replace (Z.to_nat off + List.length (b_bytes r))%nat
    with (Z.to_nat (off + b_rc r)) by lia.
  reflexivity.
Qed.

Lemma readSocket_array_splice_witness :
  readSocket__I_3BII true 0 [1; 2; 3; 4; 5] 1 3
    {| b_rc := 2; b_ec := 0; b_len := 0; b_bytes := [255; 65] |}
  = (2, [1; -1; 65; 4; 5],
     [RecvBuf 0 3 {| b_rc := 2; b_ec := 0; b_len := 0;
                     b_bytes := [255; 65] |}]).
Proof.
  apply (readSocket_array_splice true 0 [1; 2; 3; 4; 5] 1 3
           {| b_rc := 2; b_ec := 0; b_len := 0; b_bytes := [255; 65] |});
    cbn; try reflexivity; lia.
Defined.

(** X16: when [recv] returns 0 or fails, the array read returns -1 and
    leaves the array as it was; an exception is raised for the failure
    only, so the end of the stream and an error look alike but for it. *)
Theorem readSocket_array_nothing_read :
  forall (char_signed : bool) (fd : Z) (b : list Z) (off len : Z)
         (r : buf_reply),
    b_rc r <= 0 ->
    exists evs,
      readSocket__I_3BII char_signed fd b off len r = (-1, b, evs)
      /\ raises evs = if b_rc r <? 0 then 1%nat else 0%nat.
Proof.
  intros cs fd b off len r H. unfold readSocket__I_3BII.
  destruct (Z.ltb_spec (b_rc r) 0); [eexists; split; reflexivity|].
  destruct (Z.eqb_spec (b_rc r) 0); [eexists; split; reflexivity | lia].
Qed.

Lemma readSocket_array_nothing_read_witness :
  exists evs,
    readSocket__I_3BII true 0 [1; 2; 3] 0 0
      {| b_rc := 0; b_ec := 0; b_len := 0; b_bytes := [] |}
    = (-1, [1; 2; 3], evs)
    /\ raises evs = 0%nat.
Proof.
  apply (readSocket_array_nothing_read true 0 [1; 2; 3] 0 0
           {| b_rc := 0; b_ec := 0; b_len := 0; b_bytes := [] |}).
  cbn. lia.
Defined.


(** *** Writing from an array *)

Lemma gather_slice (b : list Z) (off i n : nat) :
  (i + off + n <= List.length b)%nat ->
  gather b (Z.of_nat off) i n
  = map (fun v => v mod 256) (firstn n (skipn (i + off) b)).
Proof.
  revert i. induction n as [|n IH]; intros i H; [reflexivity|].
  cbn [gather]. rewrite firstn_skipn_cons by lia. cbn [map].
  replace (Z.to_nat (Z.of_nat i + Z.of_nat off)) with (i + off)%nat by lia.
  rewrite IH by lia. reflexivity.
Qed.

Lemma raises_cons (e : bulk_event) (evs : list bulk_event) :
  raises (e :: evs)
  = (match e with Raise _ => 1 | _ => 0 end + raises evs)%nat.
Proof. unfold raises. cbn [filter]. destruct e; reflexivity. Qed.

(** Whatever [send] answers, the octets it took are an initial part of
    the buffer, in order; the loop returns without an exception only when
    they are the whole buffer, and an exception ends it. *)
Lemma send_all_accepts_prefix (fd : Z) (world : list io_reply) :
  forall (ptr : list Z) (len : Z),
    List.length ptr = Z.to_nat len ->
    exists rest,
      ptr = accepted (fst (send_all fd ptr len world)) ++ rest
      /\ (raises (fst (send_all fd ptr len world)) <= 1)%nat
      /\ (snd (send_all fd ptr len world) = Returned ->
          raises (fst (send_all fd ptr len world)) = 0%nat ->
          rest = [])
      /\ (raises (fst (send_all fd ptr len world)) = 1%nat ->
          snd (send_all fd ptr len world) = Returned).
Proof.
  induction world as [|r world IH]; intros ptr len Hlen.
  - cbn [send_all]. destruct (Z.ltb_spec 0 len).
    + exists ptr. cbn. repeat split; try lia; try discriminate.
    + exists []. cbn. destruct ptr; [|cbn in Hlen; lia].
      repeat split; lia.
  - cbn [send_all]. destruct (Z.ltb_spec 0 len).
    2:{ exists []. cbn. destruct ptr; [|cbn in Hlen; lia]. repeat split; lia. }
    destruct (Z.ltb_spec (rc r) 0).
    + exists ptr. cbn [fst snd accepted flat_map].
      replace (Z.to_nat (rc r)) with 0%nat by lia. cbn.
      repeat split; try lia; try discriminate.
    + destruct (IH (skipn (Z.to_nat (rc r)) ptr) (len - rc r))
        as (rest & Hrest & Hle & Hdone & Hexc).
      { rewrite length_skipn. lia. }
      destruct (send_all fd (skipn (Z.to_nat (rc r)) ptr) (len - rc r) world)
        as [evs st].
      cbn [fst snd] in *. exists rest.
      rewrite raises_cons. cbn [accepted flat_map].
      rewrite (@firstn_all2 _ (Z.to_nat len) ptr) by lia.
      fold (accepted evs). rewrite <- app_assoc, <- Hrest, firstn_skipn.
      repeat split; auto.
Qed.

(** X17: the array write hands the socket the octets of
    [b[off .. off + len - 1]] in order, resuming after a short [send]
    where it stopped; it raises at most one exception, having returned
    when it does, and when it returns without one every octet was
    taken. *)
Theorem writeSocket_array_in_order :
  forall (fd : Z) (b : list Z) (off len : Z) (world : list io_reply),
    0 <= off -> 0 <= len -> off + len <= Z.of_nat (List.length b) ->
    exists rest,
      map (fun v => v mod 256)
          (firstn (Z.to_nat len) (skipn (Z.to_nat off) b))
      = accepted (fst (writeSocket__I_3BII fd b off len world)) ++ rest
      /\ (raises (fst (writeSocket__I_3BII fd b off len world)) <= 1)%nat
      /\ (snd (writeSocket__I_3BII fd b off len world) = Returned ->
          raises (fst (writeSocket__I_3BII fd b off len world)) = 0%nat ->
          rest = [])
      /\ (raises (fst (writeSocket__I_3BII fd b off len world)) = 1%nat ->
          snd (writeSocket__I_3BII fd b off len world) = Returned).
Proof.
  intros fd b off len world Hoff Hlen Hfit.
  assert (E : off = Z.of_nat (Z.to_nat off)) by lia.
  revert E Hfit. generalize (Z.to_nat off) as o. intros o -> Hfit.
  unfold writeSocket__I_3BII. cbv zeta.
  rewrite gather_slice by lia. cbn [Nat.add].
  apply send_all_accepts_prefix.
  rewrite length_map, firstn_length_le; [reflexivity|].
  rewrite length_skipn. lia.
Qed.

Lemma writeSocket_array_in_order_witness :
  exists rest,
    [255; 66; 67]
    = accepted (fst (writeSocket__I_3BII 0 [9; -1; 66; 67; 9] 1 3
                       [ {| rc := 2; ec := 0; octet := 0 |};
                         {| rc := 1; ec := 0; octet := 0 |} ])) ++ rest.
Proof.
  destruct (writeSocket_array_in_order 0 [9; -1; 66; 67; 9] 1 3
              [ {| rc := 2; ec := 0; octet := 0 |};
                {| rc := 1; ec := 0; octet := 0 |} ])
    as (rest & H & _); [cbn; lia ..|].
  exists rest. exact H.
Defined.

(** A [send] that takes nothing is followed by another [send] of the
    same octets. *)
Example writeSocket_array_short_sends :
  writeSocket__I_3BII 0 [9; -1; 66; 67; 9] 1 3
    [ {| rc := 0; ec := 0; octet := 0 |};
      {| rc := 2; ec := 0; octet := 0 |};
      {| rc := -1; ec := 32; octet := 0 |};
      {| rc := 1; ec := 0; octet := 0 |} ]
  = ([ SendBuf 0 [255; 66; 67] {| rc := 0; ec := 0; octet := 0 |};
       SendBuf 0 [255; 66; 67] {| rc := 2; ec := 0; octet := 0 |};
       SendBuf 0 [67] {| rc := -1; ec := 32; octet := 0 |};
       Raise 32 ], Returned).
Proof. reflexivity. Qed.


(** *** Addresses handed back to Java *)

(** X18: [MAX_SOCKADDR_LEN] is the largest of the four structure sizes:
    it is one of them and no smaller than any. *)
Theorem address_buffer_fits_every_family :
  forall sa sin sin6 sun : Z,
    let m := max_sockaddr_len sa sin sin6 sun in
    sa <= m /\ sin <= m /\ sin6 <= m /\ sun <= m
    /\ (m = sa \/ m = sin \/ m = sin6 \/ m = sun).
Proof.
  intros sa sin sin6 sun. unfold max_sockaddr_len, MAX.
  destruct (Z.gtb_spec sin6 sun); destruct (Z.gtb_spec sin (if sin6 >? sun then sin6 else sun));
    destruct (Z.gtb_spec sa (if sin >? (if sin6 >? sun then sin6 else sun) then sin else (if sin6 >? sun then sin6 else sun)));
    repeat match goal with
           | H : context [if ?a >? ?b then _ else _] |- _ =>
               destruct (Z.gtb_spec a b)
           | |- context [if ?a >? ?b then _ else _] =>
               destruct (Z.gtb_spec a b)
           end; lia.
Qed.

Lemma copy_back_addr_spliced :
  forall (char_signed : bool) (ulen ubuf ptr : list Z) (addrlen : Z),
    0 <= addrlen < 2 ^ 31 ->
    addrlen <= Z.of_nat (List.length ptr) ->
    addrlen <= Z.of_nat (List.length ubuf) ->
    ulen <> [] ->
    copy_back_addr char_signed ulen ubuf ptr addrlen
    = (addrlen :: tl ulen,
       map to_jbyte (firstn (Z.to_nat addrlen) ptr)
       ++ skipn (Z.to_nat addrlen) ubuf).
Proof.
  intros cs ulen ubuf ptr addrlen Hlen Hptr Hbuf Hulen.
  unfold copy_back_addr. rewrite to_jint_small by lia.
  rewrite (copy_bytes_conv_ext _ to_jbyte) by (intros; apply to_jbyte_to_char).
  change 0 with (Z.of_nat 0) at 2.
  rewrite copy_bytes_splice by lia. cbn [Nat.add firstn skipn app].
  destruct ulen as [|x ulen]; [contradiction | reflexivity].
Qed.

(** X19: [copy_back_addr] stores the length in [ulen[0]] and the first
    [addrlen] octets of the address as signed bytes at the start of
    [ubuf]; the rest of both arrays is untouched. *)
Theorem copy_back_addr_splice :
  forall (char_signed : bool) (ulen ubuf ptr : list Z) (addrlen : Z),
    0 <= addrlen < 2 ^ 31 ->
    addrlen <= Z.of_nat (List.length ptr) ->
    addrlen <= Z.of_nat (List.length ubuf) ->
    ulen <> [] ->
    copy_back_addr char_signed ulen ubuf ptr addrlen
    = (addrlen :: tl ulen,
       map to_jbyte (firstn (Z.to_nat addrlen) ptr)
       ++ skipn (Z.to_nat addrlen) ubuf).
Proof. exact copy_back_addr_spliced. Qed.

Lemma copy_back_addr_splice_witness :
  copy_back_addr true [0] [7; 7; 7; 7] [2; 0; 200; 80] 3
  = ([3], [2; 0; -56; 7]).
Proof.
  apply (copy_back_addr_splice true [0] [7; 7; 7; 7] [2; 0; 200; 80] 3);
    cbn; try lia; discriminate.
Defined.

(** X20: [acceptConnection] offers [accept] the whole buffer; on failure
    it raises and returns -1 with both arrays untouched, otherwise it
    returns the new descriptor with the peer's address and its length
    copied back. *)
Theorem acceptConnection_outcomes :
  forall (char_signed : bool) (fd : Z) (ulen ubuf : list Z) (r : buf_reply),
    b_rc r < 2 ^ 31 ->
    0 <= b_len r < 2 ^ 31 ->
    b_len r <= Z.of_nat (List.length (b_bytes r)) ->
    b_len r <= Z.of_nat (List.length ubuf) ->
    ulen <> [] ->
    acceptConnection char_signed fd ulen ubuf r
    = if b_rc r <? 0
      then (-1, (ulen, ubuf),
            [AcceptCall fd MAX_SOCKADDR_LEN r; Raise (b_ec r)])
      else (b_rc r,
            (b_len r :: tl ulen,
             map to_jbyte (firstn (Z.to_nat (b_len r)) (b_bytes r))
             ++ skipn (Z.to_nat (b_len r)) ubuf),
            [AcceptCall fd MAX_SOCKADDR_LEN r]).
Proof.
  intros cs fd ulen ubuf r Hrc Hlen Hbytes Hbuf Hulen.
  unfold acceptConnection. destruct (Z.ltb_spec (b_rc r) 0); [reflexivity|].
  rewrite to_jint_small by lia.
  rewrite copy_back_addr_spliced by assumption. reflexivity.
Qed.

Lemma acceptConnection_outcomes_witness :
  acceptConnection true 0 [0] [7; 7; 7; 7]
    {| b_rc := 5; b_ec := 0; b_len := 3; b_bytes := [2; 0; 200; 80] |}
  = (5, ([3], [2; 0; -56; 7]),
     [AcceptCall 0 MAX_SOCKADDR_LEN
        {| b_rc := 5; b_ec := 0; b_len := 3; b_bytes := [2; 0; 200; 80] |}]).
Proof.
  apply (acceptConnection_outcomes true 0 [0] [7; 7; 7; 7]
           {| b_rc := 5; b_ec := 0; b_len := 3; b_bytes := [2; 0; 200; 80] |});
    cbn; try lia; discriminate.
Defined.


(** X21: [checkDescriptor] looks at descriptor 0 only and returns 0 or
    -1.  With -1 the arrays are untouched; with 0 no exception is raised;
    -1 without an exception means exactly that descriptor 0 is not a
    socket; and [getsockname] is asked a second time exactly when the
    first answer was longer than a [struct sockaddr]. *)
Theorem checkDescriptor_outcomes :
  forall (char_signed : bool) (ulen ubuf : list Z) (r1 r2 : buf_reply),
    let ret := fst (fst (checkDescriptor char_signed ulen ubuf r1 r2)) in
    let arrays := snd (fst (checkDescriptor char_signed ulen ubuf r1 r2)) in
    let evs := snd (checkDescriptor char_signed ulen ubuf r1 r2) in
    (ret = 0 \/ ret = -1)
    /\ (ret = -1 -> arrays = (ulen, ubuf))
    /\ (ret = 0 -> raises evs = 0%nat)
    /\ (ret = -1 /\ raises evs = 0%nat
        <-> b_rc r1 < 0 /\ b_ec r1 = ENOTSOCK)
    /\ Forall (fun fd => fd = 0) (probes evs)
    /\ (List.length (probes evs) = 2%nat
        <-> 0 <= b_rc r1 /\ SIZEOF_SOCKADDR < b_len r1).
Proof.
  intros cs ulen ubuf r1 r2. unfold checkDescriptor. cbv zeta.
  destruct (Z.ltb_spec (b_rc r1) 0).
  - destruct (Z.eqb_spec (b_ec r1) ENOTSOCK); cbn;
      repeat split; auto; try lia; try discriminate; intros; try tauto;
        try (exfalso; lia).
  - destruct (Z.leb_spec (b_len r1) SIZEOF_SOCKADDR).
    + cbn. repeat split; auto; try lia; try discriminate; intros;
        try (exfalso; lia).
    + destruct (Z.ltb_spec (b_rc r2) 0); cbn;
        repeat split; auto; try lia; try discriminate; intros;
          try (exfalso; lia).
Qed.

(** *** The path of a local socket *)

Lemma strncpy_then_terminate (src cpy : list ascii) (n : nat) :
  List.length src = n -> (n < List.length cpy)%nat ->
  string_of_buf
    (store (strncpy_buf src (strnlen src n) ++ skipn (strnlen src n) cpy)
           (strnlen src n) NUL)
  = string_of_buf (src ++ [NUL]).
Proof.
  revert n cpy. induction src as [|c src IH]; intros n cpy Hn Hc.
  - cbn in Hn. subst n. destruct cpy as [|d cpy]; [cbn in Hc; lia|].
    reflexivity.
  - cbn in Hn. subst n. destruct cpy as [|d cpy]; [cbn in Hc; lia|].
    cbn [strnlen app string_of_buf]. destruct (is_nul c) eqn:E.
    + reflexivity.
    + cbn [strncpy_buf]. rewrite E. cbn [skipn app store string_of_buf].
      rewrite E. rewrite IH; [reflexivity | reflexivity | cbn in Hc; lia].
Qed.

Lemma string_of_buf_bound (l : list ascii) :
  (String.length (string_of_buf (l ++ [NUL])) <= List.length l)%nat.
Proof.
  induction l as [|c l IH]; [cbn; lia|].
  cbn. destruct (is_nul c); cbn; lia.
Qed.

Lemma string_of_buf_strncpy (p : string) (lim : nat) (rest : list ascii) :
  (strlen p < lim)%nat -> string_of_buf (strncpy p lim ++ rest) = cstr p.
Proof.
  revert lim. induction p as [|c p IH]; intros [|lim] H; cbn in H; try lia.
  - reflexivity.
  - cbn [strncpy strlen cstr] in *. destruct (is_nul c) eqn:E.
    + cbn. reflexivity.
    + cbn [app string_of_buf]. rewrite E, IH by lia. reflexivity.
Qed.

(** X22: the path handed to Java is the content of [sun_path] up to its
    first NUL, at most 108 characters; and a path that the wrapper
    accepts, copied into [sun_path] as the wrapper does, is read back
    unchanged. *)
Theorem unix_path_round_trip :
  forall (p : string) (sun_path cpy : list ascii),
    List.length sun_path = Bindwrap.SUN_PATH_SIZE ->
    List.length cpy = S Bindwrap.SUN_PATH_SIZE ->
    (strlen p < Bindwrap.SUN_PATH_SIZE)%nat ->
    unix_path sun_path cpy = string_of_buf (sun_path ++ [NUL])
    /\ (String.length (unix_path sun_path cpy)
        <= Bindwrap.SUN_PATH_SIZE)%nat
    /\ Bindwrap.trunc_strncpy p Bindwrap.SUN_PATH_SIZE
       = (strncpy p Bindwrap.SUN_PATH_SIZE, false)
    /\ unix_path (strncpy p Bindwrap.SUN_PATH_SIZE) cpy = cstr p.
Proof.
  intros p sun_path cpy Hs Hc Hp.
  assert (G : forall src, List.length src = Bindwrap.SUN_PATH_SIZE ->
                          unix_path src cpy = string_of_buf (src ++ [NUL])).
  { intros src Hsrc. unfold unix_path. cbv zeta.
    apply strncpy_then_terminate; [exact Hsrc | lia]. }
  split; [apply G, Hs|]. split.
  - rewrite G by exact Hs. rewrite <- Hs. apply string_of_buf_bound.
  - split.
    + pose proof (BindwrapFacts.trunc_strncpy_flag p Bindwrap.SUN_PATH_SIZE
                    ltac:(unfold Bindwrap.SUN_PATH_SIZE; lia)) as F.
      unfold Bindwrap.trunc_strncpy in *. cbn [snd] in F. rewrite F.
      apply Nat.leb_gt in Hp. rewrite Hp. reflexivity.
    + rewrite G.
      * apply string_of_buf_strncpy, Hp.
      * clear. generalize Bindwrap.SUN_PATH_SIZE as n. revert p.
        induction p as [|c p IH]; intros n.
        -- induction n as [|n IHn]; cbn; [|rewrite IHn]; reflexivity.
        -- destruct n as [|n]; [reflexivity|]. cbn [strncpy].
           destruct (is_nul c); cbn [List.length]; [|rewrite IH; reflexivity].
           f_equal. clear. induction n as [|n IHn]; cbn; [|rewrite IHn];
             reflexivity.
Qed.

Lemma unix_path_round_trip_witness :
  unix_path (strncpy "/tmp/test.sock" Bindwrap.SUN_PATH_SIZE)
            (repeat "x"%char 109)
  = "/tmp/test.sock".
Proof.
  destruct (unix_path_round_trip
              "/tmp/test.sock"
              (strncpy "/tmp/test.sock" Bindwrap.SUN_PATH_SIZE)
              (repeat "x"%char 109) eq_refl eq_refl)
    as (_ & _ & _ & H).
  - unfold Bindwrap.SUN_PATH_SIZE. cbn. lia.
  - exact H.
Defined.

End DescriptorFacts.
